(** * yutto: the download / merge engine of [yutto/processor/downloader.py]

    A shallow embedding of [slice_blocks], [show_videos_info],
    [show_audios_info], [download_video_and_audio], [merge_video_and_audio]
    and [start_downloader], and the properties of the
    block planner, the merge-argument construction and the per-episode
    orchestration that the specification states about them.

    Python integers are unbounded, hence [Z]; [//] and [%] are floor division
    and its remainder, which is what [Z.div] and [Z.modulo] compute for a
    non-zero divisor.  Python exceptions are the constructors of [PyExc];
    a computation that can raise returns a [result]. *)

From Stdlib Require Import ZArith Lia DecimalString.
From stdpp Require Import base tactics option list strings functions gmap.

Local Open Scope Z_scope.

(** ** Exceptions and results *)

Inductive PyExc : Type :=
  | AssertionError
  | ValueError
  | IndexError
  | KeyError
  | FileNotFoundError
  | ExternalError (what : string).

Inductive result (A : Type) : Type :=
  | Ok (a : A)
  | Raise (e : PyExc).
Arguments Ok {A} a.
Arguments Raise {A} e.

Definition is_ok {A} (r : result A) : bool :=
  match r with Ok _ => true | Raise _ => false end.

(** ** Python built-ins used by the planner *)

(** Number of elements of [range(start, stop, step)] for [step <> 0]
    (CPython's [compute_range_length]). *)
Definition range_length (start stop step : Z) : Z :=
  if 0 <? step then
    if start <? stop then 1 + (stop - 1 - start) / step else 0
  else
    if stop <? start then 1 + (start - 1 - stop) / (0 - step) else 0.

(** [range(start, stop, step)], which raises [ValueError] on a zero step. *)
Definition py_range (start stop step : Z) : result (list Z) :=
  if step =? 0 then Raise ValueError
  else Ok (map (fun i : nat => start + Z.of_nat i * step)
               (seq 0 (Z.to_nat (range_length start stop step)))).

(** [l[-1] = v]: assignment to the last element, [IndexError] on an empty
    list. *)
Definition setitem_last {A} (l : list A) (v : A) : result (list A) :=
  match l with
  | [] => Raise IndexError
  | _ :: _ => Ok (<[Nat.pred (length l) := v]> l)
  end.

(** [l.index(x)]: the position of the first element equal to [x],
    [ValueError] when there is none. *)
Fixpoint py_index {A} `{EqDecision A} (l : list A) (x : A) : result Z :=
  match l with
  | [] => Raise ValueError
  | y :: rest =>
    if decide (y = x) then Ok 0
    else match py_index rest x with
         | Ok i => Ok (1 + i)
         | Raise e => Raise e
         end
  end.

(** [d[key]] on a dictionary, [KeyError] when the key is missing. *)
Definition py_getitem `{Countable K} {V} (d : gmap K V) (key : K) : result V :=
  match d !! key with
  | Some v => Ok v
  | None => Raise KeyError
  end.

(** A [for] loop whose body may raise: the first exception ends it. *)
Fixpoint for_each_result {A} (l : list A) (body : A -> result unit)
  : result unit :=
  match l with
  | [] => Ok tt
  | x :: rest =>
    match body x with
    | Ok _ => for_each_result rest body
    | Raise e => Raise e
    end
  end.

(** ** [slice_blocks] *)

(** A block is a [(start, size)] tuple; the size is [None] when the total
    size is unknown. *)
Definition Block : Type := Z * option Z.

Definition slice_blocks (start : Z) (total_size block_size : option Z)
  : result (list Block) :=
  match total_size with
  | None => Ok [(0, None)]
  | Some total_size =>
    match block_size with
    | None => Ok [(0, Some (total_size - 1))]
    | Some block_size =>
      if negb (start <=? total_size) then Raise AssertionError
      else
        match py_range start total_size block_size with
        | Raise e => Raise e
        | Ok offsets =>
          let offset_list : list Block :=
            map (fun i => (i, Some block_size)) offsets in
          if negb ((total_size - start) mod block_size =? 0) then
            setitem_last offset_list
              (start + (total_size - start) / block_size * block_size,
               Some (total_size - start
                     - (total_size - start) / block_size * block_size))
          else Ok offset_list
        end
    end
  end.

(** *** What a plan means

    The consumer unpacks every block as [offset, block_size] and requests
    [block_size] bytes from [offset] on: a block [(s, Some n)] stands for the
    bytes [s <= x < s + n]. *)

Definition in_block (x : Z) (blk : Block) : Prop :=
  match blk with
  | (s, Some n) => s <= x < s + n
  | (s, None) => s <= x
  end.

Definition block_size_of (blk : Block) : option Z := snd blk.

(** [chain r bs T]: the blocks of [bs], in order, are non-empty, each starts
    where the previous one ends, the first starts at [r] and the last ends
    at [T]. *)
Fixpoint chain (r : Z) (bs : list Block) (T : Z) : Prop :=
  match bs with
  | [] => r = T
  | (s, Some n) :: rest => s = r /\ 0 < n /\ chain (r + n) rest T
  | (_, None) :: _ => False
  end.

(** Blocks at different positions share no byte. *)
Definition non_overlapping (bs : list Block) : Prop :=
  forall (i j : nat) (bi bj : Block) (x : Z),
    bs !! i = Some bi -> bs !! j = Some bj -> i <> j ->
    in_block x bi -> in_block x bj -> False.

(** The union of the blocks is exactly the byte range [r, T). *)
Definition covers (bs : list Block) (r T : Z) : Prop :=
  forall x : Z, (exists blk, blk ∈ bs /\ in_block x blk) <-> r <= x < T.

(** The size the specification gives for the last block. *)
Definition expected_last_size (r T b : Z) : Z :=
  if (T - r) mod b =? 0 then b else (T - r) mod b.

(** [n] blocks of size [b], the first at [r + k * b]. *)
Definition uniform (r b : Z) (k n : nat) : list Block :=
  map (fun i => (i, Some b))
      (map (fun i : nat => r + Z.of_nat i * b) (seq k n)).

(** ** Data model of the orchestrator

    The [TypedDict]s of [yutto._typing], with the keys the module reads.
    Quality tiers are the integer codes of the remote service; codecs,
    formats and languages are strings. *)

Definition Path : Type := string.

Record VideoUrlMeta : Type := {
  v_url : string;
  v_mirrors : list string;
  v_codec : string;
  v_width : Z;
  v_height : Z;
  v_quality : Z
}.

Record AudioUrlMeta : Type := {
  a_url : string;
  a_mirrors : list string;
  a_codec : string;
  a_quality : Z
}.

Record SubtitleData : Type := {
  lang : string;
  lines : list string
}.

Record DanmakuData : Type := {
  data : list string;
  save_type : string
}.

Record EpisodeData : Type := {
  videos : list VideoUrlMeta;
  audios : list AudioUrlMeta;
  subtitles : list SubtitleData;
  danmaku : DanmakuData;
  metadata : option string;
  output_dir : Path;
  tmp_dir : Path;
  filename : string
}.

(** Python compares dictionaries by their items. *)
#[export] Instance VideoUrlMeta_eq_dec : EqDecision VideoUrlMeta :=
  ltac:(solve_decision).
#[export] Instance AudioUrlMeta_eq_dec : EqDecision AudioUrlMeta :=
  ltac:(solve_decision).

Record DownloaderOptions : Type := {
  require_video : bool;
  video_quality : Z;
  video_download_codec : string;
  video_save_codec : string;
  require_audio : bool;
  audio_quality : Z;
  audio_download_codec : string;
  audio_save_codec : string;
  output_format : string;
  output_format_audio_only : string;
  overwrite : bool;
  block_size : option Z;
  num_workers : Z
}.

(** [options["video_save_codec"] = c] and [options["audio_save_codec"] = c]
    on the dictionary itself. *)
Definition set_video_save_codec (c : string) (o : DownloaderOptions)
  : DownloaderOptions :=
  {| require_video := require_video o;
     video_quality := video_quality o;
     video_download_codec := video_download_codec o;
     video_save_codec := c;
     require_audio := require_audio o;
     audio_quality := audio_quality o;
     audio_download_codec := audio_download_codec o;
     audio_save_codec := audio_save_codec o;
     output_format := output_format o;
     output_format_audio_only := output_format_audio_only o;
     overwrite := overwrite o;
     block_size := block_size o;
     num_workers := num_workers o |}.

Definition set_audio_save_codec (c : string) (o : DownloaderOptions)
  : DownloaderOptions :=
  {| require_video := require_video o;
     video_quality := video_quality o;
     video_download_codec := video_download_codec o;
     video_save_codec := video_save_codec o;
     require_audio := require_audio o;
     audio_quality := audio_quality o;
     audio_download_codec := audio_download_codec o;
     audio_save_codec := c;
     output_format := output_format o;
     output_format_audio_only := output_format_audio_only o;
     overwrite := overwrite o;
     block_size := block_size o;
     num_workers := num_workers o |}.

(** ** Effects

    The coroutines handed to [asyncio.gather]. *)
Inductive Task : Type :=
  | show_progress (buffers : list Path) (total : Z)
  | download_file_with_offset
      (url : string) (mirrors : list string) (buffer : Path)
      (offset : Z) (size : option Z).

(** What the module does to the world outside, in the order it does it.
    What [Logger] writes to the console is not part of the model. *)
Inductive Event : Type :=
  | EvMkdir (p : Path)
  | EvWriteSubtitle (ls : list string) (p : Path) (lg : string)
  | EvWriteDanmaku (d : DanmakuData) (p : Path) (height width : Z)
  | EvWriteMetadata (m : string) (p : Path)
  | EvExists (p : Path) (answer : bool)
  | EvUnlink (p : Path)
  | EvSetSemaphore (n : Z)
  | EvOpenBuffer (p : Path) (ow : bool)
  | EvGetSize (url : string)
  | EvGather (coroutines : list Task)
  | EvCloseBuffer (p : Path)
  | EvFFmpegExec (args : list string).

(** The events that go to the network, the one that runs the muxer and the
    ones that write subtitle, danmaku or metadata files. *)
Definition is_network (e : Event) : bool :=
  match e with
  | EvGetSize _ | EvGather _ => true
  | _ => false
  end.

Definition is_muxer (e : Event) : bool :=
  match e with
  | EvFFmpegExec _ => true
  | _ => false
  end.

Definition is_ancillary (e : Event) : bool :=
  match e with
  | EvWriteSubtitle _ _ _ | EvWriteDanmaku _ _ _ _ | EvWriteMetadata _ _ => true
  | _ => false
  end.

(** The file system: the length in bytes of every file that exists. *)
Abbreviation FS := (gmap string Z).

(** The parts of the program that live in other modules ([pathlib],
    [yutto.bilibili_typing.quality], [yutto.processor.selector],
    [yutto.utils.subtitle], [yutto.utils.danmaku], [yutto.utils.metadata],
    [yutto.utils.fetcher], [yutto.utils.ffmpeg], [asyncio], [os]);
    everything below is stated for any such collaborators.  The two quality
    maps give the description of every quality they know; [FFmpeg] is the
    constructor [FFmpeg()], which returns the muxer or raises, and
    [ffmpeg_exec] the method [exec] of the muxer it returns. *)
Record Collaborators : Type := {
  joinpath : Path -> string -> Path;
  video_quality_map : gmap Z string;
  audio_quality_map : gmap Z string;
  select_video : list VideoUrlMeta -> Z -> string -> option VideoUrlMeta;
  select_audio : list AudioUrlMeta -> Z -> string -> option AudioUrlMeta;
  write_subtitle : list string -> Path -> string -> FS -> FS;
  write_danmaku : DanmakuData -> Path -> Z -> Z -> FS -> FS;
  write_metadata : string -> Path -> FS -> FS;
  get_size : string -> result (option Z);
  gather : list Task -> FS -> result FS;
  FFmpeg : result unit;
  ffmpeg_exec : list string -> FS -> result FS;
  cpu_count : option nat
}.

(** A reference to an options dictionary.  Python passes the dictionary by
    reference: caller and callee hold the same object, so the store maps
    references to dictionaries and the functions below take a reference. *)
Definition ref : Type := nat.

Record World : Type := {
  heap : ref -> DownloaderOptions;
  fs : FS;
  trace : list Event
}.

(** Computations that read and change the world and may raise; the world
    reached when the exception is raised is kept. *)
Definition M (A : Type) : Type := World -> result A * World.

Definition ret {A} (a : A) : M A := fun w => (Ok a, w).

Definition bind {A B} (m : M A) (k : A -> M B) : M B :=
  fun w =>
    match m w with
    | (Ok a, w') => k a w'
    | (Raise e, w') => (Raise e, w')
    end.

Definition raise {A} (e : PyExc) : M A := fun w => (Raise e, w).

#[export] Instance M_ret : MRet M := @ret.
#[export] Instance M_bind : MBind M := fun A B k m => bind m k.

Definition lift {A} (r : result A) : M A := fun w => (r, w).

Definition emit (e : Event) : M unit :=
  fun w => (Ok tt, {| heap := heap w; fs := fs w; trace := trace w ++ [e] |}).

(** [options[key]] *)
Definition getitem {A} (key : DownloaderOptions -> A) (options : ref) : M A :=
  fun w => (Ok (key (heap w options)), w).

(** [options[key] = value], through a setter of the dictionary *)
Definition setitem (set : DownloaderOptions -> DownloaderOptions)
    (options : ref) : M unit :=
  fun w => (Ok tt, {| heap := <[options := set (heap w options)]> (heap w);
                      fs := fs w; trace := trace w |}).

Definition update_fs (f : FS -> FS) : M unit :=
  fun w => (Ok tt, {| heap := heap w; fs := f (fs w); trace := trace w |}).

Definition try_fs (f : FS -> result FS) : M unit :=
  fun w =>
    match f (fs w) with
    | Ok fs' => (Ok tt, {| heap := heap w; fs := fs'; trace := trace w |})
    | Raise e => (Raise e, w)
    end.

(** [Path.exists] *)
Definition path_exists (p : Path) : M bool :=
  fun w =>
    let answer := bool_decide (is_Some (fs w !! p)) in
    (Ok answer,
     {| heap := heap w; fs := fs w; trace := trace w ++ [EvExists p answer] |}).

(** [Path.unlink], which raises [FileNotFoundError] on a missing file *)
Definition remove_file (p : Path) : M unit :=
  fun w =>
    match fs w !! p with
    | Some _ => (Ok tt, {| heap := heap w; fs := delete p (fs w);
                           trace := trace w |})
    | None => (Raise FileNotFoundError, w)
    end.

Definition unlink (p : Path) : M unit :=
  emit (EvUnlink p);; remove_file p.

Fixpoint for_each {A} (l : list A) (body : A -> M unit) : M unit :=
  match l with
  | [] => ret tt
  | x :: rest => body x;; for_each rest body
  end.

Definition when (b : bool) (m : M unit) : M unit := if b then m else ret tt.

(** ** Helpers imported from other modules of the repository *)

(** Modelled from the spec: what opening an [AsyncFileBuffer] of
    [yutto.utils.file_buffer] does to the file.  Opening with [overwrite] set
    truncates or creates the file with [written_size = 0]; otherwise the
    existing file is opened (or created) and [written_size] is its current
    length.  The result is [written_size]. *)
Definition open_file (p : Path) (ow : bool) : M Z :=
  fun w =>
    let written_size := if ow then 0 else default 0 (fs w !! p) in
    (Ok written_size,
     {| heap := heap w; fs := <[p := written_size]> (fs w);
        trace := trace w |}).

(** Modelled from the spec: the constructor of [AsyncFileBuffer], which
    opens the file as above; the buffer is identified by its path. *)
Definition AsyncFileBuffer (p : Path) (ow : bool) : M Z :=
  emit (EvOpenBuffer p ow);; open_file p ow.

(** Modelled from the spec: [filter_none_value] of [yutto.utils.funcutils],
    which drops the [None] entries of a sequence. *)
Definition filter_none_value {A} (l : list (option A)) : list A :=
  omap id l.

(** Modelled from the spec: [xmerge] of [yutto.utils.funcutils], the
    round-robin merge of several task sequences: one element of every
    sequence that still has one, in the order of the sequences, round after
    round. *)
Fixpoint xmerge_rounds {A} (rounds : nat) (ls : list (list A)) : list A :=
  match rounds with
  | O => []
  | S rounds' =>
    omap head ls ++ xmerge_rounds rounds' (map (@tail A) ls)
  end.

Definition xmerge {A} (ls : list (list A)) : list A :=
  xmerge_rounds (foldr Nat.max O (map (@length A) ls)) ls.

(** [sum] of a list of integers *)
Definition py_sum (l : list Z) : Z := foldl Z.add 0 l.

(** [str(os.cpu_count())]: the decimal numeral, or ["None"] when the count
    is undetermined. *)
Definition str_cpu_count (n : option nat) : string :=
  match n with
  | Some n => NilEmpty.string_of_uint (Nat.to_uint n)
  | None => "None"
  end.

(** [functools.reduce(lambda prev, cur: prev + cur, args_list)] on a
    non-empty list of lists. *)
Definition reduce_add {A} (args_list : list (list A)) : list A :=
  match args_list with
  | [] => []
  | first :: rest => foldl (fun prev cur => prev ++ cur) first rest
  end.

(** [video is not None and video["codec"] == c] *)
Definition video_codec_is (video : option VideoUrlMeta) (c : string) : bool :=
  match video with
  | Some v => String.eqb (v_codec v) c
  | None => false
  end.

Definition audio_codec_is (audio : option AudioUrlMeta) (c : string) : bool :=
  match audio with
  | Some a => String.eqb (a_codec a) c
  | None => false
  end.

Section Downloader.

Variable ext : Collaborators.

(** ** [show_videos_info] and [show_audios_info]

    The lines the two functions hand to [Logger] are not part of the model;
    what is kept is how they end.  The line of a stream needs the description
    of its quality, [video_quality_map[video["quality"]]["description"]], so
    the loop raises [KeyError] at the first stream whose quality is not a key
    of the map; the other fields are only formatted.  [selected] chooses the
    line that is marked and coloured. *)

Definition show_videos_info (videos : list VideoUrlMeta) (selected : Z)
  : result unit :=
  if videos is [] then Ok tt
  else
    for_each_result videos (fun video =>
      match py_getitem (video_quality_map ext) (v_quality video) with
      | Ok description => Ok tt
      | Raise e => Raise e
      end).

Definition show_audios_info (audios : list AudioUrlMeta) (selected : Z)
  : result unit :=
  if audios is [] then Ok tt
  else
    for_each_result audios (fun audio =>
      match py_getitem (audio_quality_map ext) (a_quality audio) with
      | Ok description => Ok tt
      | Raise e => Raise e
      end).

(** ** [download_video_and_audio] *)

(** The body shared by the two [if ... is not None] blocks: open the buffer,
    ask for the size, plan the blocks from [written_size] on and build one
    coroutine per block.  The result is the buffer, the size and the
    coroutines. *)
Definition stream_coroutines (url : string) (mirrors : list string)
    (path : Path) (options : ref) : M (Path * option Z * list Task) :=
  ow ← getitem overwrite options;
  written_size ← AsyncFileBuffer path ow;
  emit (EvGetSize url);;
  size ← lift (get_size ext url);
  bs ← getitem block_size options;
  blocks ← lift (slice_blocks written_size size bs);
  ret (path, size,
       map (fun '(offset, block_size) =>
              download_file_with_offset url mirrors path offset block_size)
           blocks).

Definition download_video_and_audio
    (video : option VideoUrlMeta) (video_path : Path)
    (audio : option AudioUrlMeta) (audio_path : Path)
    (options : ref) : M unit :=
  nw ← getitem num_workers options;
  emit (EvSetSemaphore nw);;
  v ← match video with
       | Some video =>
         r ← stream_coroutines (v_url video) (v_mirrors video)
                video_path options;
         ret (Some r)
       | None => ret None
       end;
  a ← match audio with
       | Some audio =>
         r ← stream_coroutines (a_url audio) (a_mirrors audio)
                audio_path options;
         ret (Some r)
       | None => ret None
       end;
  let buffers : list (option Path) :=
    [fmap (fun r => fst (fst r)) v; fmap (fun r => fst (fst r)) a] in
  let sizes : list (option Z) :=
    [mbind (fun r => snd (fst r)) v; mbind (fun r => snd (fst r)) a] in
  let coroutines_list : list (list Task) :=
    filter_none_value [fmap snd v; fmap snd a] in
  let coroutines :=
    show_progress (filter_none_value buffers)
                  (py_sum (filter_none_value sizes))
    :: xmerge coroutines_list in
  emit (EvGather coroutines);;
  try_fs (gather ext coroutines);;
  for_each (filter_none_value buffers) (fun buffer => emit (EvCloseBuffer buffer)).

(** ** [merge_video_and_audio] *)

Definition merge_video_and_audio
    (video : option VideoUrlMeta) (video_path : Path)
    (audio : option AudioUrlMeta) (audio_path : Path)
    (output_path : Path) (options : ref) : M unit :=
  lift (FFmpeg ext);;
  vsc ← getitem video_save_codec options;
  let vtag : option string :=
    if String.eqb vsc "hevc"
       || (String.eqb vsc "copy" && video_codec_is video "hevc")
    then Some "hvc1" else None in
  vsc ← getitem video_save_codec options;
  when (video_codec_is video vsc)
       (setitem (set_video_save_codec "copy") options);;
  asc ← getitem audio_save_codec options;
  when (audio_codec_is audio asc)
       (setitem (set_audio_save_codec "copy") options);;
  vsc ← getitem video_save_codec options;
  asc ← getitem audio_save_codec options;
  let args_list : list (list string) :=
    [ if video is Some _ then ["-i"; video_path] else [];
      if audio is Some _ then ["-i"; audio_path] else [];
      if video is Some _ then ["-vcodec"; vsc] else [];
      if audio is Some _ then ["-acodec"; asc] else [];
      ["-strict"; "unofficial"];
      match vtag with Some t => ["-tag:v"; t] | None => [] end;
      ["-threads"; str_cpu_count (cpu_count ext)];
      ["-y"; output_path] ] in
  emit (EvFFmpegExec (reduce_add args_list));;
  try_fs (ffmpeg_exec ext (reduce_add args_list));;
  when (bool_decide (is_Some video)) (unlink video_path);;
  when (bool_decide (is_Some audio)) (unlink audio_path).

(** ** [start_downloader] *)

(** The three ways [start_downloader] returns: at the [return] under
    "output exists and no overwrite", at the [return] under "nothing to
    download", and at its end. *)
Inductive Outcome : Type := Skipped | NothingToDo | Done.

(** The local variables [video_path], [audio_path], [video], [audio],
    [will_download_video], [will_download_audio], [output_format] and
    [output_path] of [start_downloader], as functions of its arguments. *)
Definition video_path (episode_data : EpisodeData) : Path :=
  joinpath ext (tmp_dir episode_data) (filename episode_data +:+ "_video.m4s").

Definition audio_path (episode_data : EpisodeData) : Path :=
  joinpath ext (tmp_dir episode_data) (filename episode_data +:+ "_audio.m4s").

Definition selected_video (episode_data : EpisodeData)
    (o : DownloaderOptions) : option VideoUrlMeta :=
  select_video ext (videos episode_data) (video_quality o)
    (video_download_codec o).

Definition selected_audio (episode_data : EpisodeData)
    (o : DownloaderOptions) : option AudioUrlMeta :=
  select_audio ext (audios episode_data) (audio_quality o)
    (audio_download_codec o).

Definition will_download_video (episode_data : EpisodeData)
    (o : DownloaderOptions) : bool :=
  bool_decide (is_Some (selected_video episode_data o)) && require_video o.

Definition will_download_audio (episode_data : EpisodeData)
    (o : DownloaderOptions) : bool :=
  bool_decide (is_Some (selected_audio episode_data o)) && require_audio o.

Definition output_format_of (episode_data : EpisodeData)
    (o : DownloaderOptions) : string :=
  if negb (will_download_video episode_data o) then
    if negb (String.eqb (output_format_audio_only o) "infer") then
      "." +:+ output_format_audio_only o
    else if will_download_audio episode_data o
            && audio_codec_is (selected_audio episode_data o) "fLaC" then
      ".flac"
    else ".aac"
  else
    if negb (String.eqb (output_format o) "infer") then
      "." +:+ output_format o
    else if will_download_audio episode_data o
            && audio_codec_is (selected_audio episode_data o) "fLaC" then
      ".mkv"
    else ".mp4".

Definition output_path (episode_data : EpisodeData)
    (o : DownloaderOptions) : Path :=
  joinpath ext (output_dir episode_data)
    (filename episode_data +:+ output_format_of episode_data o).

(** [streams.index(stream) if will_download else -1], the second argument of
    the two listings; [None] is equal to no stream of a list. *)
Definition selected_index {A} `{EqDecision A} (streams : list A)
    (stream : option A) (will_download : bool) : result Z :=
  if will_download then
    match stream with
    | Some stream => py_index streams stream
    | None => Raise ValueError
    end
  else Ok (-1).

(** Nothing writes to the dictionary before the merge: [o] is the dictionary
    that every read of [options] above the existence check sees. *)
Definition start_downloader (episode_data : EpisodeData) (options : ref)
  : M Outcome :=
  o ← getitem id options;
  emit (EvMkdir (tmp_dir episode_data));;
  let video_path := video_path episode_data in
  let audio_path := audio_path episode_data in
  let video := selected_video episode_data o in
  let audio := selected_audio episode_data o in
  let will_download_video := will_download_video episode_data o in
  let will_download_audio := will_download_audio episode_data o in
  selected ← lift (selected_index (videos episode_data) video
                     will_download_video);
  lift (show_videos_info (videos episode_data) selected);;
  selected ← lift (selected_index (audios episode_data) audio
                     will_download_audio);
  lift (show_audios_info (audios episode_data) selected);;
  emit (EvMkdir (output_dir episode_data));;
  let output_path := output_path episode_data o in
  (* subtitles *)
  for_each (subtitles episode_data) (fun subtitle =>
    emit (EvWriteSubtitle (lines subtitle) output_path (lang subtitle));;
    update_fs (write_subtitle ext (lines subtitle) output_path (lang subtitle)));;
  (* danmaku *)
  when (negb (bool_decide (data (danmaku episode_data) = [])))
    (let height := if video is Some v then v_height v else 1080 in
     let width := if video is Some v then v_width v else 1920 in
     emit (EvWriteDanmaku (danmaku episode_data) output_path height width);;
     update_fs (write_danmaku ext (danmaku episode_data) output_path
                  height width));;
  (* metadata *)
  match metadata episode_data with
  | Some m =>
    emit (EvWriteMetadata m output_path);;
    update_fs (write_metadata ext m output_path)
  | None => ret tt
  end;;
  found ← path_exists output_path;
  skip ← (if found : bool then
            ow ← getitem overwrite options;
            if negb ow then ret true
            else (unlink output_path;; ret false)
          else ret false : M bool);
  if skip : bool then ret Skipped
  else if negb (will_download_audio || will_download_video) then
    ret NothingToDo
  else
    let video := if will_download_video then video else None in
    let audio := if will_download_audio then audio else None in
    download_video_and_audio video video_path audio audio_path options;;
    merge_video_and_audio video video_path audio audio_path output_path
      options;;
    ret Done.

End Downloader.

(** ** Reading a run *)

(** The events of a run from [w] to [w']. *)
Definition events_since (w w' : World) : list Event :=
  drop (length (trace w)) (trace w').

(** [emits P m]: whatever the world, [m] only adds events to the trace, and
    all the events it adds satisfy [P]. *)
Definition emits {A} (P : Event -> Prop) (m : M A) : Prop :=
  forall w : World,
    exists evs : list Event,
      trace (snd (m w)) = trace w ++ evs /\ Forall P evs.

(** The anatomy of a muxer command line, and the command line itself. *)
Record MuxerArgs : Type := {
  inputs : list string;
  video_directive : option string;
  audio_directive : option string;
  video_tag : option string;
  threads : string;
  output : string
}.

Definition render (a : MuxerArgs) : list string :=
  flat_map (fun input => ["-i"; input]) (inputs a)
  ++ (if video_directive a is Some c then ["-vcodec"; c] else [])
  ++ (if audio_directive a is Some c then ["-acodec"; c] else [])
  ++ ["-strict"; "unofficial"]
  ++ (if video_tag a is Some t then ["-tag:v"; t] else [])
  ++ ["-threads"; threads a]
  ++ ["-y"; output a].

(** The options dictionary once [merge_video_and_audio] has compared the
    codecs of the streams with the requested ones. *)
Definition after_codec_check (video : option VideoUrlMeta)
    (audio : option AudioUrlMeta) (o : DownloaderOptions)
  : DownloaderOptions :=
  let o1 := if video_codec_is video (video_save_codec o)
            then set_video_save_codec "copy" o else o in
  if audio_codec_is audio (audio_save_codec o1)
  then set_audio_save_codec "copy" o1 else o1.

(** The command line [merge_video_and_audio] builds from the dictionary [o]
    it is given. *)
Definition merge_args (ext : Collaborators)
    (video : option VideoUrlMeta) (video_path : Path)
    (audio : option AudioUrlMeta) (audio_path : Path)
    (output_path : Path) (o : DownloaderOptions) : MuxerArgs :=
  let o' := after_codec_check video audio o in
  {| inputs := (if video is Some _ then [video_path] else [])
               ++ (if audio is Some _ then [audio_path] else []);
     video_directive :=
       if video is Some _ then Some (video_save_codec o') else None;
     audio_directive :=
       if audio is Some _ then Some (audio_save_codec o') else None;
     video_tag :=
       if String.eqb (video_save_codec o) "hevc"
          || (String.eqb (video_save_codec o) "copy"
              && video_codec_is video "hevc")
       then Some "hvc1" else None;
     threads := str_cpu_count (cpu_count ext);
     output := output_path |}.

(** ** A sample environment

    Collaborators, streams and options to run the model on. *)
Definition sample_ext : Collaborators :=
  {| joinpath := fun d n => d +:+ "/" +:+ n;
     video_quality_map := {[ 80 := "1080P"; 64 := "720P" ]};
     audio_quality_map := {[ 30280 := "320kbps"; 30251 := "FLAC" ]};
     select_video := fun vs _ _ => head vs;
     select_audio := fun aus _ _ => head aus;
     write_subtitle := fun _ p lg fs => <[p +:+ "." +:+ lg +:+ ".srt" := 1]> fs;
     write_danmaku := fun _ p _ _ fs => <[p +:+ ".ass" := 1]> fs;
     write_metadata := fun _ p fs => <[p +:+ ".nfo" := 1]> fs;
     get_size := fun _ => Ok (Some 2500000);
     gather := fun _ fs => Ok fs;
     FFmpeg := Ok tt;
     ffmpeg_exec := fun args fs =>
       Ok (if last args is Some out then <[out := 1]> fs else fs);
     cpu_count := Some 8%nat |}.

Definition hevc_video : VideoUrlMeta :=
  {| v_url := "https://cdn/v-hevc"; v_mirrors := ["https://mirror/v-hevc"];
     v_codec := "hevc"; v_width := 1920; v_height := 1080; v_quality := 80 |}.

Definition avc_video : VideoUrlMeta :=
  {| v_url := "https://cdn/v-avc"; v_mirrors := [];
     v_codec := "avc"; v_width := 1280; v_height := 720; v_quality := 64 |}.

Definition mp4a_audio : AudioUrlMeta :=
  {| a_url := "https://cdn/a-mp4a"; a_mirrors := [];
     a_codec := "mp4a"; a_quality := 30280 |}.

Definition flac_audio : AudioUrlMeta :=
  {| a_url := "https://cdn/a-flac"; a_mirrors := [];
     a_codec := "fLaC"; a_quality := 30251 |}.

Definition sample_options : DownloaderOptions :=
  {| require_video := true;
     video_quality := 80;
     video_download_codec := "hevc";
     video_save_codec := "hevc";
     require_audio := true;
     audio_quality := 30280;
     audio_download_codec := "mp4a";
     audio_save_codec := "copy";
     output_format := "infer";
     output_format_audio_only := "infer";
     overwrite := false;
     block_size := Some 1000000;
     num_workers := 8 |}.

Definition overwriting_options : DownloaderOptions :=
  {| require_video := true;
     video_quality := 80;
     video_download_codec := "hevc";
     video_save_codec := "copy";
     require_audio := false;
     audio_quality := 30280;
     audio_download_codec := "mp4a";
     audio_save_codec := "copy";
     output_format := "infer";
     output_format_audio_only := "infer";
     overwrite := true;
     block_size := Some 2000000;
     num_workers := 4 |}.

Definition sample_episode (vs : list VideoUrlMeta) (aus : list AudioUrlMeta)
  : EpisodeData :=
  {| videos := vs;
     audios := aus;
     subtitles := [ {| lang := "zh"; lines := ["ni hao"] |} ];
     danmaku := {| data := ["<d/>"]; save_type := "ass" |};
     metadata := Some "<nfo/>";
     output_dir := "out";
     tmp_dir := "tmp";
     filename := "ep1" |}.

(** A world in which every reference holds a dictionary equal to [o], with
    the files [files] and an empty trace. *)
Definition sample_world (o : DownloaderOptions) (files : FS) : World :=
  {| heap := fun _ => o; fs := files; trace := [] |}.

(** The subtitle, danmaku and metadata writes of [start_downloader] for an
    episode, in program order, and the file system they leave. *)
Definition danmaku_height (video : option VideoUrlMeta) : Z :=
  if video is Some v then v_height v else 1080.

Definition danmaku_width (video : option VideoUrlMeta) : Z :=
  if video is Some v then v_width v else 1920.

Definition ancillary_events (ext : Collaborators) (episode_data : EpisodeData)
    (o : DownloaderOptions) : list Event :=
  let out := output_path ext episode_data o in
  let video := selected_video ext episode_data o in
  map (fun s => EvWriteSubtitle (lines s) out (lang s))
      (subtitles episode_data)
  ++ (if bool_decide (data (danmaku episode_data) = []) then []
      else [EvWriteDanmaku (danmaku episode_data) out
              (danmaku_height video) (danmaku_width video)])
  ++ (if metadata episode_data is Some m then [EvWriteMetadata m out]
      else []).

Definition fs_at_check (ext : Collaborators) (episode_data : EpisodeData)
    (o : DownloaderOptions) (f : FS) : FS :=
  let out := output_path ext episode_data o in
  let video := selected_video ext episode_data o in
  let f1 := foldl (fun f s => write_subtitle ext (lines s) out (lang s) f)
                  f (subtitles episode_data) in
  let f2 := if bool_decide (data (danmaku episode_data) = []) then f1
            else write_danmaku ext (danmaku episode_data) out
                   (danmaku_height video) (danmaku_width video) f1 in
  if metadata episode_data is Some m then write_metadata ext m out f2
  else f2.

(** The world in which [start_downloader] asks whether the output file
    exists, the answer included. *)
Definition world_at_check (ext : Collaborators) (episode_data : EpisodeData)
    (options : ref) (w : World) : World :=
  let o := heap w options in
  let out := output_path ext episode_data o in
  let f := fs_at_check ext episode_data o (fs w) in
  {| heap := heap w;
     fs := f;
     trace := trace w
              ++ [EvMkdir (tmp_dir episode_data);
                  EvMkdir (output_dir episode_data)]
              ++ ancillary_events ext episode_data o
              ++ [EvExists out (bool_decide (is_Some (f !! out)))] |}.

(** The two listings of [start_downloader], each with the index it is
    given: what they return, or the first exception raised. *)
Definition listing (ext : Collaborators) (episode_data : EpisodeData)
    (o : DownloaderOptions) : result unit :=
  match selected_index (videos episode_data)
          (selected_video ext episode_data o)
          (will_download_video ext episode_data o) with
  | Raise e => Raise e
  | Ok selected =>
    match show_videos_info ext (videos episode_data) selected with
    | Raise e => Raise e
    | Ok _ =>
      match selected_index (audios episode_data)
              (selected_audio ext episode_data o)
              (will_download_audio ext episode_data o) with
      | Raise e => Raise e
      | Ok selected => show_audios_info ext (audios episode_data) selected
      end
    end
  end.

(** [returns Q m]: every value [m] returns satisfies [Q]. *)
Definition returns {A} (Q : A -> Prop) (m : M A) : Prop :=
  forall (w : World) (a : A), fst (m w) = Ok a -> Q a.

(** The file a coroutine writes to is one of the two partial files. *)
Definition task_on (vp ap : Path) (t : Task) : Prop :=
  match t with
  | show_progress buffers _ => Forall (fun p => p = vp \/ p = ap) buffers
  | download_file_with_offset _ _ buffer _ _ => buffer = vp \/ buffer = ap
  end.

(** The coroutines of a stream write to its buffer. *)
Definition stream_on (path : Path) (r : Path * option Z * list Task) : Prop :=
  fst (fst r) = path
  /\ Forall (fun t => exists url mirrors offset size,
               t = download_file_with_offset url mirrors path offset size)
            (snd r).

Definition opt_stream_on (path : Path)
    (r : option (Path * option Z * list Task)) : Prop :=
  if r is Some r then stream_on path r else True.

(** What [download_video_and_audio] may do with the partial files [vp] and
    [ap], and [merge_video_and_audio] with them and the output file [out]. *)
Definition download_event (vp ap : Path) (e : Event) : Prop :=
  match e with
  | EvSetSemaphore _ | EvGetSize _ => True
  | EvOpenBuffer p _ | EvCloseBuffer p => p = vp \/ p = ap
  | EvGather coroutines => Forall (task_on vp ap) coroutines
  | _ => False
  end.

Definition merge_event (vp ap out : Path) (e : Event) : Prop :=
  match e with
  | EvFFmpegExec args => last args = Some out
  | EvUnlink p => p = vp \/ p = ap
  | _ => False
  end.

(** The files an episode job may touch: its two partial files [vp] and [ap]
    and its output file [out]. *)
Definition job_event (vp ap out : Path) (e : Event) : Prop :=
  match e with
  | EvOpenBuffer p _ | EvCloseBuffer p => p = vp \/ p = ap
  | EvGather coroutines => Forall (task_on vp ap) coroutines
  | EvUnlink p => p = out \/ p = vp \/ p = ap
  | EvExists p _ => p = out
  | EvWriteSubtitle _ p _ | EvWriteDanmaku _ p _ _ | EvWriteMetadata _ p =>
    p = out
  | EvFFmpegExec args => last args = Some out
  | EvMkdir _ | EvSetSemaphore _ | EvGetSize _ => True
  end.

(** ** More on plans *)

(** The number of bytes a plan asks for. *)
Definition planned_bytes (bs : list Block) : Z :=
  foldr (fun blk acc => default 0 (block_size_of blk) + acc) 0 bs.

(** ** A sample environment whose muxer fails *)

Definition failing_muxer_ext : Collaborators :=
  {| joinpath := joinpath sample_ext;
     video_quality_map := video_quality_map sample_ext;
     audio_quality_map := audio_quality_map sample_ext;
     select_video := select_video sample_ext;
     select_audio := select_audio sample_ext;
     write_subtitle := write_subtitle sample_ext;
     write_danmaku := write_danmaku sample_ext;
     write_metadata := write_metadata sample_ext;
     get_size := get_size sample_ext;
     gather := gather sample_ext;
     FFmpeg := FFmpeg sample_ext;
     ffmpeg_exec := fun _ _ => Raise (ExternalError "ffmpeg");
     cpu_count := cpu_count sample_ext |}.

(** The partial files of the streams that are present, in the order
    [merge_video_and_audio] removes them. *)
Definition present_paths (video : option VideoUrlMeta) (vp : Path)
    (audio : option AudioUrlMeta) (ap : Path) : list Path :=
  (if video is Some _ then [vp] else [])
  ++ (if audio is Some _ then [ap] else []).

(** [Path.unlink] on each path in turn, until one is missing: the result,
    the file system left and the calls made. *)
Fixpoint unlink_all (ps : list Path) (f : FS)
  : result unit * FS * list Event :=
  match ps with
  | [] => (Ok tt, f, [])
  | p :: rest =>
    match f !! p with
    | None => (Raise FileNotFoundError, f, [EvUnlink p])
    | Some _ =>
      let '(r, f', evs) := unlink_all rest (delete p f) in
      (r, f', EvUnlink p :: evs)
    end
  end.

(** The store once [merge_video_and_audio] has compared the codecs: the
    dictionary behind [options] is written to, once per matching stream. *)
Definition heap_after_codec_check (video : option VideoUrlMeta)
    (audio : option AudioUrlMeta) (options : ref)
    (h : ref -> DownloaderOptions) : ref -> DownloaderOptions :=
  let h1 := if video_codec_is video (video_save_codec (h options))
            then <[options := set_video_save_codec "copy" (h options)]> h
            else h in
  if audio_codec_is audio (audio_save_codec (h1 options))
  then <[options := set_audio_save_codec "copy" (h1 options)]> h1
  else h1.

(** ** Reading a download *)

(** What the planning of one stream gives from the options [o] and the file
    system [f]: [written_size] of the buffer, the size the server reports
    and the plan, turned into one coroutine per block. *)
Definition written_size (o : DownloaderOptions) (f : FS) (path : Path) : Z :=
  if overwrite o then 0 else default 0 (f !! path).

Definition stream_plan (ext : Collaborators) (url : string)
    (mirrors : list string) (path : Path) (o : DownloaderOptions) (f : FS)
  : result (Path * option Z * list Task) :=
  match get_size ext url with
  | Raise e => Raise e
  | Ok size =>
    match slice_blocks (written_size o f path) size (block_size o) with
    | Raise e => Raise e
    | Ok blocks =>
      Ok (path, size,
          map (fun '(offset, block_size) =>
                 download_file_with_offset url mirrors path offset block_size)
              blocks)
    end
  end.

(** The buffers a run opens and the buffers it closes, in order, and the
    byte ranges it asks for a file. *)
Definition opened_buffers (evs : list Event) : list Path :=
  omap (fun e => if e is EvOpenBuffer p _ then Some p else None) evs.

Definition closed_buffers (evs : list Event) : list Path :=
  omap (fun e => if e is EvCloseBuffer p then Some p else None) evs.

Definition range_for (path : Path) (t : Task) : option Block :=
  match t with
  | download_file_with_offset _ _ buffer offset size =>
    if String.eqb buffer path then Some (offset, size) else None
  | show_progress _ _ => None
  end.

Definition ranges_for (path : Path) (coroutines : list Task) : list Block :=
  omap (range_for path) coroutines.

(** The coroutines handed to [asyncio.gather] in a run, one list per call. *)
Definition gathered (evs : list Event) : list (list Task) :=
  omap (fun e => if e is EvGather cs then Some cs else None) evs.

(** The events on a buffer. *)
Definition is_buffer_event (e : Event) : bool :=
  match e with
  | EvOpenBuffer _ _ | EvCloseBuffer _ => true
  | _ => false
  end.

(** An episode with a video that is selected but not asked for. *)
Definition audio_only_options : DownloaderOptions :=
  {| require_video := false;
     video_quality := 80;
     video_download_codec := "hevc";
     video_save_codec := "copy";
     require_audio := true;
     audio_quality := 30280;
     audio_download_codec := "mp4a";
     audio_save_codec := "copy";
     output_format := "infer";
     output_format_audio_only := "infer";
     overwrite := false;
     block_size := Some 1000000;
     num_workers := 8 |}.

Definition nothing_required_options : DownloaderOptions :=
  {| require_video := false;
     video_quality := 80;
     video_download_codec := "hevc";
     video_save_codec := "copy";
     require_audio := false;
     audio_quality := 30280;
     audio_download_codec := "mp4a";
     audio_save_codec := "copy";
     output_format := "infer";
     output_format_audio_only := "infer";
     overwrite := false;
     block_size := Some 1000000;
     num_workers := 8 |}.

(** * The extractor of [yutto/extractor/user_all_ugc_videos.py]

    A Python [str] is a sequence of code points; the space URL is matched
    character by character, so URLs are lists of code points here.  In a
    [str] pattern [\d] stands for any Unicode decimal digit: which code
    points these are is the table [is_decimal], a parameter. *)

Definition ustr : Type := list N.

(** An ASCII literal of the source as code points. *)
Definition literal (s : string) : ustr :=
  map Ascii.N_of_ascii (String.list_ascii_of_string s).

(** What [REGEX_SPACE.match(url)] returns when it matches: the named group
    [mid], the second group ([None] when it took no part in the match) and
    the whole match. *)
Record MatchObject : Type := {
  group_mid : ustr;
  group_video : option ustr;
  group_0 : ustr
}.

(** [s] without the prefix [p], when it has it. *)
Fixpoint strip_prefix (p s : ustr) : option ustr :=
  match p, s with
  | [], _ => Some s
  | _ :: _, [] => None
  | a :: p', b :: s' => if N.eqb a b then strip_prefix p' s' else None
  end.

(** The longest prefix of decimal digits of [s], and what follows it. *)
Fixpoint span_decimal (is_decimal : N -> bool) (s : ustr) : ustr * ustr :=
  match s with
  | [] => ([], [])
  | c :: s' =>
    if is_decimal c then
      let '(ds, rest) := span_decimal is_decimal s' in (c :: ds, rest)
    else ([], s)
  end.

(** An optional literal [p?]: the literal when the string goes on with it
    and nothing otherwise, with what follows. *)
Definition optional_literal (p s : ustr) : ustr * ustr :=
  match strip_prefix p s with
  | Some r => (p, r)
  | None => ([], s)
  end.

(** [re.compile(r"https?://space\.bilibili\.com/(?P<mid>\d+)(/video)?").match]:
    the pattern is tried at the start of the string only; [s?], [\d+] and
    [(/video)?] are greedy, and no shorter choice can make the rest of the
    pattern succeed where the greedy one fails. *)
Definition REGEX_SPACE_match (is_decimal : N -> bool) (url : ustr)
  : option MatchObject :=
  match strip_prefix (literal "http") url with
  | None => None
  | Some after_http =>
    let '(s, after_s) := optional_literal (literal "s") after_http in
    match strip_prefix (literal "://space.bilibili.com/") after_s with
    | None => None
    | Some after_host =>
      let '(digits, after_digits) := span_decimal is_decimal after_host in
      match digits with
      | [] => None
      | _ :: _ =>
        let video :=
          if strip_prefix (literal "/video") after_digits is Some _
          then Some (literal "/video") else None in
        Some {| group_mid := digits;
                group_video := video;
                group_0 := literal "http" ++ s
                           ++ literal "://space.bilibili.com/" ++ digits
                           ++ default [] video |}
      end
    end
  end.

(** [UserAllUgcVideosExtractor]: the attribute [mid] is there once a URL has
    matched. *)
Record UserAllUgcVideosExtractor : Type := {
  mid : option ustr
}.

(** [self.match(url)]: the answer and the extractor afterwards. *)
Definition extractor_match (is_decimal : N -> bool)
    (self : UserAllUgcVideosExtractor) (url : ustr)
  : bool * UserAllUgcVideosExtractor :=
  match REGEX_SPACE_match is_decimal url with
  | Some match_obj => (true, {| mid := Some (group_mid match_obj) |})
  | None => (false, self)
  end.

(** The decimal digits of ASCII, for the examples. *)
Definition ascii_decimal (c : N) : bool := (48 <=? c)%N && (c <=? 57)%N.

(** ** [extract]

    The calls to the remote service ([yutto.api.space],
    [yutto.api.ugc_video], [Fetcher.touch_url]) either return or raise; the
    extractor tells [NotFoundError] from every other exception. *)

Inductive ApiExc : Type :=
  | NotFoundError (message : string)
  | AttributeError
  | ApiError (what : string).

Inductive api (A : Type) : Type :=
  | Got (a : A)
  | Failed (e : ApiExc).
Arguments Got {A} a.
Arguments Failed {A} e.

Definition AvId : Type := string.

Record UgcVideoListItem : Type := {
  item_id : Z;
  item_name : string;
  item_avid : AvId;
  item_cid : string
}.

Record UgcVideoList : Type := {
  title : string;
  pubdate : string;
  pages : list UgcVideoListItem
}.

Record SpaceApi : Type := {
  get_user_name : ustr -> api string;
  get_user_space_all_videos_avids : ustr -> api (list AvId);
  get_ugc_video_list : AvId -> api UgcVideoList;
  to_url : AvId -> string;
  touch_url : string -> api unit
}.

(** The requests and the log lines of [extract], in order. *)
Inductive ExtractEvent : Type :=
  | EvGetUserName (m : ustr)
  | EvLogBadge (username : string)
  | EvGetAvids (m : ustr)
  | EvGetVideoList (avid : AvId)
  | EvTouchUrl (url : string)
  | EvLogError (message : string).

(** One call [extract_ugc_video_data(session, avid, ugc_video_item, args,
    {title, username, pubdate}, template)] of the returned list; [session]
    and [args] are those [extract] was given. *)
Record UgcVideoJob : Type := {
  job_avid : AvId;
  job_item : UgcVideoListItem;
  job_title : string;
  job_username : string;
  job_pubdate : string;
  job_template : string
}.

Definition space_template : string :=
  "{username}的全部投稿视频/{title}/{name}".

(** The [for avid in ...] loop: [acc] is [ugc_video_info_list] so far. *)
Fixpoint collect_videos (service : SpaceApi) (avids : list AvId)
    (acc : list (UgcVideoListItem * string * string))
  : api (list (UgcVideoListItem * string * string)) * list ExtractEvent :=
  match avids with
  | [] => (Got acc, [])
  | avid :: rest =>
    match get_ugc_video_list service avid with
    | Failed (NotFoundError message) =>
      let '(r, evs) := collect_videos service rest acc in
      (r, EvGetVideoList avid :: EvLogError message :: evs)
    | Failed e => (Failed e, [EvGetVideoList avid])
    | Got ugc_video_list =>
      match touch_url service (to_url service avid) with
      | Failed (NotFoundError message) =>
        let '(r, evs) := collect_videos service rest acc in
        (r, EvGetVideoList avid :: EvTouchUrl (to_url service avid)
            :: EvLogError message :: evs)
      | Failed e =>
        (Failed e, [EvGetVideoList avid; EvTouchUrl (to_url service avid)])
      | Got _ =>
        let '(r, evs) :=
          collect_videos service rest
            (acc ++ map (fun ugc_video_item =>
                           (ugc_video_item, title ugc_video_list,
                            pubdate ugc_video_list))
                        (pages ugc_video_list)) in
        (r, EvGetVideoList avid :: EvTouchUrl (to_url service avid) :: evs)
      end
    end
  end.

Definition extract (service : SpaceApi) (self : UserAllUgcVideosExtractor)
  : api (list UgcVideoJob) * list ExtractEvent :=
  match mid self with
  | None => (Failed AttributeError, [])
  | Some m =>
    match get_user_name service m with
    | Failed e => (Failed e, [EvGetUserName m])
    | Got username =>
      match get_user_space_all_videos_avids service m with
      | Failed e =>
        (Failed e, [EvGetUserName m; EvLogBadge username; EvGetAvids m])
      | Got avids =>
        let '(r, evs) := collect_videos service avids [] in
        (match r with
         | Failed e => Failed e
         | Got ugc_video_info_list =>
           Got (map (fun '(ugc_video_item, title, pubdate) =>
                       {| job_avid := item_avid ugc_video_item;
                          job_item := ugc_video_item;
                          job_title := title;
                          job_username := username;
                          job_pubdate := pubdate;
                          job_template := space_template |})
                    ugc_video_info_list)
         end,
         [EvGetUserName m; EvLogBadge username; EvGetAvids m] ++ evs)
      end
    end
  end.

(** A call that returns or raises [NotFoundError]. *)
Definition benign {A} (r : api A) : Prop :=
  match r with
  | Got _ | Failed (NotFoundError _) => True
  | Failed _ => False
  end.

(** The jobs one video gives: one per page when its list is found and its
    page can be touched, none otherwise. *)
Definition jobs_of_video (service : SpaceApi) (username : string)
    (avid : AvId) : list UgcVideoJob :=
  match get_ugc_video_list service avid,
        touch_url service (to_url service avid) with
  | Got l, Got _ =>
    map (fun ugc_video_item =>
           {| job_avid := item_avid ugc_video_item;
              job_item := ugc_video_item;
              job_title := title l;
              job_username := username;
              job_pubdate := pubdate l;
              job_template := space_template |})
        (pages l)
  | _, _ => []
  end.

(** The requests for the lists of videos in a run. *)
Definition listed (evs : list ExtractEvent) : list AvId :=
  omap (fun e => if e is EvGetVideoList avid then Some avid else None) evs.

(** A sample service: a user with three videos, the second of which is
    gone. *)
Definition sample_service : SpaceApi :=
  {| get_user_name := fun _ => Got "up";
     get_user_space_all_videos_avids := fun _ => Got ["BV1"; "BV2"; "BV3"];
     get_ugc_video_list := fun avid =>
       if String.eqb avid "BV2" then Failed (NotFoundError "gone")
       else Got {| title := "t-" +:+ avid; pubdate := "2021-01-01";
                   pages := [ {| item_id := 1; item_name := "p1";
                                 item_avid := avid; item_cid := "c1" |};
                              {| item_id := 2; item_name := "p2";
                                 item_avid := avid; item_cid := "c2" |} ] |};
     to_url := fun avid => "https://www.bilibili.com/video/" +:+ avid;
     touch_url := fun _ => Got tt |}.

Definition broken_service : SpaceApi :=
  {| get_user_name := get_user_name sample_service;
     get_user_space_all_videos_avids :=
       get_user_space_all_videos_avids sample_service;
     get_ugc_video_list := fun avid =>
       if String.eqb avid "BV2" then Failed (ApiError "HTTP 412")
       else get_ugc_video_list sample_service avid;
     to_url := to_url sample_service;
     touch_url := touch_url sample_service |}.
(** ** Sample environments for the listings and the muxer *)

(** A video of a quality the sample quality map does not know. *)
Definition unlisted_video : VideoUrlMeta :=
  {| v_url := "https://cdn/v-8k"; v_mirrors := [];
     v_codec := "hevc"; v_width := 7680; v_height := 4320; v_quality := 127 |}.

(** The sample environment on a machine without the muxer: [FFmpeg()]
    raises. *)
Definition no_muxer_ext : Collaborators :=
  {| joinpath := joinpath sample_ext;
     video_quality_map := video_quality_map sample_ext;
     audio_quality_map := audio_quality_map sample_ext;
     select_video := select_video sample_ext;
     select_audio := select_audio sample_ext;
     write_subtitle := write_subtitle sample_ext;
     write_danmaku := write_danmaku sample_ext;
     write_metadata := write_metadata sample_ext;
     get_size := get_size sample_ext;
     gather := gather sample_ext;
     FFmpeg := Raise (ExternalError "FFmpegNotFoundError");
     ffmpeg_exec := ffmpeg_exec sample_ext;
     cpu_count := cpu_count sample_ext |}.

(** A service that does not find the user. *)
Definition no_user_service : SpaceApi :=
  {| get_user_name := fun _ => Failed (NotFoundError "no such user");
     get_user_space_all_videos_avids :=
       get_user_space_all_videos_avids sample_service;
     get_ugc_video_list := get_ugc_video_list sample_service;
     to_url := to_url sample_service;
     touch_url := touch_url sample_service |}.

(** * Properties *)

(** Unfolds the steps of a computation. *)
Ltac run_m :=
  cbv [mbind M_bind bind mret M_ret ret getitem when setitem emit try_fs
       unlink remove_file lift update_fs path_exists raise].

(** ** The block planner *)

Section Planner.

Local Open Scope Z_scope.

Lemma range_length_exact (r T b : Z) :
  r <= T -> 0 < b -> (T - r) mod b = 0 ->
  Z.to_nat (range_length r T b) = Z.to_nat ((T - r) / b).
Proof.
  intros HrT Hb Hm. unfold range_length.
  destruct (Z.ltb_spec 0 b) as [_|]; [|lia].
  destruct (Z.ltb_spec r T) as [Hlt|Hge].
  - f_equal.
    pose proof (Z.div_mod (T - r) b ltac:(lia)) as Hdm.
    rewrite Hm in Hdm.
    set (q := (T - r) / b) in *.
    assert (Hq : 0 < q) by nia.
    replace (T - 1 - r) with ((q - 1) * b + (b - 1)) by lia.
    rewrite Z.div_add_l by lia.
    rewrite Z.div_small by lia. lia.
  - replace (T - r) with 0 by lia. reflexivity.
Qed.

Lemma range_length_ragged (r T b : Z) :
  r <= T -> 0 < b -> (T - r) mod b <> 0 ->
  Z.to_nat (range_length r T b) = S (Z.to_nat ((T - r) / b)).
Proof.
  intros HrT Hb Hm. unfold range_length.
  destruct (Z.ltb_spec 0 b) as [_|]; [|lia].
  destruct (Z.ltb_spec r T) as [Hlt|Hge].
  - pose proof (Z.div_mod (T - r) b ltac:(lia)) as Hdm.
    pose proof (Z.mod_pos_bound (T - r) b Hb) as Hbd.
    assert (Hq : 0 <= (T - r) / b) by (apply Z.div_pos; lia).
    set (q := (T - r) / b) in *. set (m := (T - r) mod b) in *.
    replace (T - 1 - r) with (q * b + (m - 1)) by lia.
    rewrite Z.div_add_l by lia.
    rewrite Z.div_small by lia. lia.
  - exfalso. apply Hm. replace (T - r) with 0 by lia. reflexivity.
Qed.

Lemma chain_uniform (r b : Z) (n k : nat) :
  0 < b ->
  chain (r + Z.of_nat k * b) (uniform r b k n) (r + Z.of_nat (k + n) * b).
Proof.
  intros Hb. revert k. induction n as [|n IH]; intros k; simpl.
  - f_equal. f_equal. lia.
  - split; [reflexivity|]. split; [assumption|].
    replace (r + Z.of_nat k * b + b) with (r + Z.of_nat (S k) * b) by lia.
    replace (k + S n)%nat with (S k + n)%nat by lia.
    apply IH.
Qed.

Lemma chain_app (r m T : Z) (l1 l2 : list Block) :
  chain r l1 m -> chain m l2 T -> chain r (l1 ++ l2) T.
Proof.
  revert r. induction l1 as [|[s [n|]] l1 IH]; intros r; simpl.
  - intros ->. trivial.
  - intros (-> & Hn & Hc) H2. eauto.
  - intros [].
Qed.

Lemma chain_le (r T : Z) (bs : list Block) : chain r bs T -> r <= T.
Proof.
  revert r. induction bs as [|[s [n|]] bs IH]; intros r; simpl.
  - lia.
  - intros (_ & Hn & Hc). apply IH in Hc. lia.
  - intros [].
Qed.

Lemma chain_within (r T : Z) (bs : list Block) (blk : Block) (x : Z) :
  chain r bs T -> blk ∈ bs -> in_block x blk -> r <= x < T.
Proof.
  revert r. induction bs as [|[s [n|]] bs IH]; intros r; simpl.
  - intros _ Hin. inversion Hin.
  - intros (-> & Hn & Hc) Hin Hx.
    pose proof (chain_le _ _ _ Hc).
    apply elem_of_cons in Hin as [-> | Hin].
    + simpl in Hx. lia.
    + specialize (IH _ Hc Hin Hx). lia.
  - intros [].
Qed.

Lemma chain_covers (r T : Z) (bs : list Block) :
  chain r bs T -> covers bs r T.
Proof.
  intros Hc x. split.
  - intros (blk & Hin & Hx). eapply chain_within; eauto.
  - revert r Hc. induction bs as [|[s [n|]] bs IH]; intros r; simpl.
    + lia.
    + intros (-> & Hn & Hc) Hx.
      destruct (Z.lt_ge_cases x (r + n)) as [Hlt|Hge].
      * exists (r, Some n). split; [left|simpl; lia].
      * destruct (IH _ Hc ltac:(lia)) as (blk & Hin & Hb).
        exists blk. split; [right|]; assumption.
    + intros [].
Qed.

Lemma chain_non_overlapping (r T : Z) (bs : list Block) :
  chain r bs T -> non_overlapping bs.
Proof.
  revert r. induction bs as [|[s [n|]] bs IH]; intros r; simpl.
  - intros _ i j bi bj x Hi. inversion Hi.
  - intros (-> & Hn & Hc) i j bi bj x Hi Hj Hij Hxi Hxj.
    destruct i as [|i], j as [|j]; simpl in Hi, Hj.
    + congruence.
    + inversion Hi; subst bi. simpl in Hxi.
      apply list_elem_of_lookup_2 in Hj.
      pose proof (chain_within _ _ _ _ _ Hc Hj Hxj). lia.
    + inversion Hj; subst bj. simpl in Hxj.
      apply list_elem_of_lookup_2 in Hi.
      pose proof (chain_within _ _ _ _ _ Hc Hi Hxi). lia.
    + apply (IH _ Hc i j bi bj x); auto.
  - intros [].
Qed.

Lemma setitem_last_snoc {A} (l : list A) (x v : A) :
  setitem_last (l ++ [x]) v = Ok (l ++ [v]).
Proof.
  unfold setitem_last. destruct (l ++ [x]) eqn:E.
  - destruct l; discriminate.
  - rewrite <- E. f_equal. rewrite length_app. simpl.
    replace (Nat.pred (length l + 1)) with (length l + 0)%nat by lia.
    rewrite insert_app_r. reflexivity.
Qed.

Lemma uniform_snoc (r b : Z) (k n : nat) :
  uniform r b k (S n) =
  uniform r b k n ++ [(r + Z.of_nat (k + n) * b, Some b)].
Proof.
  unfold uniform. rewrite seq_S, !map_app. reflexivity.
Qed.


Lemma uniform_size (r b : Z) (k n : nat) (blk : Block) :
  blk ∈ uniform r b k n -> block_size_of blk = Some b.
Proof.
  unfold uniform. intros Hin.
  apply list_elem_of_fmap in Hin as (i & -> & _). reflexivity.
Qed.

Lemma last_elem_of {A} (l : list A) (x : A) : last l = Some x -> x ∈ l.
Proof.
  intros H. destruct l as [|y l'] using rev_ind; [discriminate|].
  rewrite last_snoc in H. inversion H; subst.
  apply elem_of_app. right. left.
Qed.

(** C1: for [0 <= r <= T] and [b > 0], [slice_blocks r T b] returns blocks
    that are in order, contiguous and non-overlapping, whose union is exactly
    the byte range [r, T), and whose last block has size [(T - r) mod b] when
    that is not zero and [b] otherwise; when [r = T] the list is empty. *)
Theorem slice_blocks_partitions_remaining (r T b : Z) :
  0 <= r <= T -> 0 < b ->
  exists bs : list Block,
    slice_blocks r (Some T) (Some b) = Ok bs
    /\ chain r bs T
    /\ non_overlapping bs
    /\ covers bs r T
    /\ (forall blk, last bs = Some blk ->
          block_size_of blk = Some (expected_last_size r T b))
    /\ (r = T -> bs = []).
Proof.
  intros [Hr HrT] Hb.
  pose proof (Z.div_mod (T - r) b ltac:(lia)) as Hdm.
  pose proof (Z.mod_pos_bound (T - r) b Hb) as Hbd.
  assert (Hq : 0 <= (T - r) / b) by (apply Z.div_pos; lia).
  unfold slice_blocks, py_range, expected_last_size.
  destruct (Z.leb_spec r T) as [_|]; [simpl|lia].
  destruct (Z.eqb_spec b 0) as [|_]; [lia|].
  fold (uniform r b 0 (Z.to_nat (range_length r T b))).
  destruct (Z.eqb_spec ((T - r) mod b) 0) as [Hm|Hm]; simpl.
  - rewrite range_length_exact by assumption.
    set (q := Z.to_nat ((T - r) / b)).
    assert (Hc : chain r (uniform r b 0 q) T).
    { pose proof (chain_uniform r b q 0 Hb) as Hc.
      replace (r + Z.of_nat 0 * b) with r in Hc by lia.
      replace (r + Z.of_nat (0 + q) * b) with T in Hc by (unfold q; lia).
      exact Hc. }
    exists (uniform r b 0 q). split; [reflexivity|].
    split; [exact Hc|].
    split; [eapply chain_non_overlapping; exact Hc|].
    split; [apply chain_covers; exact Hc|].
    split.
    + intros blk Hl. eapply uniform_size, last_elem_of, Hl.
    + intros ->. unfold q. replace (T - T) with 0 by lia. reflexivity.
  - rewrite range_length_ragged by assumption.
    set (q := Z.to_nat ((T - r) / b)).
    rewrite uniform_snoc, setitem_last_snoc.
    set (tl := (r + (T - r) / b * b,
                Some (T - r - (T - r) / b * b)) : Block).
    assert (Hc : chain r (uniform r b 0 q ++ [tl]) T).
    { apply chain_app with (m := r + Z.of_nat (0 + q) * b).
      - pose proof (chain_uniform r b q 0 Hb) as Hc.
        replace (r + Z.of_nat 0 * b) with r in Hc by lia.
        exact Hc.
      - unfold tl, q. simpl. repeat split; lia. }
    exists (uniform r b 0 q ++ [tl]). split; [reflexivity|].
    split; [exact Hc|].
    split; [eapply chain_non_overlapping; exact Hc|].
    split; [apply chain_covers; exact Hc|].
    split.
    + intros blk Hl. rewrite last_snoc in Hl. inversion Hl; subst blk.
      unfold tl, block_size_of. simpl. f_equal. lia.
    + intros ->. exfalso. apply Hm. replace (T - T) with 0 by lia.
      reflexivity.
Qed.

(** The end-to-end scenario of the specification: 2,500,000 bytes in blocks
    of 1,000,000 from offset 0. *)
Example slice_blocks_scenario :
  slice_blocks 0 (Some 2500000) (Some 1000000)
  = Ok [(0, Some 1000000); (1000000, Some 1000000); (2000000, Some 500000)].
Proof. reflexivity. Qed.

Lemma slice_blocks_partitions_remaining_witness :
  exists bs : list Block,
    slice_blocks 300 (Some 1000) (Some 256) = Ok bs
    /\ chain 300 bs 1000
    /\ non_overlapping bs
    /\ covers bs 300 1000
    /\ (forall blk, last bs = Some blk ->
          block_size_of blk = Some (expected_last_size 300 1000 256))
    /\ (300 = 1000 -> bs = []).
Proof. apply (slice_blocks_partitions_remaining 300 1000 256); lia. Defined.

(** C4 (as the code has it): with a known total size [T < r],
    [slice_blocks] raises [AssertionError] for every integer block size [b],
    zero and negative ones included: no plan is returned and nothing is
    clamped.  Without a block size the resume offset is not looked at, and
    the call returns. *)
Theorem slice_blocks_rejects_resume_past_end (r T : Z) :
  T < r ->
  (forall b : Z, slice_blocks r (Some T) (Some b) = Raise AssertionError)
  /\ is_ok (slice_blocks r (Some T) None) = true.
Proof.
  intros H. split; [|reflexivity].
  intros b. unfold slice_blocks.
  destruct (Z.leb_spec r T); [lia|reflexivity].
Qed.

Lemma slice_blocks_rejects_resume_past_end_witness :
  slice_blocks 5 (Some 3) (Some 2) = Raise AssertionError.
Proof.
  apply (proj1 (slice_blocks_rejects_resume_past_end 5 3 ltac:(lia))).
Defined.

(** C4 as stated fails when the block size is [None]: the call returns a
    plan although the resume offset exceeds the total size. *)
Lemma slice_blocks_no_block_size_skips_assertion :
  slice_blocks 5 (Some 3) None = Ok [(0, Some 2)]
  /\ ~ (forall (r T : Z) (b : option Z),
          T < r -> is_ok (slice_blocks r (Some T) b) = false).
Proof.
  split; [reflexivity|].
  intros H. specialize (H 5 3 None ltac:(lia)). discriminate H.
Qed.

(** With an unknown total size the plan is one unbounded block from 0. *)
Lemma slice_blocks_unknown_size (r : Z) (b : option Z) :
  slice_blocks r None b = Ok [(0, None)].
Proof. reflexivity. Qed.

(** Without a block size the plan does not depend on the resume offset. *)
Lemma slice_blocks_without_block_size (r T : Z) :
  slice_blocks r (Some T) None = Ok [(0, Some (T - 1))].
Proof. reflexivity. Qed.

(** C5: at [slice_blocks(0, 10, None)] the code returns the single block
    [(0, 9)], that is 9 bytes from offset 0: byte 9, the last of the 10, is
    in no block, so the plan does not cover the file. *)
Theorem slice_blocks_no_block_size_drops_last_byte :
  slice_blocks 0 (Some 10) None = Ok [(0, Some 9)]
  /\ ~ in_block 9 (0, Some 9)
  /\ ~ covers [(0, Some 9)] 0 10
  /\ covers [(0, Some 9)] 0 9.
Proof.
  split; [reflexivity|].
  split; [simpl; lia|].
  split.
  - intros H. destruct (proj2 (H 9) ltac:(lia)) as (blk & Hin & Hx).
    apply list_elem_of_singleton in Hin. subst blk. simpl in Hx. lia.
  - apply chain_covers. simpl. lia.
Qed.

End Planner.

(** ** Traces only grow *)

Section Emits.

Context {P : Event -> Prop}.

Lemma emits_ret {A} (a : A) : emits P (ret a).
Proof. intros w. exists []. simpl. rewrite app_nil_r. auto. Qed.

Lemma emits_bind {A B} (m : M A) (k : A -> M B) :
  emits P m -> (forall a, emits P (k a)) -> emits P (m ≫= k).
Proof.
  intros Hm Hk w. unfold mbind, M_bind, bind.
  destruct (Hm w) as (evs1 & Ht1 & HP1).
  destruct (m w) as [[a|e] w1]; simpl in Ht1.
  - destruct (Hk a w1) as (evs2 & Ht2 & HP2).
    exists (evs1 ++ evs2). rewrite Ht2, Ht1, app_assoc.
    split; [reflexivity|]. apply Forall_app; auto.
  - exists evs1. auto.
Qed.

Lemma emits_emit (e : Event) : P e -> emits P (emit e).
Proof. intros He w. exists [e]. simpl. auto. Qed.

Lemma emits_silent {A} (m : M A) :
  (forall w, trace (snd (m w)) = trace w) -> emits P m.
Proof.
  intros H w. exists []. rewrite H, app_nil_r. auto.
Qed.

Lemma emits_getitem {A} (key : DownloaderOptions -> A) (options : ref) :
  emits P (getitem key options).
Proof. apply emits_silent. reflexivity. Qed.

Lemma emits_setitem (set : DownloaderOptions -> DownloaderOptions)
    (options : ref) :
  emits P (setitem set options).
Proof. apply emits_silent. reflexivity. Qed.

Lemma emits_update_fs (f : FS -> FS) : emits P (update_fs f).
Proof. apply emits_silent. reflexivity. Qed.

Lemma emits_try_fs (f : FS -> result FS) : emits P (try_fs f).
Proof.
  apply emits_silent. intros w. unfold try_fs.
  destruct (f (fs w)); reflexivity.
Qed.

Lemma emits_lift {A} (r : result A) : emits P (lift r).
Proof. apply emits_silent. reflexivity. Qed.

Lemma emits_remove_file (p : Path) : emits P (remove_file p).
Proof.
  apply emits_silent. intros w. unfold remove_file.
  destruct (fs w !! p); reflexivity.
Qed.

Lemma emits_open_file (p : Path) (ow : bool) : emits P (open_file p ow).
Proof. apply emits_silent. reflexivity. Qed.

Lemma emits_path_exists (p : Path) :
  (forall answer, P (EvExists p answer)) -> emits P (path_exists p).
Proof. intros H w. eexists [_]. simpl. auto. Qed.

Lemma emits_unlink (p : Path) : P (EvUnlink p) -> emits P (unlink p).
Proof.
  intros H. apply emits_bind; [apply emits_emit, H|].
  intros _. apply emits_remove_file.
Qed.

Lemma emits_AsyncFileBuffer (p : Path) (ow : bool) :
  P (EvOpenBuffer p ow) -> emits P (AsyncFileBuffer p ow).
Proof.
  intros H. apply emits_bind; [apply emits_emit, H|].
  intros _. apply emits_open_file.
Qed.

Lemma emits_when (b : bool) (m : M unit) :
  (b = true -> emits P m) -> emits P (when b m).
Proof. destruct b; simpl; auto using emits_ret. Qed.

Lemma emits_for_each {A} (l : list A) (body : A -> M unit) :
  (forall x, x ∈ l -> emits P (body x)) -> emits P (for_each l body).
Proof.
  induction l as [|x l IH]; intros H; simpl.
  - apply emits_ret.
  - apply emits_bind.
    + apply H. left.
    + intros _. apply IH. intros y Hy. apply H. right. exact Hy.
Qed.

End Emits.

Lemma emits_weaken {A} (P Q : Event -> Prop) (m : M A) :
  (forall e, P e -> Q e) -> emits P m -> emits Q m.
Proof.
  intros HPQ Hm w. destruct (Hm w) as (evs & Ht & HP).
  exists evs. split; [exact Ht|]. eapply Forall_impl; eauto.
Qed.

Lemma emits_events_since {A} (P : Event -> Prop) (m : M A) (w : World) :
  emits P m ->
  trace (snd (m w)) = trace w ++ events_since w (snd (m w))
  /\ Forall P (events_since w (snd (m w))).
Proof.
  intros Hm. destruct (Hm w) as (evs & Ht & HP).
  unfold events_since. rewrite Ht, drop_app_length. auto.
Qed.

Lemma events_since_app (w w' : World) (evs : list Event) :
  trace w' = trace w ++ evs -> events_since w w' = evs.
Proof. intros H. unfold events_since. rewrite H. apply drop_app_length. Qed.

Lemma filter_none_of (f : Event -> bool) (l : list Event) :
  Forall (fun e => f e = false) l -> List.filter f l = [].
Proof.
  induction 1 as [|e l He _ IH]; simpl; [reflexivity|].
  rewrite He. exact IH.
Qed.

Create HintDb emits.
#[export] Hint Resolve emits_ret emits_emit emits_getitem emits_setitem
  emits_update_fs emits_try_fs emits_lift emits_remove_file emits_open_file
  emits_path_exists emits_unlink emits_AsyncFileBuffer : emits.

(** Splits a computation built with [;;] into its steps. *)
Ltac emits_steps :=
  repeat first
    [ apply emits_bind; [|intros ?]
    | apply emits_when; intros ?
    | apply emits_for_each; intros ? ?
    | match goal with
      | |- emits _ (mret _) => apply emits_ret
      | |- emits _ (match ?x with _ => _ end) => destruct x eqn:?
      end ];
  auto with emits.

(** ** The merge engine *)

Section Merge.

Variable ext : Collaborators.

Lemma video_save_codec_after (video : option VideoUrlMeta)
    (audio : option AudioUrlMeta) (o : DownloaderOptions) :
  video_save_codec (after_codec_check video audio o)
  = if video_codec_is video (video_save_codec o) then "copy"
    else video_save_codec o.
Proof.
  unfold after_codec_check.
  destruct (video_codec_is video _); simpl;
  destruct (audio_codec_is audio _); reflexivity.
Qed.

Lemma audio_save_codec_after (video : option VideoUrlMeta)
    (audio : option AudioUrlMeta) (o : DownloaderOptions) :
  audio_save_codec (after_codec_check video audio o)
  = if audio_codec_is audio (audio_save_codec o) then "copy"
    else audio_save_codec o.
Proof.
  unfold after_codec_check.
  destruct (video_codec_is video _); simpl;
  destruct (audio_codec_is audio _); reflexivity.
Qed.

(** When [FFmpeg()] raises, so does [merge_video_and_audio], before it has
    done anything. *)
Lemma merge_video_and_audio_no_muxer
    (video : option VideoUrlMeta) (video_path : Path)
    (audio : option AudioUrlMeta) (audio_path : Path)
    (output_path : Path) (options : ref) (w : World) (e : PyExc) :
  FFmpeg ext = Raise e ->
  merge_video_and_audio ext video video_path audio audio_path output_path
    options w
  = (Raise e, w).
Proof.
  intros HFF. unfold merge_video_and_audio.
  unfold mbind at 1. unfold M_bind, bind, lift. rewrite HFF. reflexivity.
Qed.

(** A merge that returns has been given a muxer. *)
Lemma merge_video_and_audio_returns_muxer
    (video : option VideoUrlMeta) (video_path : Path)
    (audio : option AudioUrlMeta) (audio_path : Path)
    (output_path : Path) (options : ref) (w : World) :
  fst (merge_video_and_audio ext video video_path audio audio_path
         output_path options w) = Ok tt ->
  FFmpeg ext = Ok tt.
Proof.
  destruct (FFmpeg ext) as [[]|e] eqn:HFF; [reflexivity|].
  rewrite (merge_video_and_audio_no_muxer _ _ _ _ _ _ _ e HFF).
  discriminate.
Qed.

(** One run of [merge_video_and_audio] with a muxer: the muxer is started
    first, with the command line of [merge_args]; nothing that follows
    starts it again; the dictionary behind [options] is the one left by the
    codec check, and the other dictionaries are untouched. *)
Lemma merge_video_and_audio_run
    (video : option VideoUrlMeta) (video_path : Path)
    (audio : option AudioUrlMeta) (audio_path : Path)
    (output_path : Path) (options : ref) (w : World) :
  FFmpeg ext = Ok tt ->
  exists (post : list Event),
    let w' := snd (merge_video_and_audio ext video video_path audio
                     audio_path output_path options w) in
    trace w' =
      trace w
      ++ EvFFmpegExec (render (merge_args ext video video_path audio
                                 audio_path output_path (heap w options)))
      :: post
    /\ Forall (fun e => is_muxer e = false) post
    /\ heap w' options = after_codec_check video audio (heap w options)
    /\ (forall r, r <> options -> heap w' r = heap w r).
Proof.
  intros HFF. destruct w as [h f t].
  unfold merge_video_and_audio, merge_args, after_codec_check, render.
  rewrite HFF. run_m. simpl.
  destruct (video_codec_is video (video_save_codec (h options))) eqn:Ev;
  simpl; rewrite ?fn_lookup_insert;
  (destruct (audio_codec_is audio _) eqn:Ea);
  simpl; rewrite ?fn_lookup_insert;
  (destruct (ffmpeg_exec ext _ f) as [f'|e]);
  destruct video as [v|], audio as [a|]; simpl;
  repeat (case_match; simplify_eq/=);
  (eexists; split;
   [rewrite <- ?app_assoc; simpl; reflexivity
   |split; [repeat constructor
           |split; [rewrite ?fn_lookup_insert; reflexivity
                   |intros r Hr; rewrite ?fn_lookup_insert_ne by congruence;
                    reflexivity]]]).
Qed.


(** C8: every merge that is given the muxer ([FFmpeg()] returns) starts it
    exactly once, and the command line is, in this order: [-i] and the path
    of each present stream (video before audio), [-vcodec] and [-acodec]
    with the directive of each present stream, [-strict unofficial], the
    video tag if there is one, [-threads] with the processor count, and [-y]
    followed by the output path. *)
Theorem muxer_invoked_once_with_ordered_args
    (video : option VideoUrlMeta) (video_path : Path)
    (audio : option AudioUrlMeta) (audio_path : Path)
    (output_path : Path) (options : ref) (w : World) :
  FFmpeg ext = Ok tt ->
  exists (vcodec acodec : string) (vtag : option string),
    List.filter is_muxer
      (events_since w
         (snd (merge_video_and_audio ext video video_path audio audio_path
                 output_path options w)))
    = [EvFFmpegExec
         ((if video is Some _ then ["-i"; video_path] else [])
          ++ (if audio is Some _ then ["-i"; audio_path] else [])
          ++ (if video is Some _ then ["-vcodec"; vcodec] else [])
          ++ (if audio is Some _ then ["-acodec"; acodec] else [])
          ++ ["-strict"; "unofficial"]
          ++ (if vtag is Some t then ["-tag:v"; t] else [])
          ++ ["-threads"; str_cpu_count (cpu_count ext)]
          ++ ["-y"; output_path])].
Proof.
  intros HFF.
  destruct (merge_video_and_audio_run video video_path audio audio_path
              output_path options w HFF) as (post & Ht & Hpost & _).
  simpl in Ht. apply events_since_app in Ht. rewrite Ht.
  set (a := merge_args ext video video_path audio audio_path output_path
              (heap w options)).
  exists (video_save_codec (after_codec_check video audio (heap w options))),
         (audio_save_codec (after_codec_check video audio (heap w options))),
         (video_tag a).
  simpl. rewrite (filter_none_of _ _ Hpost). f_equal. f_equal.
  unfold render, a, merge_args. simpl.
  destruct video, audio; reflexivity.
Qed.

(** C6: for each present stream, the directive on the command line a merge
    builds for the muxer [FFmpeg()] returned is [copy] when the codec of the
    stream equals the requested save codec, and the requested save codec
    itself when they differ. *)
Theorem same_codec_is_copied_else_passed_through
    (video : option VideoUrlMeta) (video_path : Path)
    (audio : option AudioUrlMeta) (audio_path : Path)
    (output_path : Path) (options : ref) (w : World) :
  FFmpeg ext = Ok tt ->
  exists (args : MuxerArgs) (post : list Event),
    trace (snd (merge_video_and_audio ext video video_path audio audio_path
                  output_path options w))
    = trace w ++ EvFFmpegExec (render args) :: post
    /\ (forall v, video = Some v ->
          video_directive args =
            Some (if String.eqb (v_codec v) (video_save_codec (heap w options))
                  then "copy" else video_save_codec (heap w options)))
    /\ (forall a, audio = Some a ->
          audio_directive args =
            Some (if String.eqb (a_codec a) (audio_save_codec (heap w options))
                  then "copy" else audio_save_codec (heap w options))).
Proof.
  intros HFF.
  destruct (merge_video_and_audio_run video video_path audio audio_path
              output_path options w HFF) as (post & Ht & _).
  eexists _, post. split; [exact Ht|].
  unfold merge_args; simpl.
  rewrite video_save_codec_after, audio_save_codec_after.
  split; [intros v ->|intros a ->]; reflexivity.
Qed.

(** C2 (as the code has it): when the requested video save codec is [hevc],
    the command line a merge builds for the muxer [FFmpeg()] returned carries
    the tag [-tag:v hvc1] whatever the codec of the source; the directive is
    [copy] for an [hevc] source and stays [hevc], a transcode, for any other
    source, [avc] included. *)
Theorem hevc_request_is_tagged
    (v : VideoUrlMeta) (video_path : Path)
    (audio : option AudioUrlMeta) (audio_path : Path)
    (output_path : Path) (options : ref) (w : World) :
  FFmpeg ext = Ok tt ->
  video_save_codec (heap w options) = "hevc" ->
  exists (args : MuxerArgs) (post : list Event),
    trace (snd (merge_video_and_audio ext (Some v) video_path audio
                  audio_path output_path options w))
    = trace w ++ EvFFmpegExec (render args) :: post
    /\ video_tag args = Some "hvc1"
    /\ (v_codec v = "hevc" -> video_directive args = Some "copy")
    /\ (v_codec v <> "hevc" -> video_directive args = Some "hevc")
    /\ (v_codec v = "avc" -> video_directive args = Some "hevc").
Proof.
  intros HFF Hreq.
  destruct (merge_video_and_audio_run (Some v) video_path audio audio_path
              output_path options w HFF) as (post & Ht & _).
  eexists _, post. split; [exact Ht|].
  unfold merge_args; simpl.
  rewrite video_save_codec_after, Hreq. simpl.
  split; [reflexivity|].
  destruct (String.eqb_spec (v_codec v) "hevc") as [Heq|Hne].
  - repeat split; intros H; congruence.
  - repeat split; intros H; congruence.
Qed.

(** C9: the dictionary behind [options] is written in place by every merge
    that is given the muxer ([FFmpeg()] returns), whether the muxer then
    succeeds or not.  After the merge, [video_save_codec] (resp.
    [audio_save_codec]) of the caller's dictionary is [copy] whenever the
    stream's codec was the requested one, and nothing else changed; a later
    merge through the same reference then uses the directive [copy] for its
    own stream, whatever its codec. *)
Theorem merge_rewrites_callers_options
    (video : option VideoUrlMeta) (video_path : Path)
    (audio : option AudioUrlMeta) (audio_path : Path)
    (output_path : Path) (options : ref) (w : World) :
  let w' := snd (merge_video_and_audio ext video video_path audio audio_path
                   output_path options w) in
  FFmpeg ext = Ok tt ->
  (video_codec_is video (video_save_codec (heap w options)) = true ->
     video_save_codec (heap w' options) = "copy"
     /\ forall (w1 : World) (v2 : VideoUrlMeta) (vp2 : Path)
          (audio2 : option AudioUrlMeta) (ap2 out2 : Path),
          heap w1 options = heap w' options ->
          exists args post,
            trace (snd (merge_video_and_audio ext (Some v2) vp2 audio2 ap2
                          out2 options w1))
            = trace w1 ++ EvFFmpegExec (render args) :: post
            /\ video_directive args = Some "copy")
  /\ (audio_codec_is audio (audio_save_codec (heap w options)) = true ->
     audio_save_codec (heap w' options) = "copy"
     /\ forall (w1 : World) (video2 : option VideoUrlMeta) (vp2 : Path)
          (a2 : AudioUrlMeta) (ap2 out2 : Path),
          heap w1 options = heap w' options ->
          exists args post,
            trace (snd (merge_video_and_audio ext video2 vp2 (Some a2) ap2
                          out2 options w1))
            = trace w1 ++ EvFFmpegExec (render args) :: post
            /\ audio_directive args = Some "copy")
  /\ heap w' options = after_codec_check video audio (heap w options)
  /\ (forall r, r <> options -> heap w' r = heap w r).
Proof.
  intros w' HFF.
  destruct (merge_video_and_audio_run video video_path audio audio_path
              output_path options w HFF) as (post & _ & _ & Hh & Hframe).
  fold w' in Hh, Hframe.
  split; [|split; [|split; assumption]].
  - intros Hc.
    assert (Hv : video_save_codec (heap w' options) = "copy")
      by (rewrite Hh, video_save_codec_after, Hc; reflexivity).
    split; [exact Hv|].
    intros w1 v2 vp2 audio2 ap2 out2 Hw1.
    destruct (merge_video_and_audio_run (Some v2) vp2 audio2 ap2 out2
                options w1 HFF) as (post2 & Ht2 & _).
    eexists _, post2. split; [exact Ht2|].
    unfold merge_args; simpl.
    rewrite video_save_codec_after, Hw1, Hv.
    destruct (video_codec_is (Some v2) "copy"); reflexivity.
  - intros Hc.
    assert (Ha : audio_save_codec (heap w' options) = "copy")
      by (rewrite Hh, audio_save_codec_after, Hc; reflexivity).
    split; [exact Ha|].
    intros w1 video2 vp2 a2 ap2 out2 Hw1.
    destruct (merge_video_and_audio_run video2 vp2 (Some a2) ap2 out2
                options w1 HFF) as (post2 & Ht2 & _).
    eexists _, post2. split; [exact Ht2|].
    unfold merge_args; simpl.
    rewrite audio_save_codec_after, Hw1, Ha.
    destruct (audio_codec_is (Some a2) "copy"); reflexivity.
Qed.

End Merge.

(** ** What the download and the merge touch *)

Section Touches.

Variable ext : Collaborators.

Lemma emits_bind_returns {A B} (P : Event -> Prop) (Q : A -> Prop)
    (m : M A) (k : A -> M B) :
  emits P m -> returns Q m -> (forall a, Q a -> emits P (k a)) ->
  emits P (m ≫= k).
Proof.
  intros Hm HQ Hk w. unfold mbind, M_bind, bind.
  destruct (Hm w) as (evs1 & Ht1 & HP1).
  specialize (HQ w).
  destruct (m w) as [[a|e] w1]; simpl in Ht1, HQ.
  - destruct (Hk a (HQ a eq_refl) w1) as (evs2 & Ht2 & HP2).
    exists (evs1 ++ evs2). rewrite Ht2, Ht1, app_assoc.
    split; [reflexivity|]. apply Forall_app; auto.
  - exists evs1. auto.
Qed.

Lemma returns_bind {A B} (Q : B -> Prop) (m : M A) (k : A -> M B) :
  (forall a, returns Q (k a)) -> returns Q (m ≫= k).
Proof.
  intros Hk w b. unfold mbind, M_bind, bind.
  destruct (m w) as [[a|e] w1]; simpl.
  - apply Hk.
  - discriminate.
Qed.

Lemma returns_ret {A} (Q : A -> Prop) (a : A) : Q a -> returns Q (ret a).
Proof. intros H w b [= <-]. exact H. Qed.

Lemma elem_of_xmerge_rounds {A} (n : nat) (ls : list (list A)) (x : A) :
  x ∈ xmerge_rounds n ls -> exists l, l ∈ ls /\ x ∈ l.
Proof.
  revert ls. induction n as [|n IH]; intros ls; simpl.
  - intros H. inversion H.
  - intros H. apply elem_of_app in H as [H|H].
    + apply list_elem_of_omap in H as (l & Hl & Hh).
      exists l. split; [exact Hl|].
      destruct l as [|y l]; simpl in Hh; [discriminate|].
      inversion Hh; subst. left.
    + apply IH in H as (l' & Hl' & Hx).
      apply list_elem_of_fmap in Hl' as (l & -> & Hl).
      exists l. split; [exact Hl|].
      destruct l as [|y l]; simpl in Hx; [inversion Hx|]. right. exact Hx.
Qed.

Lemma elem_of_xmerge {A} (ls : list (list A)) (x : A) :
  x ∈ xmerge ls -> exists l, l ∈ ls /\ x ∈ l.
Proof. apply elem_of_xmerge_rounds. Qed.

Lemma returns_stream_coroutines (url : string) (mirrors : list string)
    (path : Path) (options : ref) :
  returns (stream_on path) (stream_coroutines ext url mirrors path options).
Proof.
  unfold stream_coroutines.
  repeat (apply returns_bind; intros ?).
  apply returns_ret. split; [reflexivity|]. simpl.
  apply Forall_forall. intros t Ht.
  apply list_elem_of_fmap in Ht as ([offset size] & -> & _). eauto.
Qed.

Lemma emits_stream_coroutines (P : Event -> Prop) (url : string)
    (mirrors : list string) (path : Path) (options : ref) :
  (forall ow, P (EvOpenBuffer path ow)) -> P (EvGetSize url) ->
  emits P (stream_coroutines ext url mirrors path options).
Proof.
  intros Ho Hg. unfold stream_coroutines. emits_steps.
Qed.


Lemma buffers_on (vp ap : Path) (v a : option (Path * option Z * list Task)) :
  opt_stream_on vp v -> opt_stream_on ap a ->
  Forall (fun p => p = vp \/ p = ap)
    (filter_none_value [fmap (fun r => fst (fst r)) v;
                        fmap (fun r => fst (fst r)) a]).
Proof.
  intros Hv Ha.
  unfold filter_none_value.
  destruct v as [rv|], a as [ra|]; simpl in *;
  repeat (apply Forall_cons; split); try apply Forall_nil.
  all: first [exact I | left; apply Hv | right; apply Ha].
Qed.

Lemma coroutines_on (vp ap : Path)
    (v a : option (Path * option Z * list Task)) :
  opt_stream_on vp v -> opt_stream_on ap a ->
  Forall (task_on vp ap) (xmerge (filter_none_value [fmap snd v; fmap snd a])).
Proof.
  intros Hv Ha. apply Forall_forall. intros t Ht.
  apply elem_of_xmerge in Ht as (l & Hl & Ht).
  apply list_elem_of_omap in Hl as (ol & Hol & Hid).
  unfold id in Hid. subst ol.
  apply elem_of_cons in Hol as [Hol|Hol].
  - destruct v as [rv|]; [|discriminate]. simpl in Hol, Hv.
    inversion Hol; subst l. destruct Hv as [_ Hv].
    rewrite Forall_forall in Hv.
    destruct (Hv t Ht) as (url & mirrors & offset & size & ->).
    simpl. left. reflexivity.
  - apply list_elem_of_singleton in Hol.
    destruct a as [ra|]; [|discriminate]. simpl in Hol, Ha.
    inversion Hol; subst l. destruct Ha as [_ Ha].
    rewrite Forall_forall in Ha.
    destruct (Ha t Ht) as (url & mirrors & offset & size & ->).
    simpl. right. reflexivity.
Qed.

Lemma bind_getitem_run {A B} (key : DownloaderOptions -> A) (options : ref)
    (k : A -> M B) (w : World) :
  (getitem key options ≫= k) w = k (key (heap w options)) w.
Proof. reflexivity. Qed.

Lemma bind_emit_run {B} (e : Event) (k : unit -> M B) (w : World) :
  (emit e ≫= k) w
  = k tt {| heap := heap w; fs := fs w; trace := trace w ++ [e] |}.
Proof. reflexivity. Qed.

(** [download_video_and_audio] first sets the limiter, then opens, fills and
    closes the two partial files, and does nothing else. *)
Lemma download_video_and_audio_run
    (video : option VideoUrlMeta) (vp : Path)
    (audio : option AudioUrlMeta) (ap : Path) (options : ref) (w : World) :
  exists post : list Event,
    trace (snd (download_video_and_audio ext video vp audio ap options w))
    = trace w ++ EvSetSemaphore (num_workers (heap w options)) :: post
    /\ Forall (download_event vp ap) post.
Proof.
  unfold download_video_and_audio.
  rewrite bind_getitem_run, bind_emit_run.
  match goal with
  | |- context [snd (?m ?w2)] =>
    assert (H : emits (download_event vp ap) m); [|destruct (H w2) as (evs & Ht & HP)]
  end.
  2: { exists evs. rewrite Ht. simpl. rewrite <- app_assoc. auto. }
  apply emits_bind_returns with (Q := opt_stream_on vp).
  { destruct video as [v|]; [|apply emits_ret].
    apply emits_bind; [|intros r; apply emits_ret].
    apply emits_stream_coroutines; simpl; auto. }
  { destruct video as [v|].
    - intros w0 r. unfold mbind, M_bind, bind.
      pose proof (returns_stream_coroutines (v_url v) (v_mirrors v) vp
                    options w0) as Hr.
      destruct (stream_coroutines _ _ _ _ _ w0) as [[r0|e] w1]; simpl;
      [|discriminate].
      intros [= <-]. simpl. apply Hr. reflexivity.
    - intros w0 r [= <-]. exact I. }
  intros v Hv.
  apply emits_bind_returns with (Q := opt_stream_on ap).
  { destruct audio as [a|]; [|apply emits_ret].
    apply emits_bind; [|intros r; apply emits_ret].
    apply emits_stream_coroutines; simpl; auto. }
  { destruct audio as [a|].
    - intros w0 r. unfold mbind, M_bind, bind.
      pose proof (returns_stream_coroutines (a_url a) (a_mirrors a) ap
                    options w0) as Hr.
      destruct (stream_coroutines _ _ _ _ _ w0) as [[r0|e] w1]; simpl;
      [|discriminate].
      intros [= <-]. simpl. apply Hr. reflexivity.
    - intros w0 r [= <-]. exact I. }
  intros a Ha.
  pose proof (buffers_on vp ap v a Hv Ha) as Hb.
  apply emits_bind.
  { apply emits_emit. simpl. constructor.
    - simpl. exact Hb.
    - apply coroutines_on; assumption. }
  intros _. apply emits_bind; [auto with emits|intros _].
  apply emits_for_each. intros p Hp. apply emits_emit. simpl.
  rewrite Forall_forall in Hb. apply Hb, Hp.
Qed.

Lemma emits_download_video_and_audio
    (video : option VideoUrlMeta) (vp : Path)
    (audio : option AudioUrlMeta) (ap : Path) (options : ref) :
  emits (download_event vp ap)
    (download_video_and_audio ext video vp audio ap options).
Proof.
  intros w.
  destruct (download_video_and_audio_run video vp audio ap options w)
    as (post & Ht & HP).
  eexists. split; [exact Ht|]. constructor; [exact I|exact HP].
Qed.

Lemma last_reduce_add_args (a b c d e f g : list string) (out : string) :
  last (reduce_add [a; b; c; d; e; f; g; ["-y"; out]]) = Some out.
Proof.
  simpl. rewrite last_app. reflexivity.
Qed.

(** [merge_video_and_audio] runs the muxer towards the output file and
    removes the two partial files, and nothing else. *)
Lemma emits_merge_video_and_audio
    (video : option VideoUrlMeta) (vp : Path)
    (audio : option AudioUrlMeta) (ap out : Path) (options : ref) :
  emits (merge_event vp ap out)
    (merge_video_and_audio ext video vp audio ap out options).
Proof.
  unfold merge_video_and_audio.
  emits_steps;
  apply emits_emit; simpl; first [apply last_reduce_add_args | auto].
Qed.

End Touches.

(** ** The orchestrator *)

Section Orchestrator.

Variable ext : Collaborators.

Lemma for_each_run {A} (body : A -> M unit) (g : A -> FS -> FS)
    (ev : A -> Event) (l : list A) (w : World) :
  (forall x w, body x w = (Ok tt, {| heap := heap w; fs := g x (fs w);
                                    trace := trace w ++ [ev x] |})) ->
  for_each l body w
  = (Ok tt, {| heap := heap w; fs := foldl (fun f x => g x f) (fs w) l;
               trace := trace w ++ map ev l |}).
Proof.
  intros Hbody. revert w. induction l as [|x l IH]; intros [h f t]; simpl.
  - rewrite app_nil_r. reflexivity.
  - unfold mbind, M_bind, bind. rewrite Hbody, IH. simpl.
    rewrite <- app_assoc. reflexivity.
Qed.

(** When one of the two listings raises, [start_downloader] raises there:
    it has created the temporary directory and done nothing else. *)
Lemma start_downloader_unlisted (episode_data : EpisodeData) (options : ref)
    (w : World) (e : PyExc) :
  listing ext episode_data (heap w options) = Raise e ->
  start_downloader ext episode_data options w
  = (Raise e, {| heap := heap w; fs := fs w;
                 trace := trace w ++ [EvMkdir (tmp_dir episode_data)] |}).
Proof.
  destruct w as [h f t]. cbn [heap fs trace]. unfold listing. intros Hl.
  unfold start_downloader. rewrite bind_getitem_run, bind_emit_run.
  cbn [heap fs trace]. unfold id.
  unfold mbind at 1. unfold M_bind, bind, lift.
  destruct (selected_index (videos episode_data) _ _) as [sv|e1];
    [|congruence].
  unfold mbind at 1. unfold M_bind, bind.
  destruct (show_videos_info ext _ sv) as [[]|e2]; [|congruence].
  unfold mbind at 1. unfold M_bind, bind.
  destruct (selected_index (audios episode_data) _ _) as [sa|e3];
    [|congruence].
  unfold mbind at 1. unfold M_bind, bind.
  rewrite Hl. reflexivity.
Qed.

(** A run of [start_downloader] that returns has got past the listings. *)
Lemma start_downloader_returns_listed (episode_data : EpisodeData)
    (options : ref) (w : World) (outcome : Outcome) :
  fst (start_downloader ext episode_data options w) = Ok outcome ->
  listing ext episode_data (heap w options) = Ok tt.
Proof.
  destruct (listing ext episode_data (heap w options)) as [[]|e] eqn:Hl;
    [reflexivity|].
  rewrite (start_downloader_unlisted _ _ _ e Hl). discriminate.
Qed.

(** [start_downloader] as straight-line code from the existence check on,
    when the listings return. *)
Lemma start_downloader_run (episode_data : EpisodeData) (options : ref)
    (w : World) :
  let o := heap w options in
  let out := output_path ext episode_data o in
  let w0 := world_at_check ext episode_data options w in
  let found := bool_decide (is_Some (fs w0 !! out)) in
  let wdv := will_download_video ext episode_data o in
  let wda := will_download_audio ext episode_data o in
  listing ext episode_data o = Ok tt ->
  start_downloader ext episode_data options w =
    if found && negb (overwrite o) then (Ok Skipped, w0)
    else
      let w1 := if found then {| heap := heap w0; fs := delete out (fs w0);
                                 trace := trace w0 ++ [EvUnlink out] |}
                else w0 in
      if negb (wda || wdv) then (Ok NothingToDo, w1)
      else
        (download_video_and_audio ext
           (if wdv then selected_video ext episode_data o else None)
           (video_path ext episode_data)
           (if wda then selected_audio ext episode_data o else None)
           (audio_path ext episode_data) options;;
         merge_video_and_audio ext
           (if wdv then selected_video ext episode_data o else None)
           (video_path ext episode_data)
           (if wda then selected_audio ext episode_data o else None)
           (audio_path ext episode_data) out options;;
         ret Done) w1.
Proof.
  destruct w as [h f t]. simpl. unfold listing. intros Hl.
  destruct (selected_index (videos episode_data) _ _) as [sv|] eqn:Hsv;
    [|discriminate].
  destruct (show_videos_info ext _ sv) as [[]|] eqn:Hshow; [|discriminate].
  destruct (selected_index (audios episode_data) _ _) as [sa|] eqn:Hsa;
    [|discriminate].
  unfold start_downloader, world_at_check, fs_at_check, ancillary_events,
    danmaku_height, danmaku_width.
  run_m. simpl. rewrite Hsv, Hshow, Hsa, Hl.
  rewrite (for_each_run _
             (fun s => write_subtitle ext (lines s)
                         (output_path ext episode_data (h options)) (lang s))
             (fun s => EvWriteSubtitle (lines s)
                         (output_path ext episode_data (h options)) (lang s)))
    by reflexivity.
  simpl.
  destruct (bool_decide (data (danmaku episode_data) = []));
  destruct (metadata episode_data) as [m|]; simpl;
  (match goal with
   | |- context [bool_decide (is_Some (?x !! ?k))] =>
     destruct (x !! k) eqn:Hlk
   end);
  simpl; rewrite ?Hlk;
  destruct (overwrite (h options)); simpl; rewrite ?Hlk;
  destruct (negb (will_download_audio ext episode_data (h options)
                  || will_download_video ext episode_data (h options)));
  simpl; rewrite <- ?app_assoc; simpl; rewrite <- ?app_assoc; simpl;
  reflexivity.
Qed.


Lemma download_then_merge_run
    (video : option VideoUrlMeta) (vp : Path)
    (audio : option AudioUrlMeta) (ap out : Path) (options : ref)
    (w : World) :
  let run := (download_video_and_audio ext video vp audio ap options;;
              merge_video_and_audio ext video vp audio ap out options;;
              ret Done) w in
  exists post : list Event,
    trace (snd run)
    = trace w ++ EvSetSemaphore (num_workers (heap w options)) :: post
    /\ Forall (fun e => download_event vp ap e \/ merge_event vp ap out e) post
    /\ (fst run = Ok Done \/ exists e, fst run = Raise e).
Proof.
  simpl. unfold mbind, M_bind, bind.
  destruct (download_video_and_audio_run ext video vp audio ap options w)
    as (post1 & Ht1 & HP1).
  destruct (download_video_and_audio ext video vp audio ap options w)
    as [[[]|e] w2]; simpl in *.
  - destruct (emits_merge_video_and_audio ext video vp audio ap out options w2)
      as (evs2 & Ht2 & HP2).
    destruct (merge_video_and_audio ext video vp audio ap out options w2)
      as [[[]|e] w3]; simpl in *.
    + exists (post1 ++ evs2). rewrite Ht2, Ht1, <- app_assoc. simpl.
      split; [reflexivity|]. split; [|left; reflexivity].
      apply Forall_app. split; eapply Forall_impl; eauto; simpl; auto.
    + exists (post1 ++ evs2). rewrite Ht2, Ht1, <- app_assoc. simpl.
      split; [reflexivity|]. split; [|right; eauto].
      apply Forall_app. split; eapply Forall_impl; eauto; simpl; auto.
  - exists post1. split; [exact Ht1|]. split; [|right; eauto].
    eapply Forall_impl; eauto; simpl; auto.
Qed.

(** The events of the whole of [start_downloader], by outcome, when the
    listings return. *)
Lemma start_downloader_anatomy (episode_data : EpisodeData) (options : ref)
    (w : World) :
  let o := heap w options in
  let out := output_path ext episode_data o in
  let vp := video_path ext episode_data in
  let ap := audio_path ext episode_data in
  let found :=
    bool_decide (is_Some (fs_at_check ext episode_data o (fs w) !! out)) in
  let wd := will_download_audio ext episode_data o
            || will_download_video ext episode_data o in
  let run := start_downloader ext episode_data options w in
  let pre := [EvMkdir (tmp_dir episode_data);
              EvMkdir (output_dir episode_data)]
             ++ ancillary_events ext episode_data o
             ++ [EvExists out found] in
  let del := if found then [EvUnlink out] else [] in
  listing ext episode_data o = Ok tt ->
  (found = true /\ overwrite o = false
   /\ fst run = Ok Skipped /\ events_since w (snd run) = pre)
  \/ (found && negb (overwrite o) = false /\ wd = false
      /\ fst run = Ok NothingToDo /\ events_since w (snd run) = pre ++ del)
  \/ (found && negb (overwrite o) = false /\ wd = true
      /\ (fst run = Ok Done \/ exists e, fst run = Raise e)
      /\ exists post,
           events_since w (snd run)
           = pre ++ del ++ EvSetSemaphore (num_workers o) :: post
           /\ Forall (fun e => download_event vp ap e
                               \/ merge_event vp ap out e) post).
Proof.
  intros o out vp ap found wd run pre del Hl.
  set (w0 := world_at_check ext episode_data options w).
  set (video := if will_download_video ext episode_data o
                then selected_video ext episode_data o else None).
  set (audio := if will_download_audio ext episode_data o
                then selected_audio ext episode_data o else None).
  set (w1 := if found
             then {| heap := heap w0; fs := delete out (fs w0);
                     trace := trace w0 ++ [EvUnlink out] |}
             else w0).
  assert (Hrun : run =
            if found && negb (overwrite o) then (Ok Skipped, w0)
            else if negb wd then (Ok NothingToDo, w1)
            else (download_video_and_audio ext video vp audio ap options;;
                  merge_video_and_audio ext video vp audio ap out options;;
                  ret Done) w1)
    by exact (start_downloader_run episode_data options w Hl).
  assert (Htr : trace w0 = trace w ++ pre) by reflexivity.
  assert (Htr1 : trace w1 = trace w ++ pre ++ del).
  { unfold w1, del. destruct found; cbn [trace]; rewrite Htr.
    - rewrite <- app_assoc. reflexivity.
    - rewrite app_nil_r. reflexivity. }
  assert (Hh1 : heap w1 = heap w) by (unfold w1; destruct found; reflexivity).
  destruct (found && negb (overwrite o)) eqn:Hskip.
  - left. apply andb_true_iff in Hskip as [Hf Ho].
    apply negb_true_iff in Ho. rewrite Hrun.
    repeat split; auto. apply events_since_app, Htr.
  - right. destruct wd eqn:Hwd; cbn [negb] in Hrun.
    + right. split; [reflexivity|]. split; [reflexivity|].
      destruct (download_then_merge_run video vp audio ap out options w1)
        as (post & Ht & HP & Hres).
      cbv zeta in Ht, Hres. rewrite <- Hrun in Ht, Hres.
      split; [exact Hres|]. exists post. split; [|exact HP].
      apply events_since_app. rewrite Ht, Htr1, Hh1, <- !app_assoc.
      reflexivity.
    + left. rewrite Hrun.
      repeat split; auto. apply events_since_app, Htr1.
Qed.


(** Writers that leave a file alone leave it as it was found. *)
Lemma fs_at_check_preserves (episode_data : EpisodeData)
    (o : DownloaderOptions) (f : FS) (p : Path) :
  (forall ls q lg f', write_subtitle ext ls q lg f' !! p = f' !! p) ->
  (forall d q h wd f', write_danmaku ext d q h wd f' !! p = f' !! p) ->
  (forall m q f', write_metadata ext m q f' !! p = f' !! p) ->
  fs_at_check ext episode_data o f !! p = f !! p.
Proof.
  intros Hs Hd Hm. unfold fs_at_check.
  assert (Hfold : forall l f0,
    foldl (fun f s => write_subtitle ext (lines s)
                        (output_path ext episode_data o) (lang s) f) f0 l
    !! p = f0 !! p).
  { induction l as [|s l IH]; intros f0; simpl; [reflexivity|].
    rewrite IH. apply Hs. }
  destruct (metadata episode_data); rewrite ?Hm;
  destruct (bool_decide _); rewrite ?Hd; apply Hfold.
Qed.

Lemma ancillary_events_kind (episode_data : EpisodeData)
    (o : DownloaderOptions) (vp ap : Path) :
  Forall (fun e => is_ancillary e = true
                   /\ is_network e = false /\ is_muxer e = false
                   /\ job_event vp ap (output_path ext episode_data o) e)
    (ancillary_events ext episode_data o).
Proof.
  unfold ancillary_events. repeat apply Forall_app_2.
  - apply Forall_forall. intros e He.
    apply list_elem_of_fmap in He as (s & -> & _). simpl. auto.
  - destruct (bool_decide _); repeat constructor.
  - destruct (metadata episode_data); repeat constructor.
Qed.

Lemma download_or_merge_event_kind (vp ap out : Path) (e : Event) :
  download_event vp ap e \/ merge_event vp ap out e ->
  is_ancillary e = false /\ job_event vp ap out e.
Proof.
  intros [H|H]; destruct e; simpl in *; try contradiction; auto.
Qed.

(** C7: in a run of [start_downloader] that gets to the existence check
    (the two listings of the streams return), when the output file exists at
    the time the function looks for it, then, with [overwrite] off, the
    function returns there ([Skipped], not an exception): it has made no
    network request and has not started the muxer; with [overwrite] on, it
    removes the file and goes on from the world without it, to the
    nothing-to-download test and the download. *)
Theorem existing_output_is_skipped_or_replaced
    (episode_data : EpisodeData) (options : ref) (w : World) :
  let o := heap w options in
  let out := output_path ext episode_data o in
  let vp := video_path ext episode_data in
  let ap := audio_path ext episode_data in
  let wdv := will_download_video ext episode_data o in
  let wda := will_download_audio ext episode_data o in
  let run := start_downloader ext episode_data options w in
  let evs := events_since w (snd run) in
  let pre := [EvMkdir (tmp_dir episode_data);
              EvMkdir (output_dir episode_data)]
             ++ ancillary_events ext episode_data o
             ++ [EvExists out true] in
  listing ext episode_data o = Ok tt ->
  is_Some (fs_at_check ext episode_data o (fs w) !! out) ->
  (overwrite o = false ->
     fst run = Ok Skipped
     /\ evs = pre
     /\ Forall (fun e => is_network e = false /\ is_muxer e = false) evs)
  /\ (overwrite o = true ->
     exists (w1 : World) (post : list Event),
       fs w1 = delete out (fs_at_check ext episode_data o (fs w))
       /\ fs w1 !! out = None
       /\ run =
            (if negb (wda || wdv) then (Ok NothingToDo, w1)
             else
               (download_video_and_audio ext
                  (if wdv then selected_video ext episode_data o else None) vp
                  (if wda then selected_audio ext episode_data o else None) ap
                  options;;
                merge_video_and_audio ext
                  (if wdv then selected_video ext episode_data o else None) vp
                  (if wda then selected_audio ext episode_data o else None) ap
                  out options;;
                ret Done) w1)
       /\ evs = pre ++ EvUnlink out :: post
       /\ fst run <> Ok Skipped
       /\ (wda || wdv = false -> fst run = Ok NothingToDo /\ post = [])
       /\ (wda || wdv = true ->
            exists post', post = EvSetSemaphore (num_workers o) :: post')).
Proof.
  intros o out vp ap wdv wda run evs pre Hl Hex.
  set (found := bool_decide
         (is_Some (fs_at_check ext episode_data o (fs w) !! out))).
  assert (Hfound : found = true) by (apply bool_decide_eq_true_2, Hex).
  set (w0 := world_at_check ext episode_data options w).
  set (video := if wdv then selected_video ext episode_data o else None).
  set (audio := if wda then selected_audio ext episode_data o else None).
  set (w1 := {| heap := heap w0; fs := delete out (fs w0);
                trace := trace w0 ++ [EvUnlink out] |}).
  assert (Hrun : run =
            if found && negb (overwrite o) then (Ok Skipped, w0)
            else if negb (wda || wdv)
                 then (Ok NothingToDo, if found then w1 else w0)
                 else (download_video_and_audio ext video vp audio ap options;;
                       merge_video_and_audio ext video vp audio ap out
                         options;;
                       ret Done) (if found then w1 else w0))
    by exact (start_downloader_run episode_data options w Hl).
  pose proof (start_downloader_anatomy episode_data options w Hl) as Han.
  cbv zeta in Han. fold o out vp ap wdv wda run found in Han. fold evs in Han.
  rewrite Hfound in Han, Hrun. fold pre in Han.
  split; intros How; rewrite How in Han, Hrun; cbn [andb negb] in Han, Hrun.
  - destruct Han as [(_ & _ & Hres & Hevs)|[(Hc & _)|(Hc & _)]];
      try discriminate.
    split; [exact Hres|]. split; [exact Hevs|].
    rewrite Hevs. unfold pre. simpl.
    do 2 (constructor; [split; reflexivity|]).
    apply Forall_app_2; [|repeat constructor].
    eapply Forall_impl;
      [apply (ancillary_events_kind episode_data o vp ap)|].
    simpl. tauto.
  - destruct Han as [(_ & Hc & _)|[(_ & Hwd & Hres & Hevs)
                                  |(_ & Hwd & Hres & post & Hevs & _)]];
      try discriminate.
    + exists w1, []. split; [reflexivity|].
      split; [apply lookup_delete_eq|].
      split; [exact Hrun|].
      rewrite Hevs, Hres, Hwd. split; [reflexivity|].
      split; [discriminate|]. split; [auto|discriminate].
    + exists w1, (EvSetSemaphore (num_workers o) :: post).
      split; [reflexivity|].
      split; [apply lookup_delete_eq|].
      split; [exact Hrun|].
      rewrite Hevs, Hwd. split; [reflexivity|].
      split; [|split; [discriminate|eauto]].
      destruct Hres as [->|[e ->]]; discriminate.
Qed.

(** C10: in every run of [start_downloader] that gets past the two listings
    of the streams, the subtitle, danmaku and metadata files the episode
    carries are written before the function asks whether the output file
    exists, and so before it decides whether there is anything to download;
    nothing is written afterwards.  The existence check is answered on the
    file system the writers have left; the run that ends as [Skipped] ends
    with that file system, the run that ends as [NothingToDo] with that file
    system less the old output file, and every other run goes on to the
    download from there. *)
Theorem ancillary_files_written_before_checks
    (episode_data : EpisodeData) (options : ref) (w : World) :
  let o := heap w options in
  let out := output_path ext episode_data o in
  let vp := video_path ext episode_data in
  let ap := audio_path ext episode_data in
  let wdv := will_download_video ext episode_data o in
  let wda := will_download_audio ext episode_data o in
  let run := start_downloader ext episode_data options w in
  let written := fs_at_check ext episode_data o (fs w) in
  let found := bool_decide (is_Some (written !! out)) in
  let checked := if found then delete out written else written in
  listing ext episode_data o = Ok tt ->
  exists (post : list Event),
    events_since w (snd run)
    = [EvMkdir (tmp_dir episode_data); EvMkdir (output_dir episode_data)]
      ++ ancillary_events ext episode_data o
      ++ EvExists out found :: post
    /\ Forall (fun e => is_ancillary e = false) post
    /\ (forall s, s ∈ subtitles episode_data ->
          EvWriteSubtitle (lines s) out (lang s)
          ∈ ancillary_events ext episode_data o)
    /\ (data (danmaku episode_data) <> [] ->
          exists height width,
            EvWriteDanmaku (danmaku episode_data) out height width
            ∈ ancillary_events ext episode_data o)
    /\ (forall m, metadata episode_data = Some m ->
          EvWriteMetadata m out ∈ ancillary_events ext episode_data o)
    /\ (fst run = Ok Skipped -> post = [] /\ fs (snd run) = written)
    /\ (fst run = Ok NothingToDo ->
          (post = [] \/ post = [EvUnlink out]) /\ fs (snd run) = checked)
    /\ (fst run <> Ok Skipped -> fst run <> Ok NothingToDo ->
          exists w1 : World,
            fs w1 = checked
            /\ run =
                 (download_video_and_audio ext
                    (if wdv then selected_video ext episode_data o else None)
                    vp
                    (if wda then selected_audio ext episode_data o else None)
                    ap options;;
                  merge_video_and_audio ext
                    (if wdv then selected_video ext episode_data o else None)
                    vp
                    (if wda then selected_audio ext episode_data o else None)
                    ap out options;;
                  ret Done) w1).
Proof.
  intros o out vp ap wdv wda run written found checked Hl.
  set (w0 := world_at_check ext episode_data options w).
  set (w1 := if found
             then {| heap := heap w0; fs := delete out (fs w0);
                     trace := trace w0 ++ [EvUnlink out] |}
             else w0).
  assert (Hfs1 : fs w1 = checked)
    by (unfold w1, checked; destruct found; reflexivity).
  pose proof (start_downloader_run episode_data options w Hl) as Hrun.
  cbv zeta in Hrun. fold o out vp ap wdv wda in Hrun. fold w0 in Hrun.
  change (bool_decide (is_Some (fs w0 !! out))) with found in Hrun.
  fold w1 in Hrun. fold run in Hrun.
  pose proof (start_downloader_anatomy episode_data options w Hl) as Han.
  cbv zeta in Han. fold o out vp ap run in Han. fold written found in Han.
  assert (Hmem :
    (forall s, s ∈ subtitles episode_data ->
       EvWriteSubtitle (lines s) out (lang s)
       ∈ ancillary_events ext episode_data o)
    /\ (data (danmaku episode_data) <> [] ->
        exists height width,
          EvWriteDanmaku (danmaku episode_data) out height width
          ∈ ancillary_events ext episode_data o)
    /\ (forall m, metadata episode_data = Some m ->
        EvWriteMetadata m out ∈ ancillary_events ext episode_data o)).
  { unfold ancillary_events. fold o out. split; [|split].
    - intros s Hs. apply elem_of_app. left.
      apply list_elem_of_fmap. eauto.
    - intros Hd. eexists _, _. apply elem_of_app. right.
      apply elem_of_app. left.
      rewrite bool_decide_eq_false_2 by exact Hd. left.
    - intros m ->. apply elem_of_app. right. apply elem_of_app. right.
      left. }
  destruct Hmem as (Hsub & Hdan & Hmeta).
  destruct Han as [(Hf & How & Hres & Hevs)
                  |[(Hsk & Hwd & Hres & Hevs)
                   |(Hsk & Hwd & Hres & post & Hevs & HP)]].
  - rewrite Hf, How in Hrun. cbn [andb negb] in Hrun.
    exists []. rewrite Hevs, Hres.
    split; [reflexivity|]. split; [constructor|].
    split; [exact Hsub|]. split; [exact Hdan|]. split; [exact Hmeta|].
    split; [intros _; split; [reflexivity|rewrite Hrun; reflexivity]|].
    split; [discriminate|]. intros Hc. destruct Hc. reflexivity.
  - rewrite Hsk in Hrun.
    assert (Hnwd : negb (wda || wdv) = true)
      by (unfold wda, wdv; rewrite Hwd; reflexivity).
    rewrite Hnwd in Hrun.
    exists (if found then [EvUnlink out] else []).
    rewrite Hevs, Hres, <- !app_assoc.
    split; [reflexivity|].
    split; [destruct found; repeat constructor|].
    split; [exact Hsub|]. split; [exact Hdan|]. split; [exact Hmeta|].
    split; [discriminate|].
    split.
    + intros _. split; [destruct found; auto|].
      rewrite Hrun. exact Hfs1.
    + intros _ Hc. destruct Hc. reflexivity.
  - rewrite Hsk in Hrun.
    assert (Hnwd : negb (wda || wdv) = false)
      by (unfold wda, wdv; rewrite Hwd; reflexivity).
    rewrite Hnwd in Hrun.
    exists ((if found then [EvUnlink out] else [])
            ++ EvSetSemaphore (num_workers o) :: post).
    rewrite Hevs, <- !app_assoc.
    split; [reflexivity|].
    split.
    { apply Forall_app_2; [destruct found; repeat constructor|].
      constructor; [reflexivity|].
      eapply Forall_impl; [exact HP|].
      intros e He. eapply download_or_merge_event_kind, He. }
    split; [exact Hsub|]. split; [exact Hdan|]. split; [exact Hmeta|].
    split; [intros Hc; destruct Hres as [Hd|[e He]]; congruence|].
    split; [intros Hc; destruct Hres as [Hd|[e He]]; congruence|].
    intros _ _. exists w1. split; [exact Hfs1|exact Hrun].
Qed.

(** C3 (as the code has it): the partial files of an episode are
    [<filename>_video.m4s] and [<filename>_audio.m4s] in the temporary
    directory, and the output file is [<filename>.<e>] in the output
    directory.  When the video will be downloaded, [e] is the [output_format]
    option unless that is [infer], in which case it is [mkv] if a [fLaC]
    audio will be downloaded with it and [mp4] otherwise; when it will not,
    [e] is the [output_format_audio_only] option unless that is [infer], in
    which case it is [flac] if a [fLaC] audio will be downloaded and [aac]
    otherwise.  Every file a run of [start_downloader] opens, fills, tests,
    removes or hands to the muxer is one of these three. *)
Theorem episode_file_names
    (episode_data : EpisodeData) (options : ref) (w : World) :
  let o := heap w options in
  let out := output_path ext episode_data o in
  let vp := video_path ext episode_data in
  let ap := audio_path ext episode_data in
  let wdv := will_download_video ext episode_data o in
  let flac := will_download_audio ext episode_data o
              && audio_codec_is (selected_audio ext episode_data o) "fLaC" in
  let e :=
    if wdv then
      if String.eqb (output_format o) "infer"
      then (if flac then "mkv" else "mp4")
      else output_format o
    else
      if String.eqb (output_format_audio_only o) "infer"
      then (if flac then "flac" else "aac")
      else output_format_audio_only o in
  vp = joinpath ext (tmp_dir episode_data)
         (filename episode_data +:+ "_video.m4s")
  /\ ap = joinpath ext (tmp_dir episode_data)
            (filename episode_data +:+ "_audio.m4s")
  /\ out = joinpath ext (output_dir episode_data)
             (filename episode_data +:+ "." +:+ e)
  /\ Forall (job_event vp ap out)
        (events_since w (snd (start_downloader ext episode_data options w))).
Proof.
  intros o out vp ap wdv flac e.
  split; [reflexivity|]. split; [reflexivity|]. split.
  - unfold out, output_path, output_format_of, e. fold o wdv flac.
    destruct wdv; simpl.
    + destruct (String.eqb (output_format o) "infer"); simpl;
        [destruct flac|]; reflexivity.
    + destruct (String.eqb (output_format_audio_only o) "infer"); simpl;
        [destruct flac|]; reflexivity.
  - destruct (listing ext episode_data o) as [[]|exc] eqn:Hl.
    2: { unfold o in Hl.
         rewrite (start_downloader_unlisted episode_data options w exc Hl).
         cbn [snd]. erewrite events_since_app by reflexivity.
         repeat constructor. }
    pose proof (start_downloader_anatomy episode_data options w Hl) as Han.
    cbv zeta in Han. fold o out vp ap in Han.
    assert (Hpre : forall b,
      Forall (job_event vp ap out)
        ([EvMkdir (tmp_dir episode_data); EvMkdir (output_dir episode_data)]
         ++ ancillary_events ext episode_data o ++ [EvExists out b])).
    { intros b. simpl. do 2 (constructor; [exact I|]).
      apply Forall_app_2; [|repeat constructor].
      eapply Forall_impl;
        [apply (ancillary_events_kind episode_data o vp ap)|].
      simpl. tauto. }
    assert (Hdel : forall b : bool,
      Forall (job_event vp ap out) (if b then [EvUnlink out] else [])).
    { intros []; repeat constructor. }
    destruct Han as [(_ & _ & _ & Hevs)
                    |[(_ & _ & _ & Hevs)
                     |(_ & _ & _ & post & Hevs & HP)]]; rewrite Hevs.
    + apply Hpre.
    + apply Forall_app_2; [apply Hpre|apply Hdel].
    + apply Forall_app_2; [apply Hpre|].
      apply Forall_app_2; [apply Hdel|].
      constructor; [exact I|].
      eapply Forall_impl; [exact HP|].
      intros ev Hev. eapply download_or_merge_event_kind, Hev.
Qed.

End Orchestrator.

(** ** The command line determines its anatomy *)

Lemma render_tail_inj (a b : MuxerArgs) :
  inputs a = [] -> inputs b = [] -> render a = render b -> a = b.
Proof.
  destruct a as [ia va aa ta tha oa], b as [ib vb ab tb thb ob].
  unfold render. simpl. intros -> ->. simpl.
  destruct va, vb, aa, ab, ta, tb; simpl; intros H;
    simplify_eq; reflexivity.
Qed.

Lemma render_inj (a b : MuxerArgs) : render a = render b -> a = b.
Proof.
  destruct a as [ia va aa ta tha oa], b as [ib vb ab tb thb ob].
  revert ib. induction ia as [|x ia IH]; intros [|y ib] H.
  - apply render_tail_inj; auto.
  - exfalso. unfold render in H. simpl in H.
    destruct va, aa; simpl in H; discriminate.
  - exfalso. unfold render in H. simpl in H.
    destruct vb, ab; simpl in H; discriminate.
  - unfold render in H. simpl in H. injection H as -> H.
    specialize (IH ib H). injection IH as -> -> -> -> -> ->. reflexivity.
Qed.

(** ** Runs on the sample environment *)

Lemma hevc_request_is_tagged_witness :
  exists (args : MuxerArgs) (post : list Event),
    trace (snd (merge_video_and_audio sample_ext (Some hevc_video)
                  "tmp/ep1_video.m4s" (Some mp4a_audio) "tmp/ep1_audio.m4s"
                  "out/ep1.mp4" 0%nat (sample_world sample_options ∅)))
    = EvFFmpegExec (render args) :: post
    /\ video_tag args = Some "hvc1"
    /\ video_directive args = Some "copy".
Proof.
  destruct (hevc_request_is_tagged sample_ext hevc_video
              "tmp/ep1_video.m4s" (Some mp4a_audio) "tmp/ep1_audio.m4s"
              "out/ep1.mp4" 0%nat (sample_world sample_options ∅)
              eq_refl eq_refl) as (args & post & Ht & Htag & Hcopy & _).
  exists args, post. split; [exact Ht|]. split; [exact Htag|].
  apply Hcopy. reflexivity.
Defined.

(** C2 as stated fails on its second half: an [avc] source with [hevc]
    requested is transcoded, and the command line carries the tag too. *)
Lemma avc_to_hevc_is_tagged :
  let w := sample_world sample_options {[ "tmp/ep1_video.m4s" := 2500000 ]} in
  events_since w
    (snd (merge_video_and_audio sample_ext (Some avc_video)
            "tmp/ep1_video.m4s" None "tmp/ep1_audio.m4s" "out/ep1.mp4"
            0%nat w))
  = [EvFFmpegExec ["-i"; "tmp/ep1_video.m4s"; "-vcodec"; "hevc";
                   "-strict"; "unofficial"; "-tag:v"; "hvc1";
                   "-threads"; "8"; "-y"; "out/ep1.mp4"];
     EvUnlink "tmp/ep1_video.m4s"].
Proof. vm_compute. reflexivity. Qed.

(** C3 as stated fails: the video will be downloaded, and the output file is
    not an [mp4], with a [fLaC] audio or with an [output_format] option. *)
Lemma video_output_is_not_always_mp4 :
  let flac_episode := sample_episode [hevc_video] [flac_audio] in
  will_download_video sample_ext flac_episode sample_options = true
  /\ output_path sample_ext flac_episode sample_options = "out/ep1.mkv"
  /\ events_since (sample_world sample_options ∅)
       (snd (start_downloader sample_ext flac_episode 0%nat
               (sample_world sample_options ∅)))
     = [EvMkdir "tmp"; EvMkdir "out";
        EvWriteSubtitle ["ni hao"] "out/ep1.mkv" "zh";
        EvWriteDanmaku {| data := ["<d/>"]; save_type := "ass" |}
          "out/ep1.mkv" 1080 1920;
        EvWriteMetadata "<nfo/>" "out/ep1.mkv";
        EvExists "out/ep1.mkv" false; EvSetSemaphore 8;
        EvOpenBuffer "tmp/ep1_video.m4s" false;
        EvGetSize "https://cdn/v-hevc";
        EvOpenBuffer "tmp/ep1_audio.m4s" false;
        EvGetSize "https://cdn/a-flac";
        EvGather
          [show_progress ["tmp/ep1_video.m4s"; "tmp/ep1_audio.m4s"] 5000000;
           download_file_with_offset "https://cdn/v-hevc"
             ["https://mirror/v-hevc"] "tmp/ep1_video.m4s" 0 (Some 1000000);
           download_file_with_offset "https://cdn/a-flac" []
             "tmp/ep1_audio.m4s" 0 (Some 1000000);
           download_file_with_offset "https://cdn/v-hevc"
             ["https://mirror/v-hevc"] "tmp/ep1_video.m4s" 1000000
             (Some 1000000);
           download_file_with_offset "https://cdn/a-flac" []
             "tmp/ep1_audio.m4s" 1000000 (Some 1000000);
           download_file_with_offset "https://cdn/v-hevc"
             ["https://mirror/v-hevc"] "tmp/ep1_video.m4s" 2000000
             (Some 500000);
           download_file_with_offset "https://cdn/a-flac" []
             "tmp/ep1_audio.m4s" 2000000 (Some 500000)];
        EvCloseBuffer "tmp/ep1_video.m4s";
        EvCloseBuffer "tmp/ep1_audio.m4s";
        EvFFmpegExec
          ["-i"; "tmp/ep1_video.m4s"; "-i"; "tmp/ep1_audio.m4s";
           "-vcodec"; "copy"; "-acodec"; "copy"; "-strict"; "unofficial";
           "-tag:v"; "hvc1"; "-threads"; "8"; "-y"; "out/ep1.mkv"];
        EvUnlink "tmp/ep1_video.m4s"; EvUnlink "tmp/ep1_audio.m4s"].
Proof. vm_compute. repeat split; reflexivity. Qed.

(** The output file exists and [overwrite] is off: the run is skipped, after
    the subtitle, danmaku and metadata files have been written. *)
Example skipped_run :
  let w := sample_world sample_options {[ "out/ep1.mp4" := 7 ]} in
  let run := start_downloader sample_ext
               (sample_episode [hevc_video] [mp4a_audio]) 0%nat w in
  fst run = Ok Skipped
  /\ trace (snd run)
     = [EvMkdir "tmp"; EvMkdir "out";
        EvWriteSubtitle ["ni hao"] "out/ep1.mp4" "zh";
        EvWriteDanmaku {| data := ["<d/>"]; save_type := "ass" |}
          "out/ep1.mp4" 1080 1920;
        EvWriteMetadata "<nfo/>" "out/ep1.mp4";
        EvExists "out/ep1.mp4" true].
Proof. vm_compute. split; reflexivity. Qed.

(** The output file exists and [overwrite] is on: the file is removed and
    the video is downloaded and merged again. *)
Example replaced_run :
  let w := sample_world overwriting_options {[ "out/ep1.mp4" := 7 ]} in
  let run := start_downloader sample_ext
               (sample_episode [hevc_video] [mp4a_audio]) 0%nat w in
  fst run = Ok Done
  /\ trace (snd run)
     = [EvMkdir "tmp"; EvMkdir "out";
        EvWriteSubtitle ["ni hao"] "out/ep1.mp4" "zh";
        EvWriteDanmaku {| data := ["<d/>"]; save_type := "ass" |}
          "out/ep1.mp4" 1080 1920;
        EvWriteMetadata "<nfo/>" "out/ep1.mp4";
        EvExists "out/ep1.mp4" true; EvUnlink "out/ep1.mp4";
        EvSetSemaphore 4;
        EvOpenBuffer "tmp/ep1_video.m4s" true;
        EvGetSize "https://cdn/v-hevc";
        EvGather
          [show_progress ["tmp/ep1_video.m4s"] 2500000;
           download_file_with_offset "https://cdn/v-hevc"
             ["https://mirror/v-hevc"] "tmp/ep1_video.m4s" 0 (Some 2000000);
           download_file_with_offset "https://cdn/v-hevc"
             ["https://mirror/v-hevc"] "tmp/ep1_video.m4s" 2000000
             (Some 500000)];
        EvCloseBuffer "tmp/ep1_video.m4s";
        EvFFmpegExec
          ["-i"; "tmp/ep1_video.m4s"; "-vcodec"; "copy";
           "-strict"; "unofficial"; "-tag:v"; "hvc1"; "-threads"; "8";
           "-y"; "out/ep1.mp4"];
        EvUnlink "tmp/ep1_video.m4s"].
Proof. vm_compute. split; reflexivity. Qed.

(** No stream to choose from: nothing to download, after the same writes,
    under the name the audio-only rule gives. *)
Example nothing_to_do_run :
  let w := sample_world sample_options ∅ in
  let run := start_downloader sample_ext (sample_episode [] []) 0%nat w in
  fst run = Ok NothingToDo
  /\ trace (snd run)
     = [EvMkdir "tmp"; EvMkdir "out";
        EvWriteSubtitle ["ni hao"] "out/ep1.aac" "zh";
        EvWriteDanmaku {| data := ["<d/>"]; save_type := "ass" |}
          "out/ep1.aac" 1080 1920;
        EvWriteMetadata "<nfo/>" "out/ep1.aac";
        EvExists "out/ep1.aac" false].
Proof. vm_compute. split; reflexivity. Qed.

Lemma existing_output_is_skipped_or_replaced_witness :
  fst (start_downloader sample_ext
         (sample_episode [hevc_video] [mp4a_audio]) 0%nat
         (sample_world sample_options {[ "out/ep1.mp4" := 7 ]}))
  = Ok Skipped.
Proof.
  refine (proj1 (proj1 (existing_output_is_skipped_or_replaced sample_ext
                          (sample_episode [hevc_video] [mp4a_audio]) 0%nat
                          (sample_world sample_options
                             {[ "out/ep1.mp4" := 7 ]}) _ _) _)).
  - vm_compute. reflexivity.
  - exists 7. vm_compute. reflexivity.
  - reflexivity.
Defined.

(** The skipped run has left the description file of the episode. *)
Lemma ancillary_files_written_before_checks_witness :
  fs (snd (start_downloader sample_ext
             (sample_episode [hevc_video] [mp4a_audio]) 0%nat
             (sample_world sample_options {[ "out/ep1.mp4" := 7 ]})))
  !! "out/ep1.mp4.nfo" = Some 1.
Proof.
  destruct (ancillary_files_written_before_checks sample_ext
              (sample_episode [hevc_video] [mp4a_audio]) 0%nat
              (sample_world sample_options {[ "out/ep1.mp4" := 7 ]}))
    as (post & _ & _ & _ & _ & _ & Hskipped & _).
  - vm_compute. reflexivity.
  - destruct Hskipped as [_ Hfs]; [vm_compute; reflexivity|].
    rewrite Hfs. vm_compute. reflexivity.
Defined.

(** Two episodes downloaded one after the other with the same options
    dictionary: the first is [hevc] and [hevc] is requested; the second is
    [avc], and is copied, not transcoded, because the dictionary now says
    [copy]. *)
Example second_job_sees_copy :
  let w := sample_world sample_options ∅ in
  let w1 := snd (start_downloader sample_ext
                   (sample_episode [hevc_video] [mp4a_audio]) 0%nat w) in
  let w2 := snd (start_downloader sample_ext
                   (sample_episode [avc_video] [mp4a_audio]) 0%nat
                   {| heap := heap w1; fs := ∅; trace := [] |}) in
  video_save_codec (heap w 0%nat) = "hevc"
  /\ video_save_codec (heap w1 0%nat) = "copy"
  /\ video_save_codec (heap w1 1%nat) = "hevc"
  /\ List.filter is_muxer (trace w2)
     = [EvFFmpegExec ["-i"; "tmp/ep1_video.m4s"; "-i"; "tmp/ep1_audio.m4s";
                      "-vcodec"; "copy"; "-acodec"; "copy";
                      "-strict"; "unofficial"; "-threads"; "8";
                      "-y"; "out/ep1.mp4"]].
Proof. vm_compute. repeat split; reflexivity. Qed.

Lemma merge_rewrites_callers_options_witness :
  video_save_codec
    (heap (snd (merge_video_and_audio sample_ext (Some hevc_video)
                  "tmp/ep1_video.m4s" (Some mp4a_audio) "tmp/ep1_audio.m4s"
                  "out/ep1.mp4" 0%nat (sample_world sample_options ∅)))
          0%nat)
  = "copy".
Proof.
  refine (proj1 (proj1 (merge_rewrites_callers_options sample_ext
                          (Some hevc_video) "tmp/ep1_video.m4s"
                          (Some mp4a_audio) "tmp/ep1_audio.m4s"
                          "out/ep1.mp4" 0%nat
                          (sample_world sample_options ∅) eq_refl) _)).
  reflexivity.
Defined.

Lemma muxer_invoked_once_with_ordered_args_witness :
  exists (vcodec acodec : string) (vtag : option string),
    List.filter is_muxer
      (events_since (sample_world sample_options ∅)
         (snd (merge_video_and_audio sample_ext (Some avc_video)
                 "tmp/ep1_video.m4s" (Some mp4a_audio)
                 "tmp/ep1_audio.m4s" "out/ep1.mp4" 0%nat
                 (sample_world sample_options ∅))))
    = [EvFFmpegExec
         (["-i"; "tmp/ep1_video.m4s"] ++ ["-i"; "tmp/ep1_audio.m4s"]
          ++ ["-vcodec"; vcodec] ++ ["-acodec"; acodec]
          ++ ["-strict"; "unofficial"]
          ++ (if vtag is Some t then ["-tag:v"; t] else [])
          ++ ["-threads"; "8"] ++ ["-y"; "out/ep1.mp4"])].
Proof.
  exact (muxer_invoked_once_with_ordered_args sample_ext (Some avc_video)
           "tmp/ep1_video.m4s" (Some mp4a_audio) "tmp/ep1_audio.m4s"
           "out/ep1.mp4" 0%nat (sample_world sample_options ∅) eq_refl).
Defined.

Lemma same_codec_is_copied_else_passed_through_witness :
  exists (args : MuxerArgs) (post : list Event),
    trace (snd (merge_video_and_audio sample_ext (Some avc_video)
                  "tmp/ep1_video.m4s" (Some mp4a_audio) "tmp/ep1_audio.m4s"
                  "out/ep1.mp4" 0%nat (sample_world sample_options ∅)))
    = EvFFmpegExec (render args) :: post
    /\ video_directive args = Some "hevc"
    /\ audio_directive args = Some "copy".
Proof.
  destruct (same_codec_is_copied_else_passed_through sample_ext
              (Some avc_video) "tmp/ep1_video.m4s" (Some mp4a_audio)
              "tmp/ep1_audio.m4s" "out/ep1.mp4" 0%nat
              (sample_world sample_options ∅) eq_refl)
    as (args & post & Ht & Hv & Ha).
  exists args, post. split; [exact Ht|].
  split; [exact (Hv avc_video eq_refl)|exact (Ha mp4a_audio eq_refl)].
Defined.

(** The round-robin merge on three sequences. *)
Example xmerge_round_robin :
  xmerge [[1; 2; 3]; [4]; [5; 6]] = [1; 4; 5; 2; 6; 3].
Proof. reflexivity. Qed.

(** * Further properties *)

(** ** The block planner, continued *)

Section PlannerMore.

Local Open Scope Z_scope.

(** The plan, written out: the full blocks and then the short one. *)
Lemma slice_blocks_explicit (r T b : Z) :
  r <= T -> 0 < b ->
  slice_blocks r (Some T) (Some b)
  = Ok (uniform r b 0 (Z.to_nat ((T - r) / b))
        ++ (if (T - r) mod b =? 0 then []
            else [(r + (T - r) / b * b, Some ((T - r) mod b))])).
Proof.
  intros HrT Hb.
  pose proof (Z.div_mod (T - r) b ltac:(lia)) as Hdm.
  unfold slice_blocks, py_range.
  destruct (Z.leb_spec r T) as [_|]; [simpl|lia].
  destruct (Z.eqb_spec b 0) as [|_]; [lia|].
  fold (uniform r b 0 (Z.to_nat (range_length r T b))).
  destruct (Z.eqb_spec ((T - r) mod b) 0) as [Hm|Hm]; simpl.
  - rewrite range_length_exact by assumption. rewrite app_nil_r. reflexivity.
  - rewrite range_length_ragged by assumption.
    rewrite uniform_snoc, setitem_last_snoc.
    replace (T - r - (T - r) / b * b) with ((T - r) mod b) by lia.
    reflexivity.
Qed.

Lemma uniform_length (r b : Z) (k n : nat) : length (uniform r b k n) = n.
Proof. unfold uniform. rewrite !length_map. apply length_seq. Qed.

Lemma uniform_lookup (r b : Z) (k n i : nat) :
  (i < n)%nat ->
  uniform r b k n !! i = Some (r + Z.of_nat (k + i) * b, Some b).
Proof.
  intros Hi. unfold uniform. rewrite !list_lookup_fmap.
  rewrite lookup_seq_lt by exact Hi. reflexivity.
Qed.

Lemma planned_bytes_app (l1 l2 : list Block) :
  planned_bytes (l1 ++ l2) = planned_bytes l1 + planned_bytes l2.
Proof.
  unfold planned_bytes. induction l1 as [|x l1 IH]; simpl; [reflexivity|].
  rewrite IH. lia.
Qed.

Lemma planned_bytes_uniform (r b : Z) (k n : nat) :
  planned_bytes (uniform r b k n) = Z.of_nat n * b.
Proof.
  revert k. induction n as [|n IH]; intros k; [reflexivity|].
  change (uniform r b k (S n))
    with ((r + Z.of_nat k * b, Some b) :: uniform r b (S k) n).
  unfold planned_bytes in *. simpl. rewrite IH. lia.
Qed.

(** The sizes of the planned blocks add up to the bytes that remain, and
    there are as many blocks as the remaining bytes need, no more. *)
Theorem slice_blocks_plans_remaining_bytes (r T b : Z) :
  r <= T -> 0 < b ->
  exists bs : list Block,
    slice_blocks r (Some T) (Some b) = Ok bs
    /\ planned_bytes bs = T - r
    /\ Z.of_nat (length bs) = (T - r + b - 1) / b.
Proof.
  intros HrT Hb. eexists. split; [apply slice_blocks_explicit; assumption|].
  pose proof (Z.div_mod (T - r) b ltac:(lia)) as Hdm.
  pose proof (Z.mod_pos_bound (T - r) b Hb) as Hbd.
  assert (Hq : 0 <= (T - r) / b) by (apply Z.div_pos; lia).
  set (q := (T - r) / b) in *. set (m := (T - r) mod b) in *.
  rewrite planned_bytes_app, planned_bytes_uniform, length_app,
    uniform_length.
  destruct (Z.eqb_spec m 0) as [Hm|Hm]; simpl.
  - split; [lia|].
    replace (T - r + b - 1) with (q * b + (b - 1)) by lia.
    rewrite Z.div_add_l, Z.div_small by lia. lia.
  - split; [unfold planned_bytes; simpl; lia|].
    replace (T - r + b - 1) with ((q + 1) * b + (m - 1)) by lia.
    rewrite Z.div_add_l, Z.div_small by lia. lia.
Qed.

Lemma slice_blocks_plans_remaining_bytes_witness :
  exists bs : list Block,
    slice_blocks 300 (Some 1000) (Some 256) = Ok bs
    /\ planned_bytes bs = 1000 - 300
    /\ Z.of_nat (length bs) = (1000 - 300 + 256 - 1) / 256.
Proof. apply (slice_blocks_plans_remaining_bytes 300 1000 256); lia. Defined.

(** The [i]-th block starts at [r + i * b]; no block is larger than [b],
    and every block but the last is exactly [b] bytes. *)
Theorem slice_blocks_block_shape (r T b : Z) (bs : list Block) (i : nat)
    (blk : Block) :
  r <= T -> 0 < b ->
  slice_blocks r (Some T) (Some b) = Ok bs ->
  bs !! i = Some blk ->
  fst blk = r + Z.of_nat i * b
  /\ exists n : Z,
       snd blk = Some n /\ 0 < n <= b
       /\ ((S i < length bs)%nat -> n = b).
Proof.
  intros HrT Hb Hs Hi.
  rewrite slice_blocks_explicit in Hs by assumption.
  injection Hs as <-.
  pose proof (Z.div_mod (T - r) b ltac:(lia)) as Hdm.
  pose proof (Z.mod_pos_bound (T - r) b Hb) as Hbd.
  assert (Hq : 0 <= (T - r) / b) by (apply Z.div_pos; lia).
  set (q := Z.to_nat ((T - r) / b)) in *.
  destruct (Nat.lt_ge_cases i q) as [Hlt|Hge].
  - rewrite lookup_app_l in Hi by (rewrite uniform_length; exact Hlt).
    rewrite uniform_lookup in Hi by exact Hlt.
    injection Hi as <-. simpl. split; [reflexivity|].
    exists b. split; [reflexivity|]. split; [lia|reflexivity].
  - rewrite lookup_app_r in Hi by (rewrite uniform_length; exact Hge).
    rewrite uniform_length in Hi.
    destruct (Z.eqb_spec ((T - r) mod b) 0) as [Hm|Hm]; [discriminate|].
    destruct (i - q)%nat as [|j] eqn:Hj; [|discriminate].
    injection Hi as <-. simpl.
    assert (Hiq : Z.of_nat i = (T - r) / b) by (unfold q in *; lia).
    split; [rewrite Hiq; reflexivity|].
    eexists. split; [reflexivity|]. split; [lia|].
    rewrite length_app, uniform_length. simpl. lia.
Qed.

Lemma slice_blocks_block_shape_witness :
  fst ((20, Some 5) : Block) = 0 + Z.of_nat 2 * 10
  /\ exists n : Z,
       snd ((20, Some 5) : Block) = Some n /\ 0 < n <= 10
       /\ (Nat.lt 3 (length [(0, Some 10); (10, Some 10); (20, Some 5)])
           -> n = 10).
Proof.
  apply (slice_blocks_block_shape 0 25 10
           [(0, Some 10); (10, Some 10); (20, Some 5)] 2 (20, Some 5));
    [lia|lia|reflexivity|reflexivity].
Defined.

Lemma uniform_shift (r b : Z) (k n : nat) :
  uniform (r + Z.of_nat k * b) b 0 n = uniform r b k n.
Proof.
  revert k. induction n as [|n IH]; intros k; [reflexivity|].
  rewrite !uniform_snoc, IH. do 3 f_equal. lia.
Qed.

Lemma uniform_drop (r b : Z) (k n : nat) :
  (k <= n)%nat -> drop k (uniform r b 0 n) = uniform r b k (n - k).
Proof.
  intros Hk. unfold uniform. rewrite <- !fmap_drop.
  do 2 f_equal. apply list_eq. intros i.
  rewrite lookup_drop.
  destruct (Nat.lt_ge_cases i (n - k)) as [Hlt|Hge].
  - rewrite !lookup_seq_lt by lia. reflexivity.
  - rewrite !lookup_seq_ge by lia. reflexivity.
Qed.

(** Resuming after [k] whole blocks have been written plans exactly the
    blocks that were still to come: the earlier plan without its first [k]
    blocks. *)
Theorem slice_blocks_resume (r T b : Z) (k : nat) (bs : list Block) :
  0 < b -> r + Z.of_nat k * b <= T ->
  slice_blocks r (Some T) (Some b) = Ok bs ->
  slice_blocks (r + Z.of_nat k * b) (Some T) (Some b) = Ok (drop k bs).
Proof.
  intros Hb Hk Hs.
  assert (HrT : r <= T) by nia.
  rewrite slice_blocks_explicit in Hs by assumption. injection Hs as <-.
  rewrite slice_blocks_explicit by assumption.
  pose proof (Z.div_mod (T - r) b ltac:(lia)) as Hdm.
  pose proof (Z.mod_pos_bound (T - r) b Hb) as Hbd.
  assert (Hq : 0 <= (T - r) / b) by (apply Z.div_pos; lia).
  replace (T - (r + Z.of_nat k * b)) with ((T - r) + (- Z.of_nat k) * b)
    by lia.
  rewrite Z.div_add, Z.mod_add by lia.
  set (q := (T - r) / b) in *. set (m := (T - r) mod b) in *.
  assert (Hkq : Z.of_nat k <= q) by nia.
  f_equal. rewrite drop_app_le by (rewrite uniform_length; lia).
  rewrite uniform_drop by lia. rewrite uniform_shift.
  replace (Z.to_nat (q + - Z.of_nat k)) with (Z.to_nat q - k)%nat by lia.
  f_equal. destruct (m =? 0); [reflexivity|]. do 2 f_equal. lia.
Qed.

Lemma slice_blocks_resume_witness :
  slice_blocks (0 + Z.of_nat 2 * 1000000) (Some 2500000) (Some 1000000)
  = Ok (drop 2 [(0, Some 1000000); (1000000, Some 1000000);
                (2000000, Some 500000)]).
Proof.
  apply (slice_blocks_resume 0 2500000 1000000 2); [lia|lia|reflexivity].
Defined.

(** A block size that is not positive never yields a usable plan: zero makes
    [range] raise [ValueError]; a negative one gives an empty [range], and
    then either the assignment to the last element raises [IndexError] or,
    when the block size divides the remaining bytes, the empty plan is
    returned although bytes may remain. *)
Theorem slice_blocks_non_positive_block_size (r T b : Z) :
  r <= T -> b <= 0 ->
  slice_blocks r (Some T) (Some b)
  = if b =? 0 then Raise ValueError
    else if (T - r) mod b =? 0 then Ok [] else Raise IndexError.
Proof.
  intros HrT Hb. unfold slice_blocks, py_range, range_length.
  destruct (Z.leb_spec r T) as [_|]; [simpl|lia].
  destruct (Z.eqb_spec b 0) as [|Hb0]; [reflexivity|].
  destruct (Z.ltb_spec 0 b); [lia|].
  destruct (Z.ltb_spec T r); [lia|]. simpl.
  destruct ((T - r) mod b =? 0); reflexivity.
Qed.

Lemma slice_blocks_non_positive_block_size_witness :
  slice_blocks 0 (Some 10) (Some (-5)) = Ok []
  /\ slice_blocks 0 (Some 10) (Some (-3)) = Raise IndexError
  /\ slice_blocks 0 (Some 10) (Some 0) = Raise ValueError.
Proof.
  split; [|split].
  - apply (slice_blocks_non_positive_block_size 0 10 (-5)); lia.
  - apply (slice_blocks_non_positive_block_size 0 10 (-3)); lia.
  - apply (slice_blocks_non_positive_block_size 0 10 0); lia.
Defined.

End PlannerMore.

(** ** The merge engine, continued *)

Section MergeMore.

Variable ext : Collaborators.

(** [merge_video_and_audio] up to the call of the muxer [FFmpeg()]
    returned. *)
Lemma merge_video_and_audio_steps
    (video : option VideoUrlMeta) (video_path : Path)
    (audio : option AudioUrlMeta) (audio_path : Path)
    (output_path : Path) (options : ref) (w : World) :
  FFmpeg ext = Ok tt ->
  let args := render (merge_args ext video video_path audio audio_path
                        output_path (heap w options)) in
  merge_video_and_audio ext video video_path audio audio_path output_path
    options w
  = (try_fs (ffmpeg_exec ext args);;
     when (bool_decide (is_Some video)) (unlink video_path);;
     when (bool_decide (is_Some audio)) (unlink audio_path))
      {| heap := heap_after_codec_check video audio options (heap w);
         fs := fs w;
         trace := trace w ++ [EvFFmpegExec args] |}.
Proof.
  intros HFF. destruct w as [h f t].
  unfold merge_video_and_audio, merge_args, after_codec_check, render,
    heap_after_codec_check.
  rewrite HFF.
  cbv [mbind M_bind bind mret M_ret ret getitem when setitem emit lift].
  cbn [heap fs trace].
  destruct (video_codec_is video (video_save_codec (h options)));
  cbn [heap fs trace]; rewrite ?fn_lookup_insert;
  (destruct (audio_codec_is audio _));
  cbn [heap fs trace]; rewrite ?fn_lookup_insert;
  destruct video as [v|], audio as [a|];
  (destruct (String.eqb (video_save_codec (h options)) "hevc"
             || String.eqb (video_save_codec (h options)) "copy"
                && video_codec_is _ "hevc"));
  reflexivity.
Qed.

(** On the command line a merge builds for the muxer [FFmpeg()] returned,
    the video track is tagged exactly when the output video is HEVC: when
    the directive on the command line is [hevc], or is [copy] of an [hevc]
    source. *)
Theorem tag_iff_output_is_hevc
    (v : VideoUrlMeta) (video_path : Path)
    (audio : option AudioUrlMeta) (audio_path : Path)
    (output_path : Path) (options : ref) (w : World) :
  FFmpeg ext = Ok tt ->
  exists (args : MuxerArgs) (post : list Event),
    trace (snd (merge_video_and_audio ext (Some v) video_path audio
                  audio_path output_path options w))
    = trace w ++ EvFFmpegExec (render args) :: post
    /\ (video_tag args = Some "hvc1" \/ video_tag args = None)
    /\ (video_tag args = Some "hvc1" <->
        video_directive args = Some "hevc"
        \/ (video_directive args = Some "copy" /\ v_codec v = "hevc")).
Proof.
  intros HFF.
  destruct (merge_video_and_audio_run ext (Some v) video_path audio
              audio_path output_path options w HFF) as (post & Ht & _).
  eexists _, post. split; [exact Ht|].
  unfold merge_args; simpl. rewrite video_save_codec_after. simpl.
  set (s := video_save_codec (heap w options)).
  destruct (String.eqb_spec s "hevc") as [Hs|Hs];
  destruct (String.eqb_spec s "copy") as [Hc|Hc];
  destruct (String.eqb_spec (v_codec v) "hevc") as [Hv|Hv];
  destruct (String.eqb_spec (v_codec v) s) as [Hvs|Hvs]; simpl;
  try congruence;
  (split; [auto|]); split; intros H;
  repeat match goal with
         | H : _ \/ _ |- _ => destruct H
         | H : _ /\ _ |- _ => destruct H
         end;
  try congruence; auto;
  first [left; congruence | right; split; congruence].
Qed.


Lemma after_muxer_outcome (F : FS -> result FS) (video : option VideoUrlMeta)
    (vp : Path) (audio : option AudioUrlMeta) (ap : Path) (w : World) :
  (try_fs F;;
   when (bool_decide (is_Some video)) (unlink vp);;
   when (bool_decide (is_Some audio)) (unlink ap)) w
  = match F (fs w) with
    | Raise e => (Raise e, w)
    | Ok f1 =>
      let '(r, f2, evs) := unlink_all (present_paths video vp audio ap) f1 in
      (r, {| heap := heap w; fs := f2; trace := trace w ++ evs |})
    end.
Proof.
  destruct w as [h f t]. unfold present_paths. run_m. simpl.
  destruct (F f) as [f1|e]; [|reflexivity].
  destruct video as [v|], audio as [a|]; simpl;
  repeat (case_match; simplify_eq/=);
  rewrite <- ?app_assoc, ?app_nil_r; try reflexivity; congruence.
Qed.

Lemma unlink_all_present (ps : list Path) (f : FS) :
  NoDup ps -> (forall p, p ∈ ps -> is_Some (f !! p)) ->
  exists f',
    unlink_all ps f = (Ok tt, f', map EvUnlink ps)
    /\ forall p, f' !! p = if bool_decide (p ∈ ps) then None else f !! p.
Proof.
  revert f. induction ps as [|q ps IH]; intros f Hnd Hex.
  - exists f. split; [reflexivity|]. intros p.
    rewrite bool_decide_eq_false_2 by apply not_elem_of_nil. reflexivity.
  - apply NoDup_cons in Hnd as [Hq Hnd].
    destruct (Hex q ltac:(left)) as [z Hz]. simpl. rewrite Hz.
    destruct (IH (delete q f) Hnd) as (f' & Hrun & Hlk).
    { intros p Hp. rewrite lookup_delete_ne by (intros ->; contradiction).
      apply Hex. right. exact Hp. }
    rewrite Hrun. exists f'. split; [reflexivity|]. intros p.
    rewrite Hlk. destruct (decide (p = q)) as [->|Hne].
    + rewrite (bool_decide_eq_false_2 _ Hq).
      rewrite bool_decide_eq_true_2 by left. apply lookup_delete_eq.
    + rewrite lookup_delete_ne by congruence.
      destruct (bool_decide (p ∈ ps)) eqn:Hin.
      * apply bool_decide_eq_true_1 in Hin.
        rewrite bool_decide_eq_true_2 by (right; exact Hin). reflexivity.
      * apply bool_decide_eq_false_1 in Hin.
        rewrite bool_decide_eq_false_2; [reflexivity|].
        intros [?|?]%elem_of_cons; contradiction.
Qed.

(** When the muxer [FFmpeg()] returned fails, the exception leaves
    [merge_video_and_audio] at once: the call of the muxer is the last thing
    the merge has done, no partial file is unlinked, and the options
    dictionary has been rewritten all the same. *)
Theorem muxer_failure_stops_the_merge
    (video : option VideoUrlMeta) (video_path : Path)
    (audio : option AudioUrlMeta) (audio_path : Path)
    (output_path : Path) (options : ref) (w : World) (e : PyExc) :
  let args := render (merge_args ext video video_path audio audio_path
                        output_path (heap w options)) in
  let run := merge_video_and_audio ext video video_path audio audio_path
               output_path options w in
  FFmpeg ext = Ok tt ->
  ffmpeg_exec ext args (fs w) = Raise e ->
  fst run = Raise e
  /\ events_since w (snd run) = [EvFFmpegExec args]
  /\ heap (snd run) options = after_codec_check video audio (heap w options)
  /\ (forall r, r <> options -> heap (snd run) r = heap w r).
Proof.
  intros args run HFF Hfail.
  destruct (merge_video_and_audio_run ext video video_path audio audio_path
              output_path options w HFF) as (post & _ & _ & Hh & Hframe).
  fold run in Hh, Hframe.
  split; [|split; [|split; [exact Hh|exact Hframe]]];
  unfold run;
  rewrite (merge_video_and_audio_steps video video_path audio audio_path
             output_path options w HFF), after_muxer_outcome;
  cbn [fs]; fold args; rewrite Hfail; cbn [fst snd fs trace];
  try reflexivity.
  apply events_since_app. reflexivity.
Qed.

(** When the muxer [FFmpeg()] returned succeeds and the partial files of the
    present streams are there, [merge_video_and_audio] returns normally,
    having removed exactly these files, video first, and nothing else. *)
Theorem merge_removes_present_partial_files
    (video : option VideoUrlMeta) (video_path : Path)
    (audio : option AudioUrlMeta) (audio_path : Path)
    (output_path : Path) (options : ref) (w : World) (f1 : FS) :
  let args := render (merge_args ext video video_path audio audio_path
                        output_path (heap w options)) in
  let present := present_paths video video_path audio audio_path in
  let run := merge_video_and_audio ext video video_path audio audio_path
               output_path options w in
  FFmpeg ext = Ok tt ->
  ffmpeg_exec ext args (fs w) = Ok f1 ->
  NoDup present ->
  (forall p, p ∈ present -> is_Some (f1 !! p)) ->
  fst run = Ok tt
  /\ events_since w (snd run) = EvFFmpegExec args :: map EvUnlink present
  /\ forall p, fs (snd run) !! p
               = if bool_decide (p ∈ present) then None else f1 !! p.
Proof.
  intros args present run HFF Hok Hnd Hex.
  destruct (unlink_all_present present f1 Hnd Hex) as (f' & Hrun & Hlk).
  unfold run.
  rewrite (merge_video_and_audio_steps video video_path audio audio_path
             output_path options w HFF), after_muxer_outcome.
  cbn [fs]. fold args. rewrite Hok. fold present. rewrite Hrun.
  cbn [fst snd fs trace]. split; [reflexivity|]. split; [|exact Hlk].
  apply events_since_app. rewrite <- app_assoc. reflexivity.
Qed.

(** When the partial file of the video is not there after the muxer
    [FFmpeg()] returned has run, [merge_video_and_audio] raises
    [FileNotFoundError]: the muxer has been started all the same, and the
    audio file is left where it is. *)
Theorem merge_missing_video_partial
    (v : VideoUrlMeta) (video_path : Path)
    (audio : option AudioUrlMeta) (audio_path : Path)
    (output_path : Path) (options : ref) (w : World) (f1 : FS) :
  let args := render (merge_args ext (Some v) video_path audio audio_path
                        output_path (heap w options)) in
  let run := merge_video_and_audio ext (Some v) video_path audio audio_path
               output_path options w in
  FFmpeg ext = Ok tt ->
  ffmpeg_exec ext args (fs w) = Ok f1 ->
  f1 !! video_path = None ->
  fst run = Raise FileNotFoundError
  /\ fs (snd run) = f1
  /\ events_since w (snd run) = [EvFFmpegExec args; EvUnlink video_path].
Proof.
  intros args run HFF Hok Hmiss.
  unfold run.
  rewrite (merge_video_and_audio_steps (Some v) video_path audio audio_path
             output_path options w HFF), after_muxer_outcome.
  cbn [fs]. fold args. rewrite Hok. unfold present_paths. simpl.
  rewrite Hmiss. cbn [fst snd fs trace].
  split; [reflexivity|]. split; [reflexivity|].
  apply events_since_app. rewrite <- app_assoc. reflexivity.
Qed.

Lemma merge_args_stable (video : option VideoUrlMeta) (vp : Path)
    (audio : option AudioUrlMeta) (ap out : Path) (o : DownloaderOptions) :
  merge_args ext video vp audio ap out (after_codec_check video audio o)
  = merge_args ext video vp audio ap out o.
Proof.
  unfold merge_args.
  rewrite !video_save_codec_after, !audio_save_codec_after.
  f_equal.
  - destruct video as [v|]; [|reflexivity]. simpl. f_equal.
    destruct (String.eqb_spec (v_codec v) (video_save_codec o)) as [He|He];
      [|apply String.eqb_neq in He; rewrite He; reflexivity].
    destruct (String.eqb (v_codec v) "copy"); reflexivity.
  - destruct audio as [a|]; [|reflexivity]. simpl. f_equal.
    destruct (String.eqb_spec (a_codec a) (audio_save_codec o)) as [He|He];
      [|apply String.eqb_neq in He; rewrite He; reflexivity].
    destruct (String.eqb (a_codec a) "copy"); reflexivity.
  - destruct video as [v|]; simpl.
    + destruct (String.eqb_spec (v_codec v) (video_save_codec o)) as [He|He];
        [|reflexivity].
      simpl. rewrite <- He.
      destruct (String.eqb_spec (v_codec v) "hevc") as [Hv|Hv];
      destruct (String.eqb_spec (v_codec v) "copy") as [Hc|Hc];
        try reflexivity; congruence.
    + reflexivity.
Qed.

(** Merging the same streams again through the same options gives the same
    command line for the muxer [FFmpeg()] returned: the rewriting of the
    options to [copy] does not change what the muxer is asked for these
    streams. *)
Theorem merge_again_same_command_line
    (video : option VideoUrlMeta) (video_path : Path)
    (audio : option AudioUrlMeta) (audio_path : Path)
    (output_path : Path) (options : ref) (w : World) :
  FFmpeg ext = Ok tt ->
  exists (args : list string) (post : list Event),
    let w' := snd (merge_video_and_audio ext video video_path audio
                     audio_path output_path options w) in
    trace w' = trace w ++ EvFFmpegExec args :: post
    /\ forall w1 : World,
         heap w1 options = heap w' options ->
         exists post1,
           trace (snd (merge_video_and_audio ext video video_path audio
                         audio_path output_path options w1))
           = trace w1 ++ EvFFmpegExec args :: post1.
Proof.
  intros HFF.
  destruct (merge_video_and_audio_run ext video video_path audio audio_path
              output_path options w HFF) as (post & Ht & _ & Hh & _).
  eexists _, post. split; [exact Ht|].
  intros w1 Hw1.
  destruct (merge_video_and_audio_run ext video video_path audio audio_path
              output_path options w1 HFF) as (post1 & Ht1 & _).
  exists post1. rewrite Ht1, Hw1. cbv zeta in Hh. rewrite Hh.
  rewrite merge_args_stable. reflexivity.
Qed.

End MergeMore.

Lemma muxer_failure_stops_the_merge_witness :
  let w := sample_world sample_options
             {[ "tmp/ep1_video.m4s" := 2500000 ]} in
  events_since w
    (snd (merge_video_and_audio failing_muxer_ext (Some hevc_video)
            "tmp/ep1_video.m4s" None "tmp/ep1_audio.m4s" "out/ep1.mp4"
            0%nat w))
  = [EvFFmpegExec ["-i"; "tmp/ep1_video.m4s"; "-vcodec"; "copy";
                   "-strict"; "unofficial"; "-tag:v"; "hvc1";
                   "-threads"; "8"; "-y"; "out/ep1.mp4"]].
Proof.
  intros w.
  refine (proj1 (proj2 (muxer_failure_stops_the_merge failing_muxer_ext
                          (Some hevc_video) "tmp/ep1_video.m4s" None
                          "tmp/ep1_audio.m4s" "out/ep1.mp4" 0%nat w
                          (ExternalError "ffmpeg") eq_refl _))).
  reflexivity.
Defined.

Lemma merge_removes_present_partial_files_witness :
  let w := sample_world sample_options
             {[ "tmp/ep1_video.m4s" := 2500000;
                "tmp/ep1_audio.m4s" := 2500000 ]} in
  fst (merge_video_and_audio sample_ext (Some hevc_video)
         "tmp/ep1_video.m4s" (Some mp4a_audio) "tmp/ep1_audio.m4s"
         "out/ep1.mp4" 0%nat w)
  = Ok tt.
Proof.
  intros w.
  refine (proj1 (merge_removes_present_partial_files sample_ext
                   (Some hevc_video) "tmp/ep1_video.m4s" (Some mp4a_audio)
                   "tmp/ep1_audio.m4s" "out/ep1.mp4" 0%nat w _ eq_refl
                   eq_refl _ _)).
  - refine (bool_decide_unpack _ _). vm_compute. exact I.
  - intros p Hp.
    apply elem_of_cons in Hp as [Hp|Hp];
      [|apply list_elem_of_singleton in Hp];
      subst p; eexists; vm_compute; reflexivity.
Defined.

Lemma merge_missing_video_partial_witness :
  fst (merge_video_and_audio sample_ext (Some hevc_video)
         "tmp/ep1_video.m4s" (Some mp4a_audio) "tmp/ep1_audio.m4s"
         "out/ep1.mp4" 0%nat
         (sample_world sample_options {[ "tmp/ep1_audio.m4s" := 9 ]}))
  = Raise FileNotFoundError.
Proof.
  refine (proj1 (merge_missing_video_partial sample_ext hevc_video
                   "tmp/ep1_video.m4s" (Some mp4a_audio)
                   "tmp/ep1_audio.m4s" "out/ep1.mp4" 0%nat
                   (sample_world sample_options
                      {[ "tmp/ep1_audio.m4s" := 9 ]}) _ eq_refl eq_refl _)).
  vm_compute. reflexivity.
Defined.

Lemma tag_iff_output_is_hevc_witness :
  exists (args : MuxerArgs) (post : list Event),
    trace (snd (merge_video_and_audio sample_ext (Some avc_video)
                  "tmp/ep1_video.m4s" None "tmp/ep1_audio.m4s"
                  "out/ep1.mp4" 0%nat (sample_world sample_options ∅)))
    = EvFFmpegExec (render args) :: post
    /\ (video_tag args = Some "hvc1" <->
        video_directive args = Some "hevc"
        \/ (video_directive args = Some "copy" /\ "avc" = "hevc")).
Proof.
  destruct (tag_iff_output_is_hevc sample_ext avc_video
              "tmp/ep1_video.m4s" None "tmp/ep1_audio.m4s" "out/ep1.mp4"
              0%nat (sample_world sample_options ∅) eq_refl)
    as (args & post & Ht & _ & Htag).
  exists args, post. split; [exact Ht|exact Htag].
Defined.

Lemma merge_again_same_command_line_witness :
  exists (args : list string) (post : list Event),
    trace (snd (merge_video_and_audio sample_ext (Some hevc_video)
                  "tmp/ep1_video.m4s" None "tmp/ep1_audio.m4s"
                  "out/ep1.mp4" 0%nat (sample_world sample_options ∅)))
    = EvFFmpegExec args :: post
    /\ exists post1,
         trace (snd (merge_video_and_audio sample_ext (Some hevc_video)
                       "tmp/ep1_video.m4s" None "tmp/ep1_audio.m4s"
                       "out/ep1.mp4" 0%nat
                       (sample_world
                          (set_video_save_codec "copy" sample_options) ∅)))
         = EvFFmpegExec args :: post1.
Proof.
  destruct (merge_again_same_command_line sample_ext (Some hevc_video)
              "tmp/ep1_video.m4s" None "tmp/ep1_audio.m4s" "out/ep1.mp4"
              0%nat (sample_world sample_options ∅) eq_refl)
    as (args & post & Ht & Hagain).
  exists args, post. split; [exact Ht|].
  apply (Hagain (sample_world (set_video_save_codec "copy" sample_options)
                   ∅)).
  vm_compute. reflexivity.
Defined.


(** ** The download, continued *)

Section DownloadMore.

Variable ext : Collaborators.

Lemma stream_coroutines_eq (url : string) (mirrors : list string)
    (path : Path) (options : ref) (w : World) :
  stream_coroutines ext url mirrors path options w
  = (stream_plan ext url mirrors path (heap w options) (fs w),
     {| heap := heap w;
        fs := <[path := written_size (heap w options) (fs w) path]> (fs w);
        trace := trace w
                 ++ [EvOpenBuffer path (overwrite (heap w options));
                     EvGetSize url] |}).
Proof.
  destruct w as [h f t].
  unfold stream_coroutines, stream_plan, written_size, AsyncFileBuffer,
    open_file.
  run_m. simpl.
  destruct (get_size ext url) as [size|e]; simpl;
    [|rewrite <- app_assoc; reflexivity].
  destruct (slice_blocks _ size _) as [blocks|e]; simpl;
    rewrite <- app_assoc; reflexivity.
Qed.


Lemma bind_ret_run {A B} (a : A) (k : A -> M B) (w : World) :
  (ret a ≫= k) w = k a w.
Proof. reflexivity. Qed.

Lemma bind_stream_run {B} (url : string) (mirrors : list string)
    (path : Path) (options : ref)
    (k : option (Path * option Z * list Task) -> M B) (w : World) :
  ((r ← stream_coroutines ext url mirrors path options; ret (Some r)) ≫= k) w
  = let w1 := {| heap := heap w;
                 fs := <[path := written_size (heap w options) (fs w) path]>
                         (fs w);
                 trace := trace w
                          ++ [EvOpenBuffer path (overwrite (heap w options));
                              EvGetSize url] |} in
    match stream_plan ext url mirrors path (heap w options) (fs w) with
    | Ok r => k (Some r) w1
    | Raise e => (Raise e, w1)
    end.
Proof.
  unfold mbind, M_bind, bind. rewrite stream_coroutines_eq.
  destruct (stream_plan _ _ _ _ _ _); reflexivity.
Qed.

Lemma bind_try_fs_run {B} (F : FS -> result FS) (k : unit -> M B)
    (w : World) :
  (try_fs F ≫= k) w
  = match F (fs w) with
    | Ok f' => k tt {| heap := heap w; fs := f'; trace := trace w |}
    | Raise e => (Raise e, w)
    end.
Proof.
  unfold mbind, M_bind, bind, try_fs. destruct (F (fs w)); reflexivity.
Qed.

Lemma stream_plan_buffer (url : string) (mirrors : list string)
    (path : Path) (o : DownloaderOptions) (f : FS)
    (r : Path * option Z * list Task) :
  stream_plan ext url mirrors path o f = Ok r -> fst (fst r) = path.
Proof.
  unfold stream_plan. destruct (get_size ext url); [|discriminate].
  destruct (slice_blocks _ _ _); [|discriminate].
  intros [= <-]. reflexivity.
Qed.

(** Splits a run of [download_video_and_audio] into its cases. *)
Ltac download_cases video audio :=
  unfold download_video_and_audio;
  rewrite bind_getitem_run, bind_emit_run;
  destruct video as [?v|];
  [rewrite bind_stream_run; cbv zeta;
   destruct (stream_plan _ (v_url _) _ _ _ _) as [?rv|?e] eqn:?Hv
  |rewrite bind_ret_run];
  try (destruct audio as [?a|];
       [rewrite bind_stream_run; cbv zeta;
        destruct (stream_plan _ (a_url _) _ _ _ _) as [?ra|?e] eqn:?Ha
       |rewrite bind_ret_run]);
  try (rewrite bind_emit_run, bind_try_fs_run;
       destruct (gather ext _ _) as [?f3|?e] eqn:?Hg).

Lemma download_buffers
    (video : option VideoUrlMeta) (vp : Path)
    (audio : option AudioUrlMeta) (ap : Path) (options : ref) (w : World) :
  let run := download_video_and_audio ext video vp audio ap options w in
  let evs := events_since w (snd run) in
  (fst run = Ok tt ->
     opened_buffers evs = present_paths video vp audio ap
     /\ closed_buffers evs = present_paths video vp audio ap)
  /\ (forall e, fst run = Raise e -> closed_buffers evs = []).
Proof.
  cbv zeta. unfold events_since, present_paths.
  destruct w as [h f t].
  download_cases video audio.
  all: repeat match goal with
              | H : stream_plan _ _ _ _ _ _ = Ok _ |- _ =>
                apply stream_plan_buffer in H
              end.
  all: cbn [heap fs trace fst snd] in *; simpl; run_m; simpl;
    rewrite <- ?app_assoc; rewrite drop_app_length; simpl;
    rewrite ?Hv, ?Ha;
    (split; [intros H; try discriminate H; auto
            |intros e' H; try discriminate H; auto]).
Qed.


Lemma stream_plan_inv (url : string) (mirrors : list string)
    (path : Path) (o : DownloaderOptions) (f : FS)
    (r : Path * option Z * list Task) :
  stream_plan ext url mirrors path o f = Ok r ->
  exists size blocks,
    get_size ext url = Ok size
    /\ slice_blocks (written_size o f path) size (block_size o) = Ok blocks
    /\ r = (path, size,
            map (fun '(offset, block_size) =>
                   download_file_with_offset url mirrors path offset
                     block_size) blocks).
Proof.
  unfold stream_plan. destruct (get_size ext url) as [size|]; [|discriminate].
  destruct (slice_blocks _ _ _) as [blocks|] eqn:Hs; [|discriminate].
  intros [= <-]. exists size, blocks. auto.
Qed.

Lemma xmerge_rounds_single {A} (n : nat) (l : list A) :
  (length l <= n)%nat -> xmerge_rounds n [l] = l.
Proof.
  revert l. induction n as [|n IH]; intros [|x l] Hn; simpl in *;
    try reflexivity; try lia.
  - clear. induction n as [|n IH]; [reflexivity|exact IH].
  - f_equal. apply IH. lia.
Qed.

Lemma xmerge_single {A} (l : list A) : xmerge [l] = l.
Proof. apply xmerge_rounds_single. simpl. lia. Qed.

Lemma omap_xmerge_rounds_S {A B} (g : A -> option B) (n : nat)
    (l1 l2 : list A) :
  omap g (xmerge_rounds (S n) [l1; l2])
  = omap g (omap head [l1; l2]) ++ omap g (xmerge_rounds n [tail l1; tail l2]).
Proof. simpl xmerge_rounds. apply omap_app. Qed.

Lemma omap_xmerge_rounds_left {A B} (g : A -> option B) (n : nat)
    (l1 l2 : list A) :
  (forall y, y ∈ l2 -> g y = None) -> (length l1 <= n)%nat ->
  omap g (xmerge_rounds n [l1; l2]) = omap g l1.
Proof.
  revert l1 l2. induction n as [|n IH]; intros l1 l2 H2 Hn.
  - destruct l1; [reflexivity|simpl in Hn; lia].
  - rewrite omap_xmerge_rounds_S, IH.
    + destruct l1 as [|x l1], l2 as [|y l2]; simpl;
        [reflexivity
        |rewrite (H2 y) by left; reflexivity
        |destruct (g x); reflexivity
        |rewrite (H2 y) by left; destruct (g x); reflexivity].
    + intros y Hy. apply H2. destruct l2; [inversion Hy|right; exact Hy].
    + destruct l1; simpl in *; lia.
Qed.

Lemma omap_xmerge_rounds_right {A B} (g : A -> option B) (n : nat)
    (l1 l2 : list A) :
  (forall x, x ∈ l1 -> g x = None) -> (length l2 <= n)%nat ->
  omap g (xmerge_rounds n [l1; l2]) = omap g l2.
Proof.
  revert l1 l2. induction n as [|n IH]; intros l1 l2 H1 Hn.
  - destruct l2; [reflexivity|simpl in Hn; lia].
  - rewrite omap_xmerge_rounds_S, IH.
    + destruct l1 as [|x l1], l2 as [|y l2]; simpl;
        [reflexivity
        |destruct (g y); reflexivity
        |rewrite (H1 x) by left; reflexivity
        |rewrite (H1 x) by left; destruct (g y); reflexivity].
    + intros x Hx. apply H1. destruct l1; [inversion Hx|right; exact Hx].
    + destruct l2; simpl in *; lia.
Qed.

Lemma ranges_for_own (url : string) (mirrors : list string) (path : Path)
    (blocks : list Block) :
  ranges_for path
    (map (fun '(offset, block_size) =>
            download_file_with_offset url mirrors path offset block_size)
         blocks)
  = blocks.
Proof.
  unfold ranges_for. induction blocks as [|[off sz] blocks IH];
    simpl in *; [reflexivity|].
  rewrite String.eqb_refl. f_equal. exact IH.
Qed.

Lemma range_for_other (url : string) (mirrors : list string)
    (path other : Path) (blocks : list Block) (t : Task) :
  path <> other ->
  t ∈ map (fun '(offset, block_size) =>
             download_file_with_offset url mirrors other offset block_size)
          blocks ->
  range_for path t = None.
Proof.
  intros Hne Ht. apply list_elem_of_fmap in Ht as ([off sz] & -> & _).
  simpl. apply String.eqb_neq in Hne. rewrite String.eqb_sym, Hne.
  reflexivity.
Qed.

Lemma ranges_for_progress (path : Path) (buffers : list Path) (total : Z)
    (l : list Task) :
  ranges_for path (show_progress buffers total :: l) = ranges_for path l.
Proof. reflexivity. Qed.

Lemma list_omap_nil_all {A B} (g : A -> option B) (l : list A) :
  (forall x, x ∈ l -> g x = None) -> omap g l = [].
Proof.
  induction l as [|x l IH]; intros H; [reflexivity|]. simpl.
  rewrite (H x) by left. apply IH. intros y Hy. apply H. right. exact Hy.
Qed.

Lemma ranges_for_xmerge_left (path : Path) (l1 l2 : list Task) :
  (forall t, t ∈ l2 -> range_for path t = None) ->
  ranges_for path (xmerge [l1; l2]) = ranges_for path l1.
Proof.
  intros H. apply omap_xmerge_rounds_left; [exact H|]. simpl. lia.
Qed.

Lemma ranges_for_xmerge_right (path : Path) (l1 l2 : list Task) :
  (forall t, t ∈ l1 -> range_for path t = None) ->
  ranges_for path (xmerge [l1; l2]) = ranges_for path l2.
Proof.
  intros H. apply omap_xmerge_rounds_right; [exact H|]. simpl. lia.
Qed.

Lemma download_requests_plan
    (video : option VideoUrlMeta) (vp : Path)
    (audio : option AudioUrlMeta) (ap : Path) (options : ref) (w : World)
    (cs : list Task) :
  let o := heap w options in
  let run := download_video_and_audio ext video vp audio ap options w in
  let evs := events_since w (snd run) in
  vp <> ap ->
  cs ∈ gathered evs ->
  gathered evs = [cs]
  /\ (exists total,
        head cs = Some (show_progress (present_paths video vp audio ap)
                          total))
  /\ (forall v, video = Some v ->
        exists size blocks,
          get_size ext (v_url v) = Ok size
          /\ slice_blocks (written_size o (fs w) vp) size (block_size o)
             = Ok blocks
          /\ ranges_for vp cs = blocks)
  /\ (forall a, audio = Some a ->
        exists size blocks,
          get_size ext (a_url a) = Ok size
          /\ slice_blocks (written_size o (fs w) ap) size (block_size o)
             = Ok blocks
          /\ ranges_for ap cs = blocks)
  /\ (video = None -> ranges_for vp cs = [])
  /\ (audio = None -> ranges_for ap cs = []).
Proof.
  cbv zeta. unfold events_since, present_paths. intros Hne.
  destruct w as [h f t].
  download_cases video audio.
  all: repeat match goal with
              | H : stream_plan _ _ _ _ _ _ = Ok _ |- _ =>
                apply stream_plan_inv in H as (?size & ?blocks & ?Hs & ?Hb & ->)
              end.
  all: cbn [heap fs trace fst snd] in *; simpl; run_m; simpl;
    rewrite <- ?app_assoc; rewrite drop_app_length; simpl;
    intros Hcs; try (apply elem_of_nil in Hcs; contradiction);
    apply list_elem_of_singleton in Hcs; subst cs;
    (split; [reflexivity|]); (split; [eexists; reflexivity|]).
  all: assert (Hws : forall x,
         written_size (h options) (<[vp:=x]> f) ap
         = written_size (h options) f ap)
    by (intros; unfold written_size; rewrite lookup_insert_ne by exact Hne;
        reflexivity);
    rewrite ?Hws in *.
  all: repeat split;
    try (intros ? [= <-]); try (intros ?; discriminate); try (intros _);
    try (eexists _, _; split; [eassumption|]; split; [eassumption|]);
    rewrite ranges_for_progress;
    first
      [ rewrite ranges_for_xmerge_left
          by (intros; eapply range_for_other; [|eassumption]; congruence);
        apply ranges_for_own
      | rewrite ranges_for_xmerge_right
          by (intros; eapply range_for_other; [|eassumption]; congruence);
        apply ranges_for_own
      | rewrite xmerge_single; apply ranges_for_own
      | rewrite xmerge_single; unfold ranges_for;
        apply list_omap_nil_all; intros;
        eapply range_for_other; [|eassumption]; congruence
      | reflexivity ].
Qed.


(** A download that returns has closed the buffers it opened, those of the
    present streams, video first; a download that raises, whether the size
    query, the planning or a transfer failed, has closed none of the buffers
    it opened. *)
Theorem download_closes_buffers_only_on_success
    (video : option VideoUrlMeta) (vp : Path)
    (audio : option AudioUrlMeta) (ap : Path) (options : ref) (w : World) :
  let run := download_video_and_audio ext video vp audio ap options w in
  let evs := events_since w (snd run) in
  (fst run = Ok tt ->
     opened_buffers evs = present_paths video vp audio ap
     /\ closed_buffers evs = present_paths video vp audio ap)
  /\ (forall e, fst run = Raise e -> closed_buffers evs = []).
Proof. exact (download_buffers video vp audio ap options w). Qed.

(** The options dictionaries are only read by a download. *)
Lemma download_keeps_heap
    (video : option VideoUrlMeta) (vp : Path)
    (audio : option AudioUrlMeta) (ap : Path) (options : ref) (w : World) :
  heap (snd (download_video_and_audio ext video vp audio ap options w))
  = heap w.
Proof.
  destruct w as [h f t].
  download_cases video audio.
  all: cbn [heap fs trace fst snd] in *; simpl; run_m; simpl;
    repeat case_match; reflexivity.
Qed.

(** A download that returns has called [asyncio.gather] once. *)
Lemma download_gathers_once
    (video : option VideoUrlMeta) (vp : Path)
    (audio : option AudioUrlMeta) (ap : Path) (options : ref) (w : World) :
  let run := download_video_and_audio ext video vp audio ap options w in
  fst run = Ok tt ->
  exists cs, gathered (events_since w (snd run)) = [cs].
Proof.
  cbv zeta. unfold events_since.
  destruct w as [h f t].
  download_cases video audio.
  all: cbn [heap fs trace fst snd] in *; simpl; run_m; simpl;
    rewrite <- ?app_assoc; rewrite drop_app_length; simpl;
    intros H; try discriminate H; eauto.
Qed.

(** The coroutines of a download: [asyncio.gather] is called at most once;
    its first coroutine is the progress display over the buffers of the
    present streams; and the byte ranges requested for the file of a stream
    are, in order, the plan [slice_blocks] makes from the bytes already
    written, the size the server reports and the block size, no range more
    and none less (the two partial files being different files). *)
Theorem download_requests_the_plan
    (video : option VideoUrlMeta) (vp : Path)
    (audio : option AudioUrlMeta) (ap : Path) (options : ref) (w : World)
    (cs : list Task) :
  let o := heap w options in
  let run := download_video_and_audio ext video vp audio ap options w in
  let evs := events_since w (snd run) in
  vp <> ap ->
  cs ∈ gathered evs ->
  gathered evs = [cs]
  /\ (exists total,
        head cs = Some (show_progress (present_paths video vp audio ap)
                          total))
  /\ (forall v, video = Some v ->
        exists size blocks,
          get_size ext (v_url v) = Ok size
          /\ slice_blocks (written_size o (fs w) vp) size (block_size o)
             = Ok blocks
          /\ ranges_for vp cs = blocks)
  /\ (forall a, audio = Some a ->
        exists size blocks,
          get_size ext (a_url a) = Ok size
          /\ slice_blocks (written_size o (fs w) ap) size (block_size o)
             = Ok blocks
          /\ ranges_for ap cs = blocks)
  /\ (video = None -> ranges_for vp cs = [])
  /\ (audio = None -> ranges_for ap cs = []).
Proof. exact (download_requests_plan video vp audio ap options w cs). Qed.

Lemma slice_blocks_chain (r T b : Z) (bs : list Block) :
  r <= T -> 0 < b ->
  slice_blocks r (Some T) (Some b) = Ok bs -> chain r bs T.
Proof.
  intros HrT Hb Hs.
  rewrite slice_blocks_explicit in Hs by assumption. injection Hs as <-.
  pose proof (Z.div_mod (T - r) b ltac:(lia)) as Hdm.
  pose proof (Z.mod_pos_bound (T - r) b Hb) as Hbd.
  assert (Hq : 0 <= (T - r) / b) by (apply Z.div_pos; lia).
  pose proof (chain_uniform r b (Z.to_nat ((T - r) / b)) 0 Hb) as Hc.
  replace (r + Z.of_nat 0 * b) with r in Hc by lia.
  eapply chain_app; [exact Hc|].
  destruct (Z.eqb_spec ((T - r) mod b) 0) as [Hm|Hm]; simpl; lia.
Qed.

(** Where the other partial file is does not matter to the plan of a
    stream. *)
Lemma stream_plan_other_file (url : string) (mirrors : list string)
    (path other : Path) (o : DownloaderOptions) (f : FS) (x : Z) :
  other <> path ->
  stream_plan ext url mirrors path o (<[other := x]> f)
  = stream_plan ext url mirrors path o f.
Proof.
  intros Hne. unfold stream_plan, written_size.
  rewrite lookup_insert_ne by exact Hne. reflexivity.
Qed.

(** When the streams that are present can be planned, the download gets to
    [asyncio.gather] and calls it once, whether the transfers then succeed
    or not. *)
Lemma download_gathers_planned
    (video : option VideoUrlMeta) (vp : Path)
    (audio : option AudioUrlMeta) (ap : Path) (options : ref) (w : World) :
  let o := heap w options in
  let run := download_video_and_audio ext video vp audio ap options w in
  vp <> ap ->
  (forall v, video = Some v ->
     is_ok (stream_plan ext (v_url v) (v_mirrors v) vp o (fs w)) = true) ->
  (forall a, audio = Some a ->
     is_ok (stream_plan ext (a_url a) (a_mirrors a) ap o (fs w)) = true) ->
  exists cs, gathered (events_since w (snd run)) = [cs].
Proof.
  cbv zeta. unfold events_since. intros Hne Hvideo Haudio.
  destruct w as [h f t]. cbn [heap fs] in Hvideo, Haudio.
  download_cases video audio.
  all: cbn [heap fs trace fst snd] in *.
  all: repeat match goal with
              | H : stream_plan _ _ _ _ _ (<[_ := _]> _) = _ |- _ =>
                rewrite stream_plan_other_file in H by exact Hne
              end.
  all: try (specialize (Hvideo _ eq_refl));
    try (specialize (Haudio _ eq_refl));
    repeat match goal with
           | H : stream_plan _ _ _ _ _ _ = Raise _, H' : is_ok _ = true |- _ =>
             rewrite H in H'; discriminate H'
           end.
  all: cbn [heap fs trace fst snd] in *; simpl; run_m; simpl;
    rewrite <- ?app_assoc; rewrite drop_app_length; simpl; eauto.
Qed.

(** Resuming a video of known size: with [k] bytes of the partial file
    already there, [overwrite] off and a positive block size, and an audio,
    if there is one, whose size is reported and whose blocks can be planned,
    the download calls [asyncio.gather], once, and the byte ranges it
    requests there for the video file are in order, contiguous and disjoint,
    and cover exactly the bytes from [k] to the size the server reports;
    with [overwrite] on they cover the file from 0. *)
Theorem download_requests_the_remaining_bytes
    (v : VideoUrlMeta) (vp : Path)
    (audio : option AudioUrlMeta) (ap : Path) (options : ref) (w : World)
    (T b : Z) :
  let o := heap w options in
  let k := written_size o (fs w) vp in
  let run := download_video_and_audio ext (Some v) vp audio ap options w in
  vp <> ap ->
  get_size ext (v_url v) = Ok (Some T) ->
  block_size o = Some b -> 0 < b -> k <= T ->
  (forall a, audio = Some a ->
     exists size blocks,
       get_size ext (a_url a) = Ok size
       /\ slice_blocks (written_size o (fs w) ap) size (block_size o)
          = Ok blocks) ->
  exists cs : list Task,
    gathered (events_since w (snd run)) = [cs]
    /\ chain k (ranges_for vp cs) T
    /\ non_overlapping (ranges_for vp cs)
    /\ covers (ranges_for vp cs) k T.
Proof.
  intros o k run Hne Hsize Hbs Hb Hk Haudio.
  destruct (download_gathers_planned (Some v) vp audio ap options w Hne)
    as [cs Hcs].
  { intros v0 [= <-]. fold o. unfold stream_plan.
    rewrite Hsize, Hbs. fold k.
    rewrite slice_blocks_explicit by assumption. reflexivity. }
  { intros a Ha. destruct (Haudio a Ha) as (size & blocks & Hs & Hplan).
    fold o. unfold stream_plan. rewrite Hs, Hplan. reflexivity. }
  fold run in Hcs. exists cs. split; [exact Hcs|].
  assert (Hin : cs ∈ gathered (events_since w (snd run)))
    by (rewrite Hcs; left).
  destruct (download_requests_plan (Some v) vp audio ap options w cs Hne Hin)
    as (_ & _ & Hv & _).
  destruct (Hv v eq_refl) as (size & blocks & Hs & Hplan & Hr).
  fold o in Hplan, Hr. rewrite Hsize in Hs. injection Hs as <-.
  rewrite Hbs in Hplan. fold k in Hplan.
  pose proof (slice_blocks_chain k T b blocks Hk Hb Hplan) as Hc.
  cbv zeta in Hr. rewrite Hr.
  split; [exact Hc|]. split.
  - eapply chain_non_overlapping, Hc.
  - apply chain_covers, Hc.
Qed.

End DownloadMore.

Lemma download_closes_buffers_only_on_success_witness :
  closed_buffers
    (events_since (sample_world sample_options ∅)
       (snd (download_video_and_audio sample_ext (Some hevc_video)
               "tmp/ep1_video.m4s" (Some mp4a_audio) "tmp/ep1_audio.m4s"
               0%nat (sample_world sample_options ∅))))
  = ["tmp/ep1_video.m4s"; "tmp/ep1_audio.m4s"].
Proof.
  refine (proj2 (proj1 (download_closes_buffers_only_on_success sample_ext
                          (Some hevc_video) "tmp/ep1_video.m4s"
                          (Some mp4a_audio) "tmp/ep1_audio.m4s" 0%nat
                          (sample_world sample_options ∅)) _)).
  vm_compute. reflexivity.
Defined.

(** ** The orchestrator, continued *)

Section OrchestratorMore.

Variable ext : Collaborators.

Lemma unlink_all_ok (ps : list Path) (f f' : FS) (evs : list Event) :
  unlink_all ps f = (Ok tt, f', evs) -> evs = map EvUnlink ps.
Proof.
  revert f f' evs. induction ps as [|p ps IH]; intros f f' evs; simpl.
  - intros [= <- <-]. reflexivity.
  - destruct (f !! p); [|discriminate].
    destruct (unlink_all ps (delete p f)) as [[r f2] evs2] eqn:Hrec.
    intros [= -> <- <-]. f_equal. eapply IH, Hrec.
Qed.

(** A merge that returns has started the muxer and then removed the partial
    files of the present streams. *)
Lemma merge_video_and_audio_ok
    (video : option VideoUrlMeta) (vp : Path)
    (audio : option AudioUrlMeta) (ap out : Path) (options : ref)
    (w : World) :
  let run := merge_video_and_audio ext video vp audio ap out options w in
  fst run = Ok tt ->
  trace (snd run)
  = trace w
    ++ EvFFmpegExec (render (merge_args ext video vp audio ap out
                               (heap w options)))
    :: map EvUnlink (present_paths video vp audio ap).
Proof.
  cbv zeta. intros Hok.
  pose proof (merge_video_and_audio_returns_muxer ext video vp audio ap out
                options w Hok) as HFF.
  revert Hok.
  rewrite (merge_video_and_audio_steps ext video vp audio ap out options w
             HFF), after_muxer_outcome.
  cbn [fs].
  destruct (ffmpeg_exec ext _ (fs w)) as [f1|e]; [|discriminate].
  destruct (unlink_all _ f1) as [[r f2] evs] eqn:Hu.
  cbn [fst snd trace]. intros ->. apply unlink_all_ok in Hu. subst evs.
  rewrite <- app_assoc. reflexivity.
Qed.

(** The run of [start_downloader] that ends [Done], from start to end. *)
Lemma start_downloader_done (episode_data : EpisodeData) (options : ref)
    (w : World) :
  let o := heap w options in
  let out := output_path ext episode_data o in
  let vp := video_path ext episode_data in
  let ap := audio_path ext episode_data in
  let video := if will_download_video ext episode_data o
               then selected_video ext episode_data o else None in
  let audio := if will_download_audio ext episode_data o
               then selected_audio ext episode_data o else None in
  let run := start_downloader ext episode_data options w in
  fst run = Ok Done ->
  exists (found : bool) (dl : list Event),
    events_since w (snd run)
    = [EvMkdir (tmp_dir episode_data); EvMkdir (output_dir episode_data)]
      ++ ancillary_events ext episode_data o
      ++ [EvExists out found]
      ++ (if found then [EvUnlink out] else [])
      ++ dl
      ++ EvFFmpegExec (render (merge_args ext video vp audio ap out o))
      :: map EvUnlink (present_paths video vp audio ap)
    /\ Forall (download_event vp ap) dl
    /\ opened_buffers dl = present_paths video vp audio ap
    /\ closed_buffers dl = present_paths video vp audio ap
    /\ (exists cs, gathered dl = [cs])
    /\ heap (snd run) options = after_codec_check video audio o
    /\ (forall r, r <> options -> heap (snd run) r = heap w r).
Proof.
  intros o out vp ap video audio run Hdone.
  pose proof (start_downloader_returns_listed ext episode_data options w
                Done Hdone) as Hl.
  set (found := bool_decide
         (is_Some (fs_at_check ext episode_data o (fs w) !! out))).
  set (w0 := world_at_check ext episode_data options w).
  set (w1 := if found
             then {| heap := heap w0; fs := delete out (fs w0);
                     trace := trace w0 ++ [EvUnlink out] |}
             else w0).
  assert (Hrun : run =
            if found && negb (overwrite o) then (Ok Skipped, w0)
            else if negb (will_download_audio ext episode_data o
                          || will_download_video ext episode_data o)
                 then (Ok NothingToDo, w1)
                 else (download_video_and_audio ext video vp audio ap options;;
                       merge_video_and_audio ext video vp audio ap out
                         options;;
                       ret Done) w1)
    by exact (start_downloader_run ext episode_data options w Hl).
  assert (Htr1 : trace w1
            = trace w
              ++ [EvMkdir (tmp_dir episode_data);
                  EvMkdir (output_dir episode_data)]
              ++ ancillary_events ext episode_data o
              ++ [EvExists out found]
              ++ (if found then [EvUnlink out] else [])).
  { assert (Htr0 : trace w0
              = trace w
                ++ [EvMkdir (tmp_dir episode_data);
                    EvMkdir (output_dir episode_data)]
                ++ ancillary_events ext episode_data o
                ++ [EvExists out found]) by reflexivity.
    unfold w1. destruct found; cbn [trace]; rewrite Htr0;
      rewrite <- ?app_assoc; simpl; rewrite <- ?app_assoc, ?app_nil_r;
      reflexivity. }
  assert (Hh1 : heap w1 = heap w) by (unfold w1; destruct found; reflexivity).
  rewrite Hrun in Hdone |- *. clear Hrun.
  destruct (found && negb (overwrite o)); [discriminate|].
  destruct (negb _); [discriminate|].
  unfold mbind, M_bind, bind in Hdone |- *.
  pose proof (download_buffers ext video vp audio ap options w1) as Hbuf.
  pose proof (download_gathers_once ext video vp audio ap options w1) as Hg.
  pose proof (download_keeps_heap ext video vp audio ap options w1) as Hh2.
  destruct (emits_download_video_and_audio ext video vp audio ap options w1)
    as (dl & Htr2 & Hdl).
  cbv zeta in Hbuf, Hg.
  destruct (download_video_and_audio ext video vp audio ap options w1)
    as [[[]|e] w2]; [|discriminate].
  cbn [fst snd] in *.
  pose proof (merge_video_and_audio_ok video vp audio ap out options w2)
    as Hm.
  pose proof (merge_video_and_audio_returns_muxer ext video vp audio ap out
                options w2) as HFF.
  pose proof (merge_video_and_audio_run ext video vp audio ap out options w2)
    as Hmr.
  cbv zeta in Hm, Hmr.
  destruct (merge_video_and_audio ext video vp audio ap out options w2)
    as [[[]|e] w3]; [|discriminate].
  cbn [fst snd ret] in *.
  specialize (HFF eq_refl).
  destruct (Hmr HFF) as (_ & _ & _ & Hh3 & Hframe).
  specialize (Hm eq_refl). destruct (proj1 Hbuf eq_refl) as [Hop Hcl].
  destruct (Hg eq_refl) as [cs Hcs].
  assert (Hev : events_since w1 w2 = dl) by (apply events_since_app, Htr2).
  rewrite Hev in Hop, Hcl, Hcs.
  rewrite Hh2, Hh1 in Hm, Hh3, Hframe. fold o in Hm, Hh3.
  exists found, dl. split.
  { apply events_since_app. rewrite Hm, Htr2, Htr1, <- !app_assoc.
    reflexivity. }
  split; [exact Hdl|]. split; [exact Hop|]. split; [exact Hcl|].
  split; [eauto|]. split; [exact Hh3|exact Hframe].
Qed.


(** In a run that ends [Done] everything happens in this order: the two
    directories, the subtitle, danmaku and metadata files, the existence
    check (and the removal of the old output file), the download, the muxer,
    and the removal of the partial files.  The download opens and closes the
    buffers of exactly the streams that are downloaded and calls
    [asyncio.gather] once: when the muxer starts, every buffer is closed;
    the muxer runs exactly once; the partial files are removed only after
    it. *)
Theorem done_run_is_ordered (episode_data : EpisodeData) (options : ref)
    (w : World) :
  let o := heap w options in
  let out := output_path ext episode_data o in
  let vp := video_path ext episode_data in
  let ap := audio_path ext episode_data in
  let video := if will_download_video ext episode_data o
               then selected_video ext episode_data o else None in
  let audio := if will_download_audio ext episode_data o
               then selected_audio ext episode_data o else None in
  let run := start_downloader ext episode_data options w in
  fst run = Ok Done ->
  exists (found : bool) (dl : list Event),
    events_since w (snd run)
    = [EvMkdir (tmp_dir episode_data); EvMkdir (output_dir episode_data)]
      ++ ancillary_events ext episode_data o
      ++ [EvExists out found]
      ++ (if found then [EvUnlink out] else [])
      ++ dl
      ++ EvFFmpegExec (render (merge_args ext video vp audio ap out o))
      :: map EvUnlink (present_paths video vp audio ap)
    /\ Forall (download_event vp ap) dl
    /\ opened_buffers dl = present_paths video vp audio ap
    /\ closed_buffers dl = present_paths video vp audio ap
    /\ (exists cs, gathered dl = [cs]).
Proof.
  intros o out vp ap video audio run Hdone.
  destruct (start_downloader_done episode_data options w Hdone)
    as (found & dl & H1 & H2 & H3 & H4 & H5 & _).
  exists found, dl. auto.
Qed.

(** A run that ends [Done] leaves the caller's options rewritten by the
    codec check of the streams it downloaded, and no other dictionary
    changed. *)
Theorem done_run_rewrites_options (episode_data : EpisodeData)
    (options : ref) (w : World) :
  let o := heap w options in
  let video := if will_download_video ext episode_data o
               then selected_video ext episode_data o else None in
  let audio := if will_download_audio ext episode_data o
               then selected_audio ext episode_data o else None in
  let run := start_downloader ext episode_data options w in
  fst run = Ok Done ->
  video_save_codec (heap (snd run) options)
  = (if video_codec_is video (video_save_codec o) then "copy"
     else video_save_codec o)
  /\ audio_save_codec (heap (snd run) options)
     = (if audio_codec_is audio (audio_save_codec o) then "copy"
        else audio_save_codec o)
  /\ heap (snd run) options = after_codec_check video audio o
  /\ (forall r, r <> options -> heap (snd run) r = heap w r).
Proof.
  intros o video audio run Hdone.
  destruct (start_downloader_done episode_data options w Hdone)
    as (found & dl & _ & _ & _ & _ & _ & Hh & Hframe).
  fold o video audio run in Hh. rewrite Hh.
  rewrite video_save_codec_after, audio_save_codec_after. auto.
Qed.

Lemma quiet_events_kind (episode_data : EpisodeData) (o : DownloaderOptions)
    (b : bool) (del : list Event) :
  Forall (fun e => exists p, e = EvUnlink p) del ->
  Forall (fun e => is_network e = false /\ is_muxer e = false
                   /\ is_buffer_event e = false)
    ([EvMkdir (tmp_dir episode_data); EvMkdir (output_dir episode_data)]
     ++ ancillary_events ext episode_data o
     ++ [EvExists (output_path ext episode_data o) b] ++ del).
Proof.
  intros Hdel. simpl. do 2 (constructor; [auto|]).
  apply Forall_app_2.
  - unfold ancillary_events. repeat apply Forall_app_2.
    + apply Forall_forall. intros e He.
      apply list_elem_of_fmap in He as (s & -> & _). auto.
    + destruct (bool_decide _); repeat constructor.
    + destruct (metadata episode_data); repeat constructor.
  - constructor; [auto|].
    eapply Forall_impl; [exact Hdel|]. intros e [p ->]. auto.
Qed.

(** A run that ends [Skipped] or [NothingToDo] has left every options
    dictionary as it was, has made no network request, has opened no buffer
    and has not started the muxer.  The skipped run leaves the output file
    in place; the run with nothing to download has removed it if it was
    there, [overwrite] being on. *)
Theorem quiet_run_touches_nothing (episode_data : EpisodeData)
    (options : ref) (w : World) :
  let o := heap w options in
  let out := output_path ext episode_data o in
  let run := start_downloader ext episode_data options w in
  fst run = Ok Skipped \/ fst run = Ok NothingToDo ->
  heap (snd run) = heap w
  /\ Forall (fun e => is_network e = false /\ is_muxer e = false
                      /\ is_buffer_event e = false)
       (events_since w (snd run))
  /\ (fst run = Ok Skipped ->
        fs (snd run) = fs_at_check ext episode_data o (fs w)
        /\ is_Some (fs (snd run) !! out))
  /\ (fst run = Ok NothingToDo -> fs (snd run) !! out = None).
Proof.
  intros o out run Hquiet.
  assert (Hl : listing ext episode_data o = Ok tt)
    by (destruct Hquiet as [Hq|Hq];
        eapply start_downloader_returns_listed, Hq).
  set (found := bool_decide
         (is_Some (fs_at_check ext episode_data o (fs w) !! out))).
  set (w0 := world_at_check ext episode_data options w).
  set (w1 := if found
             then {| heap := heap w0; fs := delete out (fs w0);
                     trace := trace w0 ++ [EvUnlink out] |}
             else w0).
  pose proof (start_downloader_run ext episode_data options w Hl) as Hrun.
  cbv zeta in Hrun. fold o out in Hrun. fold w0 in Hrun.
  change (bool_decide (is_Some (fs w0 !! out))) with found in Hrun.
  fold w1 in Hrun. fold run in Hrun.
  pose proof (start_downloader_anatomy ext episode_data options w Hl) as Han.
  cbv zeta in Han. fold o out run found in Han.
  destruct Han as [(Hf & How & Hres & Hevs)
                  |[(Hsk & Hwd & Hres & Hevs)
                   |(_ & _ & Hres & _)]].
  - rewrite Hf, How in Hrun. cbn [andb negb] in Hrun.
    rewrite Hrun. cbn [fst snd]. split; [reflexivity|].
    split.
    { rewrite Hrun in Hevs. cbn [snd] in Hevs. rewrite Hevs.
      pose proof (quiet_events_kind episode_data o found []
                    (Forall_nil_2 _)) as Hk.
      rewrite Hf in *. rewrite app_nil_r in Hk. exact Hk. }
    split; [|discriminate].
    intros _. split; [reflexivity|].
    apply bool_decide_eq_true_1 in Hf. exact Hf.
  - rewrite Hsk in Hrun.
    assert (Hnwd : negb (will_download_audio ext episode_data o
                         || will_download_video ext episode_data o) = true)
      by (rewrite Hwd; reflexivity).
    rewrite Hnwd in Hrun. rewrite Hrun. cbn [fst snd].
    split; [unfold w1; destruct found; reflexivity|].
    split.
    { rewrite Hrun in Hevs. cbn [snd] in Hevs. rewrite Hevs.
      rewrite <- !app_assoc. apply quiet_events_kind.
      destruct found; repeat constructor. eauto. }
    split; [discriminate|]. intros _.
    unfold w1. destruct found eqn:Hfd; cbn [fs].
    + apply lookup_delete_eq.
    + apply bool_decide_eq_false_1 in Hfd.
      destruct (fs w0 !! out) eqn:Hlk; [|reflexivity].
      exfalso. apply Hfd. eauto.
  - destruct Hquiet as [Hq|Hq], Hres as [Hd|[e He]]; congruence.
Qed.

(** When neither stream is to be downloaded, because it is not asked for
    or because nothing was selected, and the two listings of the streams
    return, [start_downloader] returns [Skipped] or [NothingToDo]: it raises
    nothing and downloads nothing. *)
Theorem nothing_required_never_downloads (episode_data : EpisodeData)
    (options : ref) (w : World) :
  let o := heap w options in
  let run := start_downloader ext episode_data options w in
  listing ext episode_data o = Ok tt ->
  require_video o = false \/ selected_video ext episode_data o = None ->
  require_audio o = false \/ selected_audio ext episode_data o = None ->
  (fst run = Ok Skipped \/ fst run = Ok NothingToDo)
  /\ Forall (fun e => is_network e = false /\ is_muxer e = false
                      /\ is_buffer_event e = false)
       (events_since w (snd run)).
Proof.
  intros o run Hl Hv Ha.
  assert (Hwd : will_download_audio ext episode_data o
                || will_download_video ext episode_data o = false).
  { unfold will_download_audio, will_download_video.
    apply orb_false_iff. split.
    - destruct Ha as [->| ->]; [apply andb_false_r|reflexivity].
    - destruct Hv as [->| ->]; [apply andb_false_r|reflexivity]. }
  pose proof (start_downloader_anatomy ext episode_data options w Hl) as Han.
  cbv zeta in Han. fold o run in Han. rewrite Hwd in Han.
  destruct Han as [(_ & _ & Hres & Hevs)
                  |[(_ & _ & Hres & Hevs)
                   |(_ & Hc & _)]]; [| |discriminate].
  - split; [left; exact Hres|]. rewrite Hevs.
    pose proof (quiet_events_kind episode_data o
                  (bool_decide
                     (is_Some (fs_at_check ext episode_data o (fs w)
                               !! output_path ext episode_data o)))
                  [] (Forall_nil_2 _)) as Hk.
    rewrite app_nil_r in Hk. exact Hk.
  - split; [right; exact Hres|]. rewrite Hevs, <- !app_assoc.
    apply quiet_events_kind. destruct (bool_decide _); repeat constructor.
    eauto.
Qed.

(** In a run that gets past the two listings of the streams, the danmaku
    file is drawn for the size of the selected video whenever a video is
    selected, also when the video is not asked for and so not downloaded; it
    is drawn for 1920 x 1080 only when no video is selected. *)
Theorem danmaku_canvas_follows_selection (episode_data : EpisodeData)
    (options : ref) (w : World) :
  let o := heap w options in
  let out := output_path ext episode_data o in
  let run := start_downloader ext episode_data options w in
  listing ext episode_data o = Ok tt ->
  data (danmaku episode_data) <> [] ->
  (forall v, selected_video ext episode_data o = Some v ->
     EvWriteDanmaku (danmaku episode_data) out (v_height v) (v_width v)
     ∈ events_since w (snd run))
  /\ (selected_video ext episode_data o = None ->
     EvWriteDanmaku (danmaku episode_data) out 1080 1920
     ∈ events_since w (snd run)).
Proof.
  intros o out run Hl Hdata.
  assert (Hin : EvWriteDanmaku (danmaku episode_data) out
                  (danmaku_height (selected_video ext episode_data o))
                  (danmaku_width (selected_video ext episode_data o))
                ∈ events_since w (snd run)).
  { pose proof (start_downloader_anatomy ext episode_data options w Hl)
      as Han.
    cbv zeta in Han. fold o out run in Han.
    assert (Hanc : EvWriteDanmaku (danmaku episode_data) out
                     (danmaku_height (selected_video ext episode_data o))
                     (danmaku_width (selected_video ext episode_data o))
                   ∈ ancillary_events ext episode_data o).
    { unfold ancillary_events. fold out.
      apply elem_of_app. right. apply elem_of_app. left.
      rewrite bool_decide_eq_false_2 by exact Hdata. left. }
    assert (Hpre : forall rest,
      EvWriteDanmaku (danmaku episode_data) out
        (danmaku_height (selected_video ext episode_data o))
        (danmaku_width (selected_video ext episode_data o))
      ∈ [EvMkdir (tmp_dir episode_data); EvMkdir (output_dir episode_data)]
        ++ ancillary_events ext episode_data o ++ rest).
    { intros rest. apply elem_of_app. right. apply elem_of_app. left.
      exact Hanc. }
    destruct Han as [(_ & _ & _ & ->)
                    |[(_ & _ & _ & ->)
                     |(_ & _ & _ & post & -> & _)]];
      rewrite <- ?app_assoc; apply Hpre. }
  split.
  - intros v Hv. rewrite Hv in Hin. exact Hin.
  - intros Hv. rewrite Hv in Hin. exact Hin.
Qed.

End OrchestratorMore.

(** ** The space URL *)

Section SpaceUrl.

Variable is_decimal : N -> bool.

Lemma strip_prefix_app (p s : ustr) : strip_prefix p (p ++ s) = Some s.
Proof.
  induction p as [|a p IH]; [reflexivity|]. simpl.
  rewrite N.eqb_refl. exact IH.
Qed.

Lemma strip_prefix_Some (p s r : ustr) :
  strip_prefix p s = Some r -> s = p ++ r.
Proof.
  revert s. induction p as [|a p IH]; intros [|b s]; simpl;
    try (intros [= <-]; reflexivity); try discriminate.
  destruct (N.eqb_spec a b) as [->|]; [|discriminate].
  intros H. apply IH in H. subst s. reflexivity.
Qed.

Lemma span_decimal_spec (s ds rest : ustr) :
  span_decimal is_decimal s = (ds, rest) ->
  s = ds ++ rest
  /\ Forall (fun c => is_decimal c = true) ds
  /\ (forall c, head rest = Some c -> is_decimal c = false).
Proof.
  revert ds rest. induction s as [|c s IH]; intros ds rest; simpl.
  - intros [= <- <-]. repeat split; [constructor|discriminate].
  - destruct (is_decimal c) eqn:Hc.
    + destruct (span_decimal is_decimal s) as [ds' rest'].
      intros [= <- <-]. destruct (IH ds' rest' eq_refl) as (-> & Hd & Hr).
      repeat split; [constructor; assumption|exact Hr].
    + intros [= <- <-]. repeat split; [constructor|].
      intros c' [= <-]. exact Hc.
Qed.

Lemma span_decimal_app (ds rest : ustr) :
  Forall (fun c => is_decimal c = true) ds ->
  (forall c, head rest = Some c -> is_decimal c = false) ->
  span_decimal is_decimal (ds ++ rest) = (ds, rest).
Proof.
  intros Hd Hr. induction Hd as [|c ds Hc _ IH]; simpl.
  - destruct rest as [|c rest]; [reflexivity|]. simpl.
    rewrite (Hr c eq_refl). reflexivity.
  - rewrite Hc, IH. reflexivity.
Qed.


Lemma optional_s (s r : ustr) :
  s = [] \/ s = literal "s" ->
  optional_literal (literal "s") (s ++ literal "://space.bilibili.com/" ++ r)
  = (s, literal "://space.bilibili.com/" ++ r).
Proof.
  unfold optional_literal. intros [-> | ->]; [reflexivity|].
  rewrite strip_prefix_app. reflexivity.
Qed.

Lemma optional_literal_spec (p s o r : ustr) :
  optional_literal p s = (o, r) -> s = o ++ r /\ (o = [] \/ o = p).
Proof.
  unfold optional_literal.
  destruct (strip_prefix p s) as [x|] eqn:H; intros [= <- <-].
  - apply strip_prefix_Some in H. auto.
  - auto.
Qed.

(** Every URL made of [http] or [https], the host of the space pages, at
    least one decimal digit and then anything that does not go on with a
    digit, matches, and the digits become the [mid] of the extractor,
    whatever it held before. *)
Theorem space_url_matches (self : UserAllUgcVideosExtractor)
    (s digits rest : ustr) :
  s = [] \/ s = literal "s" ->
  digits <> [] ->
  Forall (fun c => is_decimal c = true) digits ->
  (forall c, head rest = Some c -> is_decimal c = false) ->
  extractor_match is_decimal self
    (literal "http" ++ s ++ literal "://space.bilibili.com/"
     ++ digits ++ rest)
  = (true, {| mid := Some digits |}).
Proof.
  intros Hs Hne Hd Hr. unfold extractor_match, REGEX_SPACE_match.
  rewrite strip_prefix_app, (optional_s s (digits ++ rest) Hs).
  rewrite strip_prefix_app, (span_decimal_app digits rest Hd Hr).
  destruct digits as [|d digits]; [contradiction|reflexivity].
Qed.

(** A URL that matches has that form, and the [mid] the extractor then holds
    is the whole run of digits after the host: not empty, decimal digits
    only, and not followed by another digit.  A URL that does not match
    leaves the extractor as it was, with the [mid] of an earlier match if
    there was one. *)
Theorem space_url_match_inversion (self self' : UserAllUgcVideosExtractor)
    (url : ustr) (answer : bool) :
  extractor_match is_decimal self url = (answer, self') ->
  (answer = true ->
     exists s digits rest,
       (s = [] \/ s = literal "s")
       /\ url = literal "http" ++ s ++ literal "://space.bilibili.com/"
                ++ digits ++ rest
       /\ digits <> []
       /\ Forall (fun c => is_decimal c = true) digits
       /\ (forall c, head rest = Some c -> is_decimal c = false)
       /\ mid self' = Some digits)
  /\ (answer = false -> self' = self).
Proof.
  unfold extractor_match, REGEX_SPACE_match.
  destruct (strip_prefix (literal "http") url) as [after_http|] eqn:H1;
    [|intros [= <- <-]; split; [discriminate|reflexivity]].
  apply strip_prefix_Some in H1. subst url.
  destruct (optional_literal (literal "s") after_http) as [s after_s] eqn:H2.
  apply optional_literal_spec in H2 as [-> Hs].
  destruct (strip_prefix (literal "://space.bilibili.com/") after_s)
    as [after_host|] eqn:H3;
    [|intros [= <- <-]; split; [discriminate|reflexivity]].
  apply strip_prefix_Some in H3. subst after_s.
  destruct (span_decimal is_decimal after_host) as [digits rest] eqn:H4.
  apply span_decimal_spec in H4 as (-> & Hd & Hr).
  destruct digits as [|d digits];
    [intros [= <- <-]; split; [discriminate|reflexivity]|].
  intros [= <- <-]. split; [|discriminate]. intros _.
  exists s, (d :: digits), rest. repeat split; auto; discriminate.
Qed.

Opaque literal.

(** The whole match is a prefix of the URL. *)
Lemma REGEX_SPACE_match_prefix (url : ustr) (match_obj : MatchObject) :
  REGEX_SPACE_match is_decimal url = Some match_obj ->
  exists rest, url = group_0 match_obj ++ rest.
Proof.
  unfold REGEX_SPACE_match.
  destruct (strip_prefix (literal "http") url) as [after_http|] eqn:H1;
    [|discriminate].
  apply strip_prefix_Some in H1. subst url.
  destruct (optional_literal (literal "s") after_http) as [s after_s] eqn:H2.
  apply optional_literal_spec in H2 as [-> _].
  destruct (strip_prefix (literal "://space.bilibili.com/") after_s)
    as [after_host|] eqn:H3; [|discriminate].
  apply strip_prefix_Some in H3. subst after_s.
  destruct (span_decimal is_decimal after_host) as [digits rest] eqn:H4.
  apply span_decimal_spec in H4 as (-> & _ & _).
  destruct digits as [|d digits]; [discriminate|].
  intros [= <-]. cbn [group_0].
  destruct (strip_prefix (literal "/video") rest) as [r|] eqn:H5.
  - apply strip_prefix_Some in H5. subst rest. exists r.
    cbn [default id]. rewrite <- ?app_assoc. simpl. rewrite <- ?app_assoc.
    reflexivity.
  - exists rest. cbn [default id]. rewrite app_nil_r, <- ?app_assoc.
    reflexivity.
Qed.

Transparent literal.

End SpaceUrl.

Lemma space_url_matches_witness :
  extractor_match ascii_decimal {| mid := None |}
    (literal "https://space.bilibili.com/100969474/video")
  = (true, {| mid := Some (literal "100969474") |}).
Proof.
  apply (space_url_matches ascii_decimal {| mid := None |}
           (literal "s") (literal "100969474") (literal "/video")).
  - right. reflexivity.
  - discriminate.
  - vm_compute. repeat constructor.
  - intros c [= <-]. reflexivity.
Defined.

Lemma space_url_match_inversion_witness :
  exists s digits rest,
    (s = [] \/ s = literal "s")
    /\ literal "http://space.bilibili.com/42/video"
       = literal "http" ++ s ++ literal "://space.bilibili.com/"
         ++ digits ++ rest
    /\ digits <> []
    /\ Forall (fun c => ascii_decimal c = true) digits
    /\ (forall c, head rest = Some c -> ascii_decimal c = false)
    /\ mid {| mid := Some (literal "42") |} = Some digits.
Proof.
  refine (proj1 (space_url_match_inversion ascii_decimal
                   {| mid := None |} {| mid := Some (literal "42") |}
                   (literal "http://space.bilibili.com/42/video") true _)
            eq_refl).
  reflexivity.
Defined.

(** URLs that do not match: another host, no digit, upper case, a leading
    blank. *)
Example space_url_rejections :
  fst (extractor_match ascii_decimal {| mid := None |}
         (literal "https://www.bilibili.com/video/BV1vZ4y1M7mQ")) = false
  /\ fst (extractor_match ascii_decimal {| mid := None |}
            (literal "https://space.bilibili.com/")) = false
  /\ fst (extractor_match ascii_decimal {| mid := None |}
            (literal "HTTPS://space.bilibili.com/1")) = false
  /\ fst (extractor_match ascii_decimal {| mid := None |}
            (literal " https://space.bilibili.com/1")) = false.
Proof. repeat split; reflexivity. Qed.

(** ** [extract] *)

Section Extract.

Variable service : SpaceApi.

Lemma collect_videos_benign (username : string) (avids : list AvId)
    (acc : list (UgcVideoListItem * string * string)) :
  (forall avid, avid ∈ avids ->
     benign (get_ugc_video_list service avid)
     /\ benign (touch_url service (to_url service avid))) ->
  exists infos evs,
    collect_videos service avids acc = (Got (acc ++ infos), evs)
    /\ map (fun '(ugc_video_item, title, pubdate) =>
              {| job_avid := item_avid ugc_video_item;
                 job_item := ugc_video_item;
                 job_title := title;
                 job_username := username;
                 job_pubdate := pubdate;
                 job_template := space_template |}) infos
       = flat_map (jobs_of_video service username) avids
    /\ listed evs = avids.
Proof.
  revert acc. induction avids as [|avid avids IH]; intros acc Hb.
  - exists [], []. simpl. rewrite app_nil_r. auto.
  - destruct (Hb avid ltac:(left)) as [Hl Ht].
    assert (Hb' : forall a, a ∈ avids ->
              benign (get_ugc_video_list service a)
              /\ benign (touch_url service (to_url service a)))
      by (intros a Ha; apply Hb; right; exact Ha).
    simpl. unfold jobs_of_video at 1.
    destruct (get_ugc_video_list service avid) as [l|[m| |what]];
      try contradiction.
    + destruct (touch_url service (to_url service avid)) as [[]|[m| |what]];
        try contradiction.
      * destruct (IH (acc ++ map (fun i => (i, title l, pubdate l)) (pages l))
                    Hb') as (infos & evs & Hc & Hj & Hls).
        rewrite Hc.
        exists (map (fun i => (i, title l, pubdate l)) (pages l) ++ infos).
        eexists. rewrite app_assoc. split; [reflexivity|]. split.
        -- rewrite map_app, Hj, map_map. reflexivity.
        -- simpl. rewrite Hls. reflexivity.
      * destruct (IH acc Hb') as (infos & evs & Hc & Hj & Hls).
        rewrite Hc. exists infos. eexists. split; [reflexivity|].
        split; [exact Hj|]. simpl. rewrite Hls. reflexivity.
    + destruct (IH acc Hb') as (infos & evs & Hc & Hj & Hls).
      rewrite Hc. exists infos. eexists. split; [reflexivity|].
      split; [exact Hj|]. simpl. rewrite Hls. reflexivity.
Qed.

(** When the name of the user and the list of their videos are obtained,
    and asking for the list or the page of a video raises nothing but
    [NotFoundError], [extract] returns one job for every page of every video
    whose list is found and whose page can be touched, in the order of the
    videos and of their pages, each with the title and date of its own video
    and the name of the user; a video that is not found gives no job and
    stops nothing.  The list of every video is asked for once, in order. *)
Theorem extract_lists_every_page (self : UserAllUgcVideosExtractor)
    (m : ustr) (username : string) (avids : list AvId) :
  mid self = Some m ->
  get_user_name service m = Got username ->
  get_user_space_all_videos_avids service m = Got avids ->
  (forall avid, avid ∈ avids ->
     benign (get_ugc_video_list service avid)
     /\ benign (touch_url service (to_url service avid))) ->
  fst (extract service self)
  = Got (flat_map (jobs_of_video service username) avids)
  /\ listed (snd (extract service self)) = avids.
Proof.
  intros Hm Hu Ha Hb. unfold extract. rewrite Hm, Hu, Ha.
  destruct (collect_videos_benign username avids [] Hb)
    as (infos & evs & Hc & Hj & Hls).
  rewrite Hc. simpl. rewrite Hj. auto.
Qed.

Lemma collect_videos_abort (before after : list AvId) (avid : AvId)
    (e : ApiExc) (acc : list (UgcVideoListItem * string * string)) :
  (forall a, a ∈ before ->
     benign (get_ugc_video_list service a)
     /\ benign (touch_url service (to_url service a))) ->
  (forall message, e <> NotFoundError message) ->
  get_ugc_video_list service avid = Failed e ->
  exists evs,
    collect_videos service (before ++ avid :: after) acc = (Failed e, evs)
    /\ listed evs = before ++ [avid].
Proof.
  intros Hb He Hfail. revert acc.
  induction before as [|a before IH]; intros acc.
  - simpl. rewrite Hfail.
    destruct e as [message| |what]; [destruct (He message eq_refl)| |];
      eexists; split; reflexivity.
  - destruct (Hb a ltac:(left)) as [Hl Ht].
    assert (Hb' : forall a0, a0 ∈ before ->
              benign (get_ugc_video_list service a0)
              /\ benign (touch_url service (to_url service a0)))
      by (intros a0 Ha0; apply Hb; right; exact Ha0).
    specialize (IH Hb'). simpl.
    destruct (get_ugc_video_list service a) as [l|[msg| |what]];
      try contradiction.
    + destruct (touch_url service (to_url service a)) as [[]|[msg| |what]];
        try contradiction.
      * destruct (IH (acc ++ map (fun i => (i, title l, pubdate l)) (pages l)))
          as (evs & Hc & Hls).
        rewrite Hc. eexists. split; [reflexivity|]. simpl. rewrite Hls.
        reflexivity.
      * destruct (IH acc) as (evs & Hc & Hls).
        rewrite Hc. eexists. split; [reflexivity|]. simpl. rewrite Hls.
        reflexivity.
    + destruct (IH acc) as (evs & Hc & Hls).
      rewrite Hc. eexists. split; [reflexivity|]. simpl. rewrite Hls.
      reflexivity.
Qed.

(** When the list of a video raises anything other than [NotFoundError],
    [extract] raises it too: no job is returned, not even for the videos
    listed before, and no later video is asked for. *)
Theorem extract_aborts_on_other_errors (self : UserAllUgcVideosExtractor)
    (m : ustr) (username : string) (before after : list AvId) (avid : AvId)
    (e : ApiExc) :
  mid self = Some m ->
  get_user_name service m = Got username ->
  get_user_space_all_videos_avids service m
  = Got (before ++ avid :: after) ->
  (forall a, a ∈ before ->
     benign (get_ugc_video_list service a)
     /\ benign (touch_url service (to_url service a))) ->
  (forall message, e <> NotFoundError message) ->
  get_ugc_video_list service avid = Failed e ->
  fst (extract service self) = Failed e
  /\ listed (snd (extract service self)) = before ++ [avid].
Proof.
  intros Hm Hu Ha Hb He Hfail. unfold extract. rewrite Hm, Hu, Ha.
  destruct (collect_videos_abort before after avid e [] Hb He Hfail)
    as (evs & Hc & Hls).
  rewrite Hc. simpl. auto.
Qed.

End Extract.

Lemma extract_lists_every_page_witness :
  fst (extract sample_service {| mid := Some (literal "100969474") |})
  = Got (flat_map (jobs_of_video sample_service "up") ["BV1"; "BV2"; "BV3"]).
Proof.
  refine (proj1 (extract_lists_every_page sample_service
                   {| mid := Some (literal "100969474") |}
                   (literal "100969474") "up" ["BV1"; "BV2"; "BV3"]
                   eq_refl eq_refl eq_refl _)).
  intros avid Havid.
  repeat (apply elem_of_cons in Havid as [Havid|Havid];
          [subst avid; split; exact I|]).
  inversion Havid.
Defined.

Lemma extract_aborts_on_other_errors_witness :
  fst (extract broken_service {| mid := Some (literal "100969474") |})
  = Failed (ApiError "HTTP 412").
Proof.
  refine (proj1 (extract_aborts_on_other_errors broken_service
                   {| mid := Some (literal "100969474") |}
                   (literal "100969474") "up" ["BV1"] ["BV3"] "BV2"
                   (ApiError "HTTP 412") eq_refl eq_refl eq_refl _ _
                   eq_refl)).
  - intros a Ha. apply list_elem_of_singleton in Ha. subst a.
    split; exact I.
  - discriminate.
Defined.

(** The sample user: two pages for each of the two videos that are there,
    none for the one that is gone. *)
Example extract_sample :
  map (fun j => (job_avid j, item_name (job_item j), job_title j))
    (match fst (extract sample_service
                  {| mid := Some (literal "100969474") |}) with
     | Got jobs => jobs
     | Failed _ => []
     end)
  = [("BV1", "p1", "t-BV1"); ("BV1", "p2", "t-BV1");
     ("BV3", "p1", "t-BV3"); ("BV3", "p2", "t-BV3")].
Proof. reflexivity. Qed.

(** ** More runs on the sample environment *)

Lemma download_requests_the_plan_witness :
  ranges_for "tmp/ep1_video.m4s"
    [show_progress ["tmp/ep1_video.m4s"] 2500000;
     download_file_with_offset "https://cdn/v-hevc" ["https://mirror/v-hevc"]
       "tmp/ep1_video.m4s" 2000000 (Some 500000)]
  = [(2000000, Some 500000)].
Proof.
  destruct (download_requests_the_plan sample_ext (Some hevc_video)
              "tmp/ep1_video.m4s" None "tmp/ep1_audio.m4s" 0%nat
              (sample_world sample_options
                 {[ "tmp/ep1_video.m4s" := 2000000 ]})
              [show_progress ["tmp/ep1_video.m4s"] 2500000;
               download_file_with_offset "https://cdn/v-hevc"
                 ["https://mirror/v-hevc"] "tmp/ep1_video.m4s" 2000000
                 (Some 500000)])
    as (_ & _ & Hv & _).
  - discriminate.
  - vm_compute. left.
  - destruct (Hv hevc_video eq_refl) as (size & blocks & Hsz & Hplan & Hr).
    injection Hsz as <-. vm_compute in Hplan. injection Hplan as <-.
    exact Hr.
Defined.

Lemma download_requests_the_remaining_bytes_witness :
  let w := sample_world sample_options
             {[ "tmp/ep1_video.m4s" := 2000000 ]} in
  exists cs : list Task,
    gathered
      (events_since w
         (snd (download_video_and_audio sample_ext (Some hevc_video)
                 "tmp/ep1_video.m4s" None "tmp/ep1_audio.m4s" 0%nat w)))
    = [cs]
    /\ chain 2000000 (ranges_for "tmp/ep1_video.m4s" cs) 2500000.
Proof.
  intros w.
  destruct (download_requests_the_remaining_bytes sample_ext hevc_video
              "tmp/ep1_video.m4s" None "tmp/ep1_audio.m4s" 0%nat w
              2500000 1000000) as (cs & Hcs & Hchain & _).
  - discriminate.
  - reflexivity.
  - reflexivity.
  - lia.
  - vm_compute. discriminate.
  - intros a Ha. discriminate Ha.
  - exists cs. split; [exact Hcs|exact Hchain].
Defined.

Lemma done_run_is_ordered_witness :
  exists (found : bool) (dl : list Event),
    events_since (sample_world overwriting_options {[ "out/ep1.mp4" := 7 ]})
      (snd (start_downloader sample_ext
              (sample_episode [hevc_video] [mp4a_audio]) 0%nat
              (sample_world overwriting_options {[ "out/ep1.mp4" := 7 ]})))
    = [EvMkdir "tmp"; EvMkdir "out"]
      ++ ancillary_events sample_ext
           (sample_episode [hevc_video] [mp4a_audio]) overwriting_options
      ++ [EvExists "out/ep1.mp4" found]
      ++ (if found then [EvUnlink "out/ep1.mp4"] else [])
      ++ dl
      ++ EvFFmpegExec
           ["-i"; "tmp/ep1_video.m4s"; "-vcodec"; "copy";
            "-strict"; "unofficial"; "-tag:v"; "hvc1"; "-threads"; "8";
            "-y"; "out/ep1.mp4"]
      :: [EvUnlink "tmp/ep1_video.m4s"]
    /\ closed_buffers dl = ["tmp/ep1_video.m4s"].
Proof.
  destruct (done_run_is_ordered sample_ext
              (sample_episode [hevc_video] [mp4a_audio]) 0%nat
              (sample_world overwriting_options {[ "out/ep1.mp4" := 7 ]}))
    as (found & dl & Hevs & _ & _ & Hcl & _).
  - vm_compute. reflexivity.
  - exists found, dl. split; [exact Hevs|exact Hcl].
Defined.

Lemma done_run_rewrites_options_witness :
  video_save_codec
    (heap (snd (start_downloader sample_ext
                  (sample_episode [hevc_video] [mp4a_audio]) 0%nat
                  (sample_world sample_options ∅))) 0%nat)
  = "copy".
Proof.
  refine (proj1 (done_run_rewrites_options sample_ext
                   (sample_episode [hevc_video] [mp4a_audio]) 0%nat
                   (sample_world sample_options ∅) _)).
  vm_compute. reflexivity.
Defined.

Lemma quiet_run_touches_nothing_witness :
  is_Some
    (fs (snd (start_downloader sample_ext
                (sample_episode [hevc_video] [mp4a_audio]) 0%nat
                (sample_world sample_options {[ "out/ep1.mp4" := 7 ]})))
     !! "out/ep1.mp4").
Proof.
  refine (proj2 (proj1 (proj2 (proj2 (quiet_run_touches_nothing sample_ext
                   (sample_episode [hevc_video] [mp4a_audio]) 0%nat
                   (sample_world sample_options {[ "out/ep1.mp4" := 7 ]})
                   _))) _)).
  - left. vm_compute. reflexivity.
  - vm_compute. reflexivity.
Defined.

Lemma nothing_required_never_downloads_witness :
  fst (start_downloader sample_ext
         (sample_episode [hevc_video] [mp4a_audio]) 0%nat
         (sample_world nothing_required_options ∅)) = Ok Skipped
  \/ fst (start_downloader sample_ext
            (sample_episode [hevc_video] [mp4a_audio]) 0%nat
            (sample_world nothing_required_options ∅)) = Ok NothingToDo.
Proof.
  refine (proj1 (nothing_required_never_downloads sample_ext
                   (sample_episode [hevc_video] [mp4a_audio]) 0%nat
                   (sample_world nothing_required_options ∅) _ _ _)).
  - vm_compute. reflexivity.
  - left. reflexivity.
  - left. reflexivity.
Defined.

(** A video is selected but only the audio is asked for: the danmaku file is
    drawn for the size of that video. *)
Lemma danmaku_canvas_follows_selection_witness :
  EvWriteDanmaku {| data := ["<d/>"]; save_type := "ass" |} "out/ep1.aac"
    720 1280
  ∈ events_since (sample_world audio_only_options ∅)
      (snd (start_downloader sample_ext
              (sample_episode [avc_video] [mp4a_audio]) 0%nat
              (sample_world audio_only_options ∅))).
Proof.
  refine (proj1 (danmaku_canvas_follows_selection sample_ext
                   (sample_episode [avc_video] [mp4a_audio]) 0%nat
                   (sample_world audio_only_options ∅) _ _) avc_video _).
  - vm_compute. reflexivity.
  - discriminate.
  - reflexivity.
Defined.

(** ** The listings of the streams *)

Section Listings.

Variable ext : Collaborators.

Lemma py_index_elem {A} `{EqDecision A} (l : list A) (x : A) :
  (exists i, py_index l x = Ok i) <-> x ∈ l.
Proof.
  induction l as [|y l IH]; simpl.
  - split; [intros [i Hi]; discriminate|intros Hx; inversion Hx].
  - destruct (decide (y = x)) as [->|Hne].
    + split; [intros _; left|eauto].
    + rewrite elem_of_cons. split.
      * intros [i Hi]. right. apply IH.
        destruct (py_index l x) as [j|]; [eauto|discriminate].
      * intros [Heq|Hx]; [congruence|].
        apply IH in Hx as [j Hj]. rewrite Hj. eauto.
Qed.

Lemma py_index_raises {A} `{EqDecision A} (l : list A) (x : A) (e : PyExc) :
  py_index l x = Raise e -> e = ValueError.
Proof.
  induction l as [|y l IH]; simpl.
  - congruence.
  - destruct (decide (y = x)); [discriminate|].
    destruct (py_index l x); [discriminate|]. intros [= <-]. auto.
Qed.

Lemma selected_index_returns {A} `{EqDecision A} (streams : list A)
    (stream : option A) (will_download : bool) :
  (exists i, selected_index streams stream will_download = Ok i)
  <-> (will_download = true ->
       exists s, stream = Some s /\ s ∈ streams).
Proof.
  unfold selected_index. destruct will_download.
  - destruct stream as [s|].
    + rewrite py_index_elem. split.
      * intros Hs _. eauto.
      * intros Hs. destruct (Hs eq_refl) as (s' & [= <-] & Hin). exact Hin.
    + split; [intros [i Hi]; discriminate|].
      intros Hs. destruct (Hs eq_refl) as (s' & Hs' & _). discriminate.
  - split; [intros _ Hc; discriminate|eauto].
Qed.

(** A loop that looks up the quality of each stream returns when every
    quality is known, and raises [KeyError] otherwise. *)
Lemma for_each_quality {A} (quality_map : gmap Z string) (quality : A -> Z)
    (l : list A) :
  let run :=
    for_each_result l (fun x =>
      match py_getitem quality_map (quality x) with
      | Ok description => Ok tt
      | Raise e => Raise e
      end) in
  (run = Ok tt <-> Forall (fun x => is_Some (quality_map !! quality x)) l)
  /\ (run = Ok tt \/ run = Raise KeyError).
Proof.
  induction l as [|x l [IH1 IH2]]; cbn [for_each_result].
  - split; [split; [constructor|reflexivity]|left; reflexivity].
  - destruct (py_getitem quality_map (quality x)) as [d|e] eqn:Hg;
      unfold py_getitem in Hg;
      destruct (quality_map !! quality x) as [d'|] eqn:Hq; simplify_eq.
    + split; [|exact IH2].
      rewrite IH1, Forall_cons, Hq. split; [eauto|tauto].
    + split; [|right; reflexivity].
      split; [discriminate|].
      intros [Hx _]%Forall_cons. rewrite Hq in Hx. destruct Hx. discriminate.
Qed.

Lemma show_videos_info_returns (videos : list VideoUrlMeta) (selected : Z) :
  (show_videos_info ext videos selected = Ok tt
   <-> Forall (fun v => is_Some (video_quality_map ext !! v_quality v)) videos)
  /\ (show_videos_info ext videos selected = Ok tt
      \/ show_videos_info ext videos selected = Raise KeyError).
Proof.
  unfold show_videos_info. destruct videos as [|v videos].
  - split; [split; [constructor|reflexivity]|left; reflexivity].
  - apply (for_each_quality (video_quality_map ext) v_quality (v :: videos)).
Qed.

Lemma show_audios_info_returns (audios : list AudioUrlMeta) (selected : Z) :
  (show_audios_info ext audios selected = Ok tt
   <-> Forall (fun a => is_Some (audio_quality_map ext !! a_quality a)) audios)
  /\ (show_audios_info ext audios selected = Ok tt
      \/ show_audios_info ext audios selected = Raise KeyError).
Proof.
  unfold show_audios_info. destruct audios as [|a audios].
  - split; [split; [constructor|reflexivity]|left; reflexivity].
  - apply (for_each_quality (audio_quality_map ext) a_quality (a :: audios)).
Qed.

(** The two listings of [start_downloader] return exactly when every stream
    of the episode, selected or not, has a quality the quality map of its
    kind knows, and each stream that will be downloaded is one of the
    streams of the episode. *)
Theorem listing_returns_iff (episode_data : EpisodeData)
    (o : DownloaderOptions) :
  listing ext episode_data o = Ok tt
  <-> (will_download_video ext episode_data o = true ->
       exists v, selected_video ext episode_data o = Some v
                 /\ v ∈ videos episode_data)
      /\ Forall (fun v => is_Some (video_quality_map ext !! v_quality v))
           (videos episode_data)
      /\ (will_download_audio ext episode_data o = true ->
          exists a, selected_audio ext episode_data o = Some a
                    /\ a ∈ audios episode_data)
      /\ Forall (fun a => is_Some (audio_quality_map ext !! a_quality a))
           (audios episode_data).
Proof.
  unfold listing.
  rewrite <- (selected_index_returns (videos episode_data)).
  rewrite <- (selected_index_returns (audios episode_data)).
  destruct (selected_index (videos episode_data) _ _) as [sv|e1].
  2: { split; [discriminate|]. intros ([i Hi] & _). discriminate. }
  rewrite <- (proj1 (show_videos_info_returns (videos episode_data) sv)).
  destruct (show_videos_info ext _ sv) as [[]|e2].
  2: { split; [discriminate|]. intros (_ & Hc & _). discriminate. }
  destruct (selected_index (audios episode_data) _ _) as [sa|e3].
  2: { split; [discriminate|]. intros (_ & _ & [i Hi] & _). discriminate. }
  rewrite <- (proj1 (show_audios_info_returns (audios episode_data) sa)).
  split; [intros H; eauto 10|intros (_ & _ & _ & H); exact H].
Qed.

(** When a stream of the episode has a quality the video quality map does
    not know, selected or not, [start_downloader] raises [KeyError] in the
    listing of the videos: it has created the temporary directory, and has
    not created the output directory, written a subtitle, danmaku or
    metadata file, looked for the output file or changed a file or the
    options. *)
Theorem unknown_quality_aborts_before_writes (episode_data : EpisodeData)
    (options : ref) (w : World) (v : VideoUrlMeta) :
  let o := heap w options in
  let run := start_downloader ext episode_data options w in
  v ∈ videos episode_data ->
  video_quality_map ext !! v_quality v = None ->
  (will_download_video ext episode_data o = true ->
   exists s, selected_video ext episode_data o = Some s
             /\ s ∈ videos episode_data) ->
  fst run = Raise KeyError
  /\ events_since w (snd run) = [EvMkdir (tmp_dir episode_data)]
  /\ fs (snd run) = fs w
  /\ heap (snd run) = heap w.
Proof.
  intros o run Hv Hq Hsel.
  assert (Hl : listing ext episode_data o = Raise KeyError).
  { unfold listing.
    apply selected_index_returns in Hsel as [sv ->].
    destruct (show_videos_info_returns (videos episode_data) sv)
      as [Hok [Hr|Hr]]; [|rewrite Hr; reflexivity].
    exfalso. apply Hok in Hr. rewrite Forall_forall in Hr.
    destruct (Hr v Hv) as [d Hd]. congruence. }
  unfold run. rewrite (start_downloader_unlisted ext _ _ _ _ Hl).
  cbn [fst snd fs heap]. repeat split; try reflexivity.
  apply events_since_app. reflexivity.
Qed.

End Listings.

Lemma unknown_quality_aborts_before_writes_witness :
  let w := sample_world nothing_required_options ∅ in
  let run := start_downloader sample_ext
               (sample_episode [hevc_video; unlisted_video] [mp4a_audio])
               0%nat w in
  fst run = Raise KeyError /\ trace (snd run) = [EvMkdir "tmp"].
Proof.
  intros w run.
  destruct (unknown_quality_aborts_before_writes sample_ext
              (sample_episode [hevc_video; unlisted_video] [mp4a_audio])
              0%nat w unlisted_video) as (Hres & Hevs & _).
  - right. left.
  - vm_compute. reflexivity.
  - vm_compute. discriminate.
  - split; [exact Hres|exact Hevs].
Defined.

(** ** Without the muxer *)

Section NoMuxer.

Variable ext : Collaborators.

(** The worlds before the download keep the options and start no muxer. *)
Lemma before_download_quiet (episode_data : EpisodeData) (options : ref)
    (w : World) (b : bool) :
  let o := heap w options in
  let out := output_path ext episode_data o in
  let w0 := world_at_check ext episode_data options w in
  let w1 := if b then {| heap := heap w0; fs := delete out (fs w0);
                         trace := trace w0 ++ [EvUnlink out] |}
            else w0 in
  heap w1 = heap w
  /\ exists evs, trace w1 = trace w ++ evs
                 /\ Forall (fun ev => is_muxer ev = false) evs.
Proof.
  cbv zeta. split; [destruct b; reflexivity|].
  exists ([EvMkdir (tmp_dir episode_data); EvMkdir (output_dir episode_data)]
          ++ ancillary_events ext episode_data (heap w options)
          ++ [EvExists (output_path ext episode_data (heap w options))
                (bool_decide
                   (is_Some (fs (world_at_check ext episode_data options w)
                             !! output_path ext episode_data
                                  (heap w options))))]
          ++ (if b then [EvUnlink (output_path ext episode_data
                                     (heap w options))] else [])).
  split.
  - destruct b; cbn [trace world_at_check];
      rewrite <- ?app_assoc; simpl; rewrite <- ?app_assoc, ?app_nil_r;
      reflexivity.
  - eapply Forall_impl.
    + apply (quiet_events_kind ext episode_data (heap w options)).
      destruct b; repeat constructor. eauto.
    + simpl. tauto.
Qed.

(** When [FFmpeg()] raises, a merge raises the same exception before it has
    done anything; and since the muxer is only asked for by the merge, after
    the download, no run of [start_downloader] ends [Done], starts the muxer
    or rewrites the options. *)
Theorem missing_muxer_is_found_by_the_merge
    (video : option VideoUrlMeta) (vp : Path)
    (audio : option AudioUrlMeta) (ap target : Path)
    (episode_data : EpisodeData) (options : ref) (w : World) (e : PyExc) :
  let run := start_downloader ext episode_data options w in
  FFmpeg ext = Raise e ->
  merge_video_and_audio ext video vp audio ap target options w = (Raise e, w)
  /\ fst run <> Ok Done
  /\ heap (snd run) = heap w
  /\ Forall (fun ev => is_muxer ev = false) (events_since w (snd run)).
Proof.
  intros run HFF.
  split; [exact (merge_video_and_audio_no_muxer ext _ _ _ _ _ _ _ e HFF)|].
  destruct (listing ext episode_data (heap w options)) as [[]|exc] eqn:Hl.
  2: { unfold run. rewrite (start_downloader_unlisted ext _ _ _ exc Hl).
       cbn [fst snd heap]. split; [discriminate|]. split; [reflexivity|].
       erewrite events_since_app by reflexivity. repeat constructor. }
  pose proof (start_downloader_run ext episode_data options w Hl) as Hrun.
  cbv zeta in Hrun. fold run in Hrun.
  set (o := heap w options) in *.
  set (out := output_path ext episode_data o) in *.
  set (w0 := world_at_check ext episode_data options w) in *.
  set (found := bool_decide (is_Some (fs w0 !! out))) in *.
  destruct (before_download_quiet episode_data options w false)
    as (Hh0 & evs0 & Ht0 & Hq0).
  destruct (before_download_quiet episode_data options w found)
    as (Hh1 & evs1 & Ht1 & Hq1).
  cbv zeta in Hh0, Ht0, Hh1, Ht1. fold o out w0 in Hh0, Ht0, Hh1, Ht1.
  set (w1 := if found
             then {| heap := heap w0; fs := delete out (fs w0);
                     trace := trace w0 ++ [EvUnlink out] |}
             else w0) in *.
  destruct (found && negb (overwrite o)).
  { rewrite Hrun. cbn [fst snd]. split; [discriminate|].
    split; [exact Hh0|]. rewrite (events_since_app _ _ _ Ht0). exact Hq0. }
  destruct (negb _).
  { rewrite Hrun. cbn [fst snd]. split; [discriminate|].
    split; [exact Hh1|]. rewrite (events_since_app _ _ _ Ht1). exact Hq1. }
  revert Hrun. unfold mbind, M_bind, bind.
  match goal with
  | |- context [download_video_and_audio ext ?v ?vp ?a ?ap options w1] =>
    pose proof (download_keeps_heap ext v vp a ap options w1) as Hh2;
    destruct (emits_download_video_and_audio ext v vp a ap options w1)
      as (dl & Ht2 & Hdl);
    destruct (download_video_and_audio ext v vp a ap options w1)
      as [[[]|exc] w2]
  end; cbn [fst snd] in *.
  - rewrite (merge_video_and_audio_no_muxer ext _ _ _ _ _ _ _ e HFF).
    intros ->. cbn [fst snd]. split; [discriminate|].
    split; [congruence|].
    rewrite Ht1 in Ht2. rewrite <- app_assoc in Ht2.
    rewrite (events_since_app _ _ _ Ht2).
    apply Forall_app_2; [exact Hq1|].
    eapply Forall_impl; [exact Hdl|]. intros [] Hev; simpl in *; tauto.
  - intros ->. cbn [fst snd]. split; [discriminate|].
    split; [congruence|].
    rewrite Ht1 in Ht2. rewrite <- app_assoc in Ht2.
    rewrite (events_since_app _ _ _ Ht2).
    apply Forall_app_2; [exact Hq1|].
    eapply Forall_impl; [exact Hdl|]. intros [] Hev; simpl in *; tauto.
Qed.

End NoMuxer.

(** The episode is downloaded, the buffers are closed, and only then is the
    muxer found to be missing: the partial files stay. *)
Lemma missing_muxer_is_found_by_the_merge_witness :
  let w := sample_world sample_options ∅ in
  let run := start_downloader no_muxer_ext
               (sample_episode [hevc_video] []) 0%nat w in
  fst run <> Ok Done
  /\ Forall (fun ev => is_muxer ev = false) (events_since w (snd run)).
Proof.
  intros w run.
  destruct (missing_muxer_is_found_by_the_merge no_muxer_ext None "" None ""
              "" (sample_episode [hevc_video] []) 0%nat w
              (ExternalError "FFmpegNotFoundError") eq_refl)
    as (_ & Hres & _ & Hevs).
  split; [exact Hres|exact Hevs].
Defined.

Example missing_muxer_run :
  let w := sample_world sample_options ∅ in
  let run := start_downloader no_muxer_ext
               (sample_episode [hevc_video] []) 0%nat w in
  fst run = Raise (ExternalError "FFmpegNotFoundError")
  /\ closed_buffers (trace (snd run)) = ["tmp/ep1_video.m4s"]
  /\ is_Some (fs (snd run) !! "tmp/ep1_video.m4s")
  /\ video_save_codec (heap (snd run) 0%nat) = "hevc".
Proof. vm_compute. repeat split; eauto. Qed.

(** ** [extract], continued *)

(** [NotFoundError] is caught in the loop over the videos only: when the
    name of the user or the list of their videos cannot be obtained,
    whatever the exception, [extract] raises it and asks for the list of no
    video. *)
Theorem extract_raises_user_lookup_errors (service : SpaceApi)
    (self : UserAllUgcVideosExtractor) (m : ustr) (e : ApiExc) :
  mid self = Some m ->
  get_user_name service m = Failed e
  \/ (exists username,
        get_user_name service m = Got username
        /\ get_user_space_all_videos_avids service m = Failed e) ->
  fst (extract service self) = Failed e
  /\ listed (snd (extract service self)) = [].
Proof.
  intros Hm [Hu|(username & Hu & Ha)]; unfold extract; rewrite Hm, Hu.
  - split; reflexivity.
  - rewrite Ha. split; reflexivity.
Qed.

Lemma extract_raises_user_lookup_errors_witness :
  fst (extract no_user_service {| mid := Some (literal "100969474") |})
  = Failed (NotFoundError "no such user").
Proof.
  refine (proj1 (extract_raises_user_lookup_errors no_user_service
                   {| mid := Some (literal "100969474") |}
                   (literal "100969474") (NotFoundError "no such user")
                   eq_refl _)).
  left. reflexivity.
Defined.
